(** * E-ink slideshow firmware: image loader, SD-card scan and slideshow controller

    A shallow embedding of [src/main/image_loader.cpp], [src/main/sd_card.cpp]
    and [src/main/slideshow.cpp], followed by [src/main/button.cpp] and the
    bus, display and printing components under [src/components]: [SPI.h],
    [Arduino.h], [Adafruit_SPIDevice.cpp], [Adafruit_I2CDevice.cpp],
    [Adafruit_SH1106.cpp] and [Print.h].

    Conventions.
    - [uint8_t], [uint16_t], [uint32_t], [int32_t] and [TickType_t] values are
      integers in [Z]; every C++ operation that can wrap is followed by the
      matching [wrap] / [to_int32].
    - [size_t] values (vector sizes and indices) are binary naturals [N],
      reduced modulo [2^32] (the targets are 32-bit).
    - Single-precision arithmetic of the scaler is an interface
      ([FloatArith]); [binary32] instantiates it with the IEEE-754 operations
      of the kernel's [SpecFloat] at precision 24.
    - Calls on the display object are recorded as a list of [DisplayCall]s.
    - Driver calls of the components are recorded as lists of calls in
      program order; what a driver answers is an argument of the function
      that calls it. A null handle is [None].
    - Where the C++ code has undefined behaviour (an access outside an
      array, a signed overflow, a shift by the width of the type), the
      function returns [None]; the task loop of the controller names the
      two cases it has, [DivisionByZero] and [NullPointer].
    - The two pointers of slideshow.cpp, [s_buttonQueue] and [g_display],
      are a record of their own ([Pointers]) beside the controller
      variables: only [init] assigns them. *)

From Stdlib Require Import ZArith NArith List String Ascii Bool Lia.
From Stdlib Require Import Strings.Byte.
From Stdlib Require Import Floats.SpecFloat.
From Equations Require Import Equations.
Import ListNotations.

Local Open Scope Z_scope.

(** ** Machine integers *)

Definition wrap (bits : Z) (z : Z) : Z := z mod 2 ^ bits.

Definition wrap8 : Z -> Z := wrap 8.
Definition wrap32 : Z -> Z := wrap 32.

(** Two's-complement reading of the low [bits] bits. *)
Definition to_signed (bits : Z) (z : Z) : Z :=
  let u := wrap bits z in
  if u <? 2 ^ (bits - 1) then u else u - 2 ^ bits.

Definition to_int16 : Z -> Z := to_signed 16.
Definition to_int32 : Z -> Z := to_signed 32.

(** [size_t] on the 32-bit target. *)
Definition size_wrap (n : N) : N := (n mod 2 ^ 32)%N.

(** [std::vector::size()] / [std::string::length()] as a [size_t]. *)
Definition size {A : Type} (l : list A) : N := size_wrap (N.of_nat (List.length l)).

(** ** Single-precision arithmetic used by the scaler *)

Class FloatArith : Type := {
  float : Type;
  (** conversion of an unsigned integer to [float] *)
  of_uint : Z -> float;
  fdiv : float -> float -> float;
  fmul : float -> float -> float;
  (** [a < b] *)
  flt : float -> float -> bool;
  (** [static_cast<uint32_t>(f)]: truncation toward zero; [None] where the
      value does not fit (undefined behaviour in C++). *)
  to_uint32 : float -> option Z
}.

(** [std::min(a, b)] is [(b < a) ? b : a]. *)
Definition fmin `{FloatArith} (a b : float) : float := if flt b a then b else a.

Module Binary32.

Definition prec : Z := 24.
Definition emax : Z := 128.

Definition of_Z (n : Z) : spec_float := binary_normalize prec emax n 0 false.

(** Integer part of [m * 2^e], toward zero. *)
Definition trunc_mag (m : positive) (e : Z) : Z :=
  if 0 <=? e then Z.shiftl (Z.pos m) e else Z.shiftr (Z.pos m) (- e).

Definition to_u32 (f : spec_float) : option Z :=
  match f with
  | S754_zero _ => Some 0
  | S754_finite false m e =>
      let v := trunc_mag m e in if v <? 2 ^ 32 then Some v else None
  | S754_finite true m e =>
      if trunc_mag m e =? 0 then Some 0 else None
  | S754_infinity _ | S754_nan => None
  end.

#[export] Instance binary32 : FloatArith := {|
  float := spec_float;
  of_uint := of_Z;
  fdiv := SFdiv prec emax;
  fmul := SFmul prec emax;
  flt := SFltb;
  to_uint32 := to_u32
|}.

End Binary32.

(** ** The display object *)

(** [EPD_BLACK], [EPD_WHITE], [EPD_RED] of the panel driver. *)
Inductive Color : Type := EPD_BLACK | EPD_WHITE | EPD_RED.

(** The calls the firmware makes on [Adafruit_IL0373]. *)
Inductive DisplayCall : Type :=
| Begin
| SetRotation (r : Z)
| ClearBuffer
| DrawPixel (x y : Z) (color : Color)
| SetTextSize (s : Z)
| SetTextColor (c : Color)
| FillRect (x y w h : Z) (c : Color)
| SetCursor (x y : Z)
| Print (text : string)
| Display.

(** ** config.hpp *)

Definition DISPLAY_WIDTH : Z := 128.
Definition DISPLAY_HEIGHT : Z := 296.
Definition MAX_IMAGE_FILES : N := 100.
Definition IMAGE_EXTENSIONS : list string := [".bmp"; ".BMP"]%string.
Definition IMAGE_DIRECTORY : string := "/sdcard/images"%string.
Definition AUTO_ADVANCE_DELAY_SEC : Z := 10.
Definition INACTIVITY_TIMEOUT_SEC : Z := 300.

(** ** sd_card.cpp *)

Module SDCard.

(** A [struct dirent] as [readdir] yields it. The scan reads [d_name] only. *)
Inductive FileType : Type := DT_REG | DT_DIR.

Record dirent : Type := { d_name : string; d_type : FileType }.

(** The mounted volume as the functions below see it: the module's
    [s_mounted] flag, the bytes [fopen]/[fread] deliver for a path and the
    entries [opendir]/[readdir] deliver for a directory, in iterator order. *)
Record Card : Type := {
  s_mounted : bool;
  fopen : string -> option (list byte);
  opendir : string -> option (list dirent)
}.

(** [entry->d_name[0] == '.'] (the terminating NUL of an empty name is not a dot). *)
Definition starts_with_dot (name : string) : bool :=
  match name with
  | String c _ => Ascii.eqb c "."%char
  | EmptyString => false
  end.

(** [filename.substr(filename.length() - strlen(ext))] *)
Definition tail_of (filename : string) (n : nat) : string :=
  let len := String.length filename in
  substring (len - n) (len - (len - n)) filename.

(** The [for] loop over [IMAGE_EXTENSIONS] that sets [isImage]. *)
Fixpoint isImage (filename : string) (exts : list string) : bool :=
  match exts with
  | [] => false
  | e :: rest =>
      if (String.length e <=? String.length filename)%nat
      then if String.eqb (tail_of filename (String.length e)) e
           then true
           else isImage filename rest
      else isImage filename rest
  end.

Definition fullPath (directory filename : string) : string :=
  (directory ++ "/" ++ filename)%string.

(** The [while ((entry = readdir(dir)) != nullptr && count < MAX_IMAGE_FILES)]
    loop; [entries] is what [readdir] has still to deliver. *)
Fixpoint scan_loop (directory : string) (entries : list dirent)
  (imageFiles : list string) (count : N) : list string * N :=
  match entries with
  | [] => (imageFiles, count)
  | entry :: rest =>
      if (count <? MAX_IMAGE_FILES)%N then
        if starts_with_dot (d_name entry) then
          scan_loop directory rest imageFiles count
        else if isImage (d_name entry) IMAGE_EXTENSIONS then
          scan_loop directory rest
            (imageFiles ++ [fullPath directory (d_name entry)])
            (size_wrap (count + 1))
        else scan_loop directory rest imageFiles count
      else (imageFiles, count)
  end.

(** [SDCard::scanForImages]: the vector after the call and the returned count. *)
Definition scanForImages (card : Card) (directory : string) : list string * N :=
  if negb (s_mounted card) then ([], 0%N)
  else match opendir card directory with
       | None => ([], 0%N)
       | Some entries => scan_loop directory entries [] 0%N
       end.

(** [SDCard::getFileSize]: [-1] when unmounted or the file does not open. *)
Definition getFileSize (card : Card) (filepath : string) : Z :=
  if negb (s_mounted card) then -1
  else match fopen card filepath with
       | None => -1
       | Some bytes => to_int32 (Z.of_nat (List.length bytes))
       end.

(** [SDCard::readFile]: the returned count and the bytes placed in [buffer]. *)
Definition readFile (card : Card) (filepath : string) (maxSize : Z)
  : Z * list byte :=
  if negb (s_mounted card) || (maxSize =? 0) then (-1, [])
  else match fopen card filepath with
       | None => (-1, [])
       | Some bytes =>
           let got := firstn (Z.to_nat maxSize) bytes in
           (to_int32 (Z.of_nat (List.length got)), got)
       end.

End SDCard.

(** ** image_loader.hpp / image_loader.cpp *)

Module ImageLoader.

(** [struct BMPHeader], packed. *)
Record BMPHeader : Type := {
  signature : Z;
  fileSize : Z;
  reserved1 : Z;
  reserved2 : Z;
  dataOffset : Z;
  headerSize : Z;
  width : Z;
  height : Z;
  planes : Z;
  bitsPerPixel : Z;
  compression : Z;
  imageSize : Z;
  xPixelsPerM : Z;
  yPixelsPerM : Z;
  colorsUsed : Z;
  colorsImportant : Z
}.

Definition sizeof_BMPHeader : Z := 54.

Definition byte_at (buf : list byte) (off : nat) : option Z :=
  option_map (fun b => Z.of_N (Byte.to_N b)) (nth_error buf off).

(** Little-endian load of [n] bytes at [off]; bytes past the end read as 0
    (the loader only parses buffers of at least [sizeof_BMPHeader] bytes). *)
Fixpoint load_le (n : nat) (buf : list byte) (off : nat) : Z :=
  match n with
  | O => 0
  | S n' =>
      match byte_at buf off with
      | Some b => b + 256 * load_le n' buf (S off)
      | None => 256 * load_le n' buf (S off)
      end
  end.

Definition u16_at (buf : list byte) (off : nat) : Z := load_le 2 buf off.
Definition u32_at (buf : list byte) (off : nat) : Z := load_le 4 buf off.
Definition i32_at (buf : list byte) (off : nat) : Z := to_int32 (load_le 4 buf off).

(** [reinterpret_cast<BMPHeader*>(fileBuffer)] on the little-endian target. *)
Definition headerOf (buf : list byte) : BMPHeader := {|
  signature := u16_at buf 0;
  fileSize := u32_at buf 2;
  reserved1 := u16_at buf 6;
  reserved2 := u16_at buf 8;
  dataOffset := u32_at buf 10;
  headerSize := u32_at buf 14;
  width := i32_at buf 18;
  height := i32_at buf 22;
  planes := u16_at buf 26;
  bitsPerPixel := u16_at buf 28;
  compression := u32_at buf 30;
  imageSize := u32_at buf 34;
  xPixelsPerM := i32_at buf 38;
  yPixelsPerM := i32_at buf 42;
  colorsUsed := u32_at buf 46;
  colorsImportant := u32_at buf 50
|}.

(** [ImageLoader::rgbToEinkColor]. The sum is computed in [int]; [gray] is a
    [uint8_t]. *)
Definition rgbToEinkColor (r g b : Z) : Color :=
  let gray := wrap8 ((r * 30 + g * 59 + b * 11) / 100) in
  let isRed := (128 <? r) && (g <? r) && (b <? r) in
  if gray <? 85 then EPD_BLACK
  else if isRed && (100 <? gray) then EPD_RED
  else EPD_WHITE.

(** The colour decisions made inline by the 8-bit and the 1-bit loops. *)
Definition gray8Color (gray : Z) : Color :=
  if gray <? 128 then EPD_BLACK else EPD_WHITE.

Definition bit1Color (bit : Z) : Color :=
  if bit =? 0 then EPD_WHITE else EPD_BLACK.

(** The three [rowSize] expressions, in [uint32_t]. *)
Definition rowSize24 (imgWidth : Z) : Z :=
  wrap32 (wrap32 (wrap32 (imgWidth * 3) + 3) / 4 * 4).

Definition rowSize8 (imgWidth : Z) : Z :=
  wrap32 (wrap32 (imgWidth + 3) / 4 * 4).

Definition rowSize1 (imgWidth : Z) : Z :=
  wrap32 (wrap32 (wrap32 (imgWidth + 7) / 8 + 3) / 4 * 4).

(** [abs(header->width)] stored in a [uint32_t] ([abs(INT32_MIN)] taken as
    the two's-complement result). *)
Definition absDim (d : Z) : Z := wrap32 (Z.abs d).

(** What a call of [loadAndDisplayBMP] comes to. The C++ function returns
    [false] at each [Failed] site and [true] after [display->display()].
    [Undefined] marks an execution that reads outside the file buffer or
    converts an unrepresentable [float] to [uint32_t]. *)
Inductive LoadFailure : Type :=
| InvalidFileSize
| ReadIncomplete
| InvalidSignature
| UnsupportedBitsPerPixel.

Inductive LoadResult : Type :=
| Failed (why : LoadFailure)
| Displayed (calls : list DisplayCall)
| Undefined.

Definition returnValue (r : LoadResult) : option bool :=
  match r with
  | Failed _ => Some false
  | Displayed _ => Some true
  | Undefined => None
  end.

(** A [for (uint32_t i = 0; i < n; i++)] loop whose body may be undefined and
    otherwise issues display calls. *)
Fixpoint for_loop (n : nat) (i : Z) (body : Z -> option (list DisplayCall))
  : option (list DisplayCall) :=
  match n with
  | O => Some []
  | S n' =>
      match body i with
      | None => None
      | Some calls =>
          match for_loop n' (i + 1) body with
          | None => None
          | Some more => Some (calls ++ more)
          end
      end
  end.

(** [pixelData[off]] with [pixelData = fileBuffer + header->dataOffset]. *)
Definition pixelData (buf : list byte) (hdr : BMPHeader) (off : Z) : option Z :=
  byte_at buf (Z.to_nat (dataOffset hdr + off)).

Section Render.

Context `{FA : FloatArith}.

Variable buf : list byte.
Variable hdr : BMPHeader.

Let imgWidth : Z := absDim (width hdr).
Let imgHeight : Z := absDim (height hdr).
Let topDown : bool := height hdr <? 0.

(** Lines 98-100. *)
Definition scaleOf : float :=
  let scaleX := fdiv (of_uint DISPLAY_WIDTH) (of_uint imgWidth) in
  let scaleY := fdiv (of_uint DISPLAY_HEIGHT) (of_uint imgHeight) in
  fmin scaleX scaleY.

(** [static_cast<uint32_t>(n / scale)] *)
Definition unscale (scale : float) (n : Z) : option Z :=
  to_uint32 (fdiv (of_uint n) scale).

(** [srcY], flipped for bottom-up files. *)
Definition srcRow (scale : float) (y : Z) : option Z :=
  match unscale scale y with
  | None => None
  | Some srcY =>
      Some (if topDown then srcY else wrap32 (imgHeight - 1 - srcY))
  end.

(** The source pixel of the 24-bit loop and the colour it is drawn in. *)
Definition pixel24 (srcY srcX : Z) : option Color :=
  let pixelOffset := wrap32 (srcY * rowSize24 imgWidth + srcX * 3) in
  match pixelData buf hdr pixelOffset,
        pixelData buf hdr (wrap32 (pixelOffset + 1)),
        pixelData buf hdr (wrap32 (pixelOffset + 2)) with
  | Some b, Some g, Some r => Some (rgbToEinkColor r g b)
  | _, _, _ => None
  end.

Definition pixel8 (srcY srcX : Z) : option Color :=
  match pixelData buf hdr (wrap32 (srcY * rowSize8 imgWidth + srcX)) with
  | Some gray => Some (gray8Color gray)
  | None => None
  end.

Definition pixel1 (srcY srcX : Z) : option Color :=
  let byteOffset := wrap32 (srcY * rowSize1 imgWidth + srcX / 8) in
  let bitOffset := wrap8 (7 - srcX mod 8) in
  match pixelData buf hdr byteOffset with
  | Some v => Some (bit1Color (Z.land (Z.shiftr v bitOffset) 1))
  | None => None
  end.

(** The nested [y]/[x] loops shared by the three depths; [pixel] is the
    fetch-and-colour step of the depth at hand. *)
Definition drawRows (pixel : Z -> Z -> option Color) (scale : float)
  (scaledWidth scaledHeight offsetX offsetY : Z) : option (list DisplayCall) :=
  for_loop (Z.to_nat scaledHeight) 0 (fun y =>
    match srcRow scale y with
    | None => None
    | Some srcY =>
        for_loop (Z.to_nat scaledWidth) 0 (fun x =>
          match unscale scale x with
          | None => None
          | Some srcX =>
              match pixel srcY srcX with
              | None => None
              | Some color =>
                  Some [DrawPixel (to_int16 (wrap32 (offsetX + x)))
                                  (to_int16 (wrap32 (offsetY + y))) color]
              end
          end)
    end).

(** Lines 84-170: everything after the header checks. *)
Definition render : LoadResult :=
  let scale := scaleOf in
  match to_uint32 (fmul (of_uint imgWidth) scale),
        to_uint32 (fmul (of_uint imgHeight) scale) with
  | Some scaledWidth, Some scaledHeight =>
      let offsetX := wrap32 (DISPLAY_WIDTH - scaledWidth) / 2 in
      let offsetY := wrap32 (DISPLAY_HEIGHT - scaledHeight) / 2 in
      let rows pixel :=
        drawRows pixel scale scaledWidth scaledHeight offsetX offsetY in
      let drawn :=
        if bitsPerPixel hdr =? 24 then rows pixel24
        else if bitsPerPixel hdr =? 8 then rows pixel8
        else if bitsPerPixel hdr =? 1 then rows pixel1
        else Some [] in
      match drawn with
      | Some calls => Displayed ([ClearBuffer] ++ calls ++ [Display])
      | None => Undefined
      end
  | _, _ => Undefined
  end.

End Render.

(** Lines 44-82: the checks that can make the function return [false]. *)
Definition checkFile (card : SDCard.Card) (filepath : string)
  : LoadFailure + (list byte * BMPHeader) :=
  let fileSize := SDCard.getFileSize card filepath in
  if (fileSize <? 0) || (fileSize <? sizeof_BMPHeader) then inl InvalidFileSize
  else
    let '(bytesRead, fileBuffer) := SDCard.readFile card filepath fileSize in
    if negb (bytesRead =? fileSize) then inl ReadIncomplete
    else
      let header := headerOf fileBuffer in
      if negb (signature header =? 0x4D42) then inl InvalidSignature
      else if negb (bitsPerPixel header =? 1) && negb (bitsPerPixel header =? 4)
              && negb (bitsPerPixel header =? 8)
              && negb (bitsPerPixel header =? 24)
      then inl UnsupportedBitsPerPixel
      else inr (fileBuffer, header).

(** [ImageLoader::loadAndDisplayBMP] (both pointers non-null, as at its one
    call site). *)
Definition loadAndDisplayBMP `{FloatArith} (card : SDCard.Card)
  (filepath : string) : LoadResult :=
  match checkFile card filepath with
  | inl why => Failed why
  | inr (fileBuffer, header) => render fileBuffer header
  end.

End ImageLoader.

(** ** button.hpp / slideshow.hpp / slideshow.cpp *)

Module Slideshow.

Inductive State : Type :=
| INIT | SCANNING | DISPLAYING | AUTO_ADVANCE | ERROR | SLEEPING.

Definition State_eqb (a b : State) : bool :=
  match a, b with
  | INIT, INIT | SCANNING, SCANNING | DISPLAYING, DISPLAYING
  | AUTO_ADVANCE, AUTO_ADVANCE | ERROR, ERROR | SLEEPING, SLEEPING => true
  | _, _ => false
  end.

Inductive SlideshowButtonId : Type := UP | SELECT | DOWN.

Record SlideshowButtonEvent : Type := {
  id : SlideshowButtonId;
  pressed : bool
}.

(** The file-scope variables of slideshow.cpp. Ticks are [TickType_t]. *)
Record Controller : Type := {
  s_state : State;
  s_imageFiles : list string;
  s_currentImageIndex : N;
  s_autoAdvance : bool;
  s_lastActivityTick : Z;
  s_lastAutoAdvanceTick : Z
}.

Definition set_state (c : Controller) (st : State) : Controller :=
  {| s_state := st;
     s_imageFiles := s_imageFiles c;
     s_currentImageIndex := s_currentImageIndex c;
     s_autoAdvance := s_autoAdvance c;
     s_lastActivityTick := s_lastActivityTick c;
     s_lastAutoAdvanceTick := s_lastAutoAdvanceTick c |}.

Definition set_imageFiles (c : Controller) (l : list string) : Controller :=
  {| s_state := s_state c;
     s_imageFiles := l;
     s_currentImageIndex := s_currentImageIndex c;
     s_autoAdvance := s_autoAdvance c;
     s_lastActivityTick := s_lastActivityTick c;
     s_lastAutoAdvanceTick := s_lastAutoAdvanceTick c |}.

Definition set_currentImageIndex (c : Controller) (i : N) : Controller :=
  {| s_state := s_state c;
     s_imageFiles := s_imageFiles c;
     s_currentImageIndex := i;
     s_autoAdvance := s_autoAdvance c;
     s_lastActivityTick := s_lastActivityTick c;
     s_lastAutoAdvanceTick := s_lastAutoAdvanceTick c |}.

Definition set_autoAdvance (c : Controller) (b : bool) : Controller :=
  {| s_state := s_state c;
     s_imageFiles := s_imageFiles c;
     s_currentImageIndex := s_currentImageIndex c;
     s_autoAdvance := b;
     s_lastActivityTick := s_lastActivityTick c;
     s_lastAutoAdvanceTick := s_lastAutoAdvanceTick c |}.

Definition set_lastActivityTick (c : Controller) (t : Z) : Controller :=
  {| s_state := s_state c;
     s_imageFiles := s_imageFiles c;
     s_currentImageIndex := s_currentImageIndex c;
     s_autoAdvance := s_autoAdvance c;
     s_lastActivityTick := t;
     s_lastAutoAdvanceTick := s_lastAutoAdvanceTick c |}.

Definition set_lastAutoAdvanceTick (c : Controller) (t : Z) : Controller :=
  {| s_state := s_state c;
     s_imageFiles := s_imageFiles c;
     s_currentImageIndex := s_currentImageIndex c;
     s_autoAdvance := s_autoAdvance c;
     s_lastActivityTick := s_lastActivityTick c;
     s_lastAutoAdvanceTick := t |}.

(** The variables as initialised at file scope. *)
Definition boot : Controller :=
  {| s_state := INIT;
     s_imageFiles := [];
     s_currentImageIndex := 0%N;
     s_autoAdvance := false;
     s_lastActivityTick := 0;
     s_lastAutoAdvanceTick := 0 |}.

(** What the controller does to the outside, in program order. *)
Inductive Effect : Type :=
| SpiBegin
| Panel (call : DisplayCall)
| LoadImage (path : string) (ok : bool)
| TaskDelay (ms : Z)
| ConfigureWakeup
| DeepSleepStart.

Definition imageCount (c : Controller) : N := size (s_imageFiles c).

(** [s_imageFiles[s_currentImageIndex]] *)
Definition imagePath (c : Controller) : string :=
  nth (N.to_nat (s_currentImageIndex c)) (s_imageFiles c) EmptyString.

(** [(s_currentImageIndex + 1) % s_imageFiles.size()] *)
Definition nextIndex (c : Controller) : N :=
  (size_wrap (s_currentImageIndex c + 1) mod imageCount c)%N.

(** [(s_currentImageIndex == 0) ? s_imageFiles.size() - 1 : s_currentImageIndex - 1] *)
Definition prevIndex (c : Controller) : N :=
  if (s_currentImageIndex c =? 0)%N
  then size_wrap (imageCount c + 2 ^ 32 - 1)
  else size_wrap (s_currentImageIndex c + 2 ^ 32 - 1).

(** The guard at the head of [displayCurrentImage]. *)
Definition nothingToShow (c : Controller) : bool :=
  match s_imageFiles c with [] => true | _ => false end
  || (imageCount c <=? s_currentImageIndex c)%N.

Definition inspect {A : Type} (a : A) : {b : A | a = b} := exist _ a eq_refl.

Definition drawErrorScreen (message : string) : list Effect :=
  map Panel [ClearBuffer; SetTextSize 2; SetTextColor EPD_BLACK;
             SetCursor 10 100; Print "ERROR"; SetTextSize 1;
             SetCursor 10 140; Print message; Display].

Definition drawLoadingScreen (message : string) : list Effect :=
  map Panel [ClearBuffer; SetTextSize 2; SetTextColor EPD_BLACK;
             SetCursor 20 120; Print message; Display].

Section Controller.

(** [ImageLoader::loadAndDisplayBMP(path, g_display)] as the controller sees
    it: the returned [bool]. *)
Variable loadAndDisplayBMP : string -> bool.

(** [pdMS_TO_TICKS] of the FreeRTOS configuration in use. *)
Variable pdMS_TO_TICKS : Z -> Z.

(** [displayCurrentImage]. It calls itself after a failed load unless the
    index has wrapped to 0; the distance of the index to the end of the list
    shrinks at each such call. *)
Equations? displayCurrentImage (c : Controller) : Controller * list Effect
  by wf (N.to_nat (imageCount c - s_currentImageIndex c)) lt :=
displayCurrentImage c with inspect (nothingToShow c) := {
  | exist _ true _ => (c, []);
  | exist _ false Hshow with loadAndDisplayBMP (imagePath c) := {
    | true => (c, [LoadImage (imagePath c) true]);
    | false with inspect (nextIndex c =? 0)%N := {
      | exist _ true _ =>
          (set_currentImageIndex c (nextIndex c), [LoadImage (imagePath c) false]);
      | exist _ false Hnext =>
          let r := displayCurrentImage (set_currentImageIndex c (nextIndex c)) in
          (fst r, LoadImage (imagePath c) false :: snd r) } } }.
Proof.
  unfold nothingToShow in Hshow. apply orb_false_iff in Hshow.
  destruct Hshow as [_ Hlt]. apply N.leb_gt in Hlt.
  apply N.eqb_neq in Hnext.
  unfold nextIndex, imageCount, size, size_wrap in *.
  cbn [s_imageFiles s_currentImageIndex set_currentImageIndex].
  set (n := (N.of_nat (List.length (s_imageFiles c)) mod 2 ^ 32)%N) in *.
  assert (Hn : (n < 2 ^ 32)%N) by (apply N.mod_upper_bound; discriminate).
  rewrite (N.mod_small (s_currentImageIndex c + 1)) in * by lia.
  assert (Hi : (s_currentImageIndex c + 1 < n)%N).
  { destruct (N.eq_dec (s_currentImageIndex c + 1) n) as [E|E]; [|lia].
    rewrite E in Hnext. rewrite N.Div0.mod_same in Hnext. congruence. }
  rewrite N.mod_small by lia. lia.
Qed.

(** [handleButton]; [now] is the value [xTaskGetTickCount()] returns in the
    branch taken. *)
Definition handleButton (now : Z) (evt : SlideshowButtonEvent) (c : Controller)
  : Controller * list Effect :=
  if negb (State_eqb (s_state c) DISPLAYING) then (c, [])
  else
    match id evt with
    | UP =>
        if (0 <? imageCount c)%N then
          let r := displayCurrentImage (set_currentImageIndex c (prevIndex c)) in
          (set_lastAutoAdvanceTick (fst r) now, snd r)
        else (c, [])
    | DOWN =>
        if (0 <? imageCount c)%N then
          let r := displayCurrentImage (set_currentImageIndex c (nextIndex c)) in
          (set_lastAutoAdvanceTick (fst r) now, snd r)
        else (c, [])
    | SELECT =>
        let c1 := set_autoAdvance c (negb (s_autoAdvance c)) in
        let c2 := set_lastAutoAdvanceTick c1 now in
        let indicator :=
          map Panel [SetTextSize 2; SetTextColor EPD_BLACK;
                     FillRect 0 0 128 30 EPD_WHITE; SetCursor 10 10;
                     Print (if s_autoAdvance c2 then "AUTO" else "MANUAL");
                     Display] ++ [TaskDelay 1000] in
        let r := displayCurrentImage c2 in
        (fst r, indicator ++ snd r)
    end.

(** One pass of the [while (true)] body of [Slideshow::task]: the loop goes
    on, the device goes to sleep, or the pass is undefined (a modulus by
    zero, a null pointer used). *)
Inductive Outcome : Type :=
| Running (c : Controller) (trace : list Effect)
| DeepSleep (c : Controller) (trace : list Effect)
| DivisionByZero
| NullPointer.

(** The tick readings of one pass, in program order: line 117, the one
    inside [handleButton], line 124 and line 136. *)
Record Ticks : Type := {
  t_activity : Z;
  t_button : Z;
  t_auto : Z;
  t_idle : Z
}.

(** Lines 115-120; [received] is what [xQueueReceive] delivered, if anything. *)
Definition processButton (tk : Ticks) (received : option SlideshowButtonEvent)
  (c : Controller) : Controller * list Effect :=
  match received with
  | Some btnEvt =>
      if pressed btnEvt
      then handleButton (t_button tk) btnEvt
             (set_lastActivityTick c (t_activity tk))
      else (c, [])
  | None => (c, [])
  end.

(** Lines 122-133; [None] when the modulus is taken by an empty list. *)
Definition autoAdvance (now : Z) (c : Controller)
  : option (Controller * list Effect) :=
  if State_eqb (s_state c) DISPLAYING && s_autoAdvance c then
    let elapsed := wrap32 (now - s_lastAutoAdvanceTick c) in
    if pdMS_TO_TICKS (AUTO_ADVANCE_DELAY_SEC * 1000) <=? elapsed then
      if (imageCount c =? 0)%N then None
      else
        let r := displayCurrentImage (set_currentImageIndex c (nextIndex c)) in
        Some (set_lastAutoAdvanceTick (fst r) now, snd r)
    else Some (c, [])
  else Some (c, []).

(** Lines 135-148. *)
Definition sleepDue (now : Z) (c : Controller) : bool :=
  pdMS_TO_TICKS (INACTIVITY_TIMEOUT_SEC * 1000)
    <=? wrap32 (now - s_lastActivityTick c).

Definition goToSleep : list Effect :=
  map Panel [ClearBuffer; SetCursor 20 140; Print "Sleeping..."; Display]
  ++ [ConfigureWakeup; TaskDelay 100; DeepSleepStart].

(** [Slideshow::init]. [queueCreated], [buttonsReady] and [sdInit] are the
    results of [xQueueCreate], [SlideshowButtons::init] and [SDCard::init];
    [card] is the volume once mounted, [t1] and [t2] are the two tick
    readings. *)
Definition init (queueCreated buttonsReady sdInit : bool) (card : SDCard.Card)
  (t1 t2 : Z) (c : Controller) : Controller * list Effect * bool :=
  if negb queueCreated then (c, [], false)
  else if negb buttonsReady then (c, [], false)
  else
    let panel :=
      [SpiBegin; Panel Begin; Panel (SetRotation 1)]
      ++ drawLoadingScreen "Initializing..." in
    if negb sdInit then
      (set_state c ERROR, panel ++ drawErrorScreen "SD card error", false)
    else
      let scanning := drawLoadingScreen "Scanning images..." in
      let '(files, imageCount) := SDCard.scanForImages card IMAGE_DIRECTORY in
      let c1 := set_imageFiles (set_state c SCANNING) files in
      if (imageCount =? 0)%N then
        (set_state c1 ERROR,
         panel ++ scanning ++ drawErrorScreen "No images found", false)
      else
        let c2 := set_state (set_currentImageIndex c1 0%N) DISPLAYING in
        let c3 := set_lastAutoAdvanceTick (set_lastActivityTick c2 t1) t2 in
        let r := displayCurrentImage c3 in
        (fst r, panel ++ scanning ++ snd r, true).

End Controller.

(** The two pointers at file scope, [false] for a null pointer. Only
    [init] assigns them: [s_buttonQueue] at line 46, [g_display] at line
    63. *)
Record Pointers : Type := {
  s_buttonQueue : bool;
  g_display : bool
}.

(** Both null, as initialised at file scope. *)
Definition unset : Pointers :=
  {| s_buttonQueue := false; g_display := false |}.

(** Both created. *)
Definition ready : Pointers :=
  {| s_buttonQueue := true; g_display := true |}.

(** The pointers after [Slideshow::init]: the queue is what [xQueueCreate]
    returned, the display is created once the queue and the buttons are
    there. *)
Definition initPointers (queueCreated buttonsReady : bool) (ptrs : Pointers)
  : Pointers :=
  {| s_buttonQueue := queueCreated;
     g_display := if queueCreated && buttonsReady then true
                  else g_display ptrs |}.

(** [ImageLoader::loadAndDisplayBMP(path, g_display)] with the display
    pointer as it is: on a null display it returns [false] at once
    (image_loader.cpp line 38). *)
Definition loaderWith (ptrs : Pointers) (loadAndDisplayBMP : string -> bool)
  : string -> bool :=
  fun path => g_display ptrs && loadAndDisplayBMP path.

(** The effects that are calls through [g_display]. *)
Definition usesDisplay (e : Effect) : bool :=
  match e with
  | Panel _ => true
  | _ => false
  end.

(** Whether a trace calls through a null [g_display]. *)
Definition derefsNull (ptrs : Pointers) (trace : list Effect) : bool :=
  negb (g_display ptrs) && existsb usesDisplay trace.

(** One pass of the loop of [Slideshow::task], lines 114-148. [xQueueReceive]
    on a null queue, and a call through a null [g_display] (lines 140-143,
    200-205), are undefined. *)
Definition task_iteration (loadAndDisplayBMP : string -> bool)
  (pdMS_TO_TICKS : Z -> Z) (ptrs : Pointers) (tk : Ticks)
  (received : option SlideshowButtonEvent) (c : Controller) : Outcome :=
  if negb (s_buttonQueue ptrs) then NullPointer
  else
    let load := loaderWith ptrs loadAndDisplayBMP in
    let r1 := processButton load tk received c in
    if derefsNull ptrs (snd r1) then NullPointer
    else
      match autoAdvance load pdMS_TO_TICKS (t_auto tk) (fst r1) with
      | None => DivisionByZero
      | Some r2 =>
          if derefsNull ptrs (snd r2) then NullPointer
          else if sleepDue pdMS_TO_TICKS (t_idle tk) (fst r2) then
            if derefsNull ptrs goToSleep then NullPointer
            else DeepSleep (fst r2) (snd r1 ++ snd r2 ++ goToSleep)
          else Running (fst r2) (snd r1 ++ snd r2)
      end.

(** [Slideshow::task] over the passes it is given input for; the trace of
    all passes and the controller at the end, unless the device went to
    sleep or the loop became undefined on the way. *)
Fixpoint task (loadAndDisplayBMP : string -> bool) (pdMS_TO_TICKS : Z -> Z)
  (ptrs : Pointers) (inputs : list (Ticks * option SlideshowButtonEvent))
  (c : Controller) : Outcome :=
  match inputs with
  | [] => Running c []
  | (tk, received) :: rest =>
      match task_iteration loadAndDisplayBMP pdMS_TO_TICKS ptrs tk received
              c with
      | Running c1 tr1 =>
          match task loadAndDisplayBMP pdMS_TO_TICKS ptrs rest c1 with
          | Running c2 tr2 => Running c2 (tr1 ++ tr2)
          | DeepSleep c2 tr2 => DeepSleep c2 (tr1 ++ tr2)
          | DivisionByZero => DivisionByZero
          | NullPointer => NullPointer
          end
      | stop => stop
      end
  end.

End Slideshow.

(** ** Test inputs *)

Module Fixtures.

Import ImageLoader.

Definition byte_of (z : Z) : byte :=
  match Byte.of_N (Z.to_N (z mod 256)) with
  | Some b => b
  | None => x00
  end.

Fixpoint le_bytes (n : nat) (z : Z) : list byte :=
  match n with
  | O => []
  | S n' => byte_of z :: le_bytes n' (z / 256)
  end.

(** The 54 bytes of a header, fields in declaration order, little-endian. *)
Definition headerBytes (h : BMPHeader) : list byte :=
  le_bytes 2 (signature h) ++ le_bytes 4 (fileSize h)
  ++ le_bytes 2 (reserved1 h) ++ le_bytes 2 (reserved2 h)
  ++ le_bytes 4 (dataOffset h) ++ le_bytes 4 (headerSize h)
  ++ le_bytes 4 (width h) ++ le_bytes 4 (height h)
  ++ le_bytes 2 (planes h) ++ le_bytes 2 (bitsPerPixel h)
  ++ le_bytes 4 (compression h) ++ le_bytes 4 (imageSize h)
  ++ le_bytes 4 (xPixelsPerM h) ++ le_bytes 4 (yPixelsPerM h)
  ++ le_bytes 4 (colorsUsed h) ++ le_bytes 4 (colorsImportant h).

(** A BITMAPINFOHEADER file header with pixel data right behind it. *)
Definition bmpHeader (w h bpp comp : Z) : BMPHeader :=
  {| signature := 0x4D42; fileSize := 0; reserved1 := 0; reserved2 := 0;
     dataOffset := 54; headerSize := 40; width := w; height := h;
     planes := 1; bitsPerPixel := bpp; compression := comp; imageSize := 0;
     xPixelsPerM := 0; yPixelsPerM := 0; colorsUsed := 0;
     colorsImportant := 0 |}.

Definition bmpFile (w h bpp comp : Z) (pixels : list Z) : list byte :=
  headerBytes (bmpHeader w h bpp comp) ++ map byte_of pixels.

(** A mounted card holding one file. *)
Definition cardWith (path : string) (bytes : list byte) : SDCard.Card :=
  {| SDCard.s_mounted := true;
     SDCard.fopen := fun p => if String.eqb p path then Some bytes else None;
     SDCard.opendir := fun _ => None |}.

(** A mounted card whose image directory lists [entries]. *)
Definition cardListing (entries : list SDCard.dirent) : SDCard.Card :=
  {| SDCard.s_mounted := true;
     SDCard.fopen := fun _ => None;
     SDCard.opendir :=
       fun d => if String.eqb d IMAGE_DIRECTORY then Some entries else None |}.

Definition photo : string := "/sdcard/images/photo.bmp".

(** 128x1, 8 bits per pixel, every byte 100. *)
Definition gray100 : list byte := bmpFile 128 1 8 0 (repeat 100 128).

(** The same picture with the header's compression field set to 1 (RLE8). *)
Definition gray100_rle : list byte := bmpFile 128 1 8 1 (repeat 100 128).

(** 1x1 at 4 bits per pixel. *)
Definition nibble : list byte := bmpFile 1 1 4 0 [0; 0; 0; 0].

(** Width 0, height 1, 24 bits per pixel. *)
Definition zeroWide : list byte := bmpFile 0 1 24 0 [].

(** Width [INT32_MAX], height 1, 24 bits per pixel. *)
Definition hugeWide : list byte := bmpFile 2147483647 1 24 0 [].

(** The colours of the [DrawPixel] calls in a trace. *)
Definition drawnColors (calls : list DisplayCall) : list Color :=
  flat_map (fun c => match c with DrawPixel _ _ k => [k] | _ => [] end) calls.

End Fixtures.

(** ** The stride rule in the words of the specification *)

(** [stride = ((bits_per_pixel * |width| + 31) / 32) * 4], over the integers. *)
Definition spec_stride (bits_per_pixel w : Z) : Z :=
  ((bits_per_pixel * w + 31) / 32) * 4.

(** ** Arrays *)

(** [array[i] = v], for an index inside the array. *)
Definition store_at {A : Type} (i : nat) (v : A) (l : list A) : list A :=
  firstn i l ++ v :: skipn (S i) l.

(** ** esp_err.h: the codes the code compares against *)

Definition ESP_OK : Z := 0.
Definition ESP_ERR_INVALID_STATE : Z := 0x103.
Definition ESP_ERR_NOT_FOUND : Z := 0x105.

(** ** sd_card.cpp: mounting *)

Module SDCardMount.

(** The driver calls [init] and [deinit] make, in program order. *)
Inductive DriverCall : Type :=
| SpiBusInitialize
| SdspiMount
| CardPrintInfo
| SdcardUnmount
| SpiBusFree.

(** [SDCard::init]; the arguments are what [spi_bus_initialize] and
    [esp_vfs_fat_sdspi_mount] return (when called) and the flag [s_mounted].
    The result is the flag afterwards, the calls made and the value
    returned. *)
Definition init (spiBusResult mountResult : Z) (s_mounted : bool)
  : bool * list DriverCall * bool :=
  if s_mounted then (s_mounted, [], true)
  else if negb (spiBusResult =? ESP_OK)
          && negb (spiBusResult =? ESP_ERR_INVALID_STATE)
  then (s_mounted, [SpiBusInitialize], false)
  else if negb (mountResult =? ESP_OK)
  then (s_mounted, [SpiBusInitialize; SdspiMount], false)
  else (true, [SpiBusInitialize; SdspiMount; CardPrintInfo], true).

(** [SDCard::deinit] *)
Definition deinit (s_mounted : bool) : bool * list DriverCall :=
  if negb s_mounted then (s_mounted, [])
  else (false, [SdcardUnmount; SpiBusFree]).

(** [SDCard::isMounted] *)
Definition isMounted (s_mounted : bool) : bool := s_mounted.

End SDCardMount.

(** ** button.cpp *)

Module SlideshowButtons.

Import Slideshow.

(** The queue [Slideshow::init] creates with [xQueueCreate(10, ...)]: a FIFO
    of at most 10 events. [xQueueSendFromISR] appends unless the queue is
    full; [xQueueReceive] takes the oldest event, if there is one. *)
Definition QUEUE_LENGTH : nat := 10.

Definition xQueueSendFromISR (queue : list SlideshowButtonEvent)
  (ev : SlideshowButtonEvent) : list SlideshowButtonEvent * bool :=
  if (List.length queue <? QUEUE_LENGTH)%nat then (queue ++ [ev], true)
  else (queue, false).

Definition xQueueReceive (queue : list SlideshowButtonEvent)
  : option SlideshowButtonEvent * list SlideshowButtonEvent :=
  match queue with
  | [] => (None, [])
  | ev :: rest => (Some ev, rest)
  end.

(** [gpio_isr_handler]; [arg] points at the id registered for the pin. *)
Definition gpio_isr_handler (arg : SlideshowButtonId)
  (s_btnQueue : list SlideshowButtonEvent) : list SlideshowButtonEvent :=
  let realId := arg in
  let ev := {| id := realId; pressed := true |} in
  fst (xQueueSendFromISR s_btnQueue ev).

(** config.hpp: the button pins. *)
Definition BTN_UP_GPIO : Z := 9.
Definition BTN_SELECT_GPIO : Z := 10.
Definition BTN_DOWN_GPIO : Z := 11.

(** The id [SlideshowButtons::init] registers with [gpio_isr_handler_add]
    for a pin. *)
Definition registeredId (pin : Z) : option SlideshowButtonId :=
  if pin =? BTN_UP_GPIO then Some UP
  else if pin =? BTN_SELECT_GPIO then Some SELECT
  else if pin =? BTN_DOWN_GPIO then Some DOWN
  else None.

(** [SlideshowButtons::init]; the arguments are the codes [gpio_config],
    [gpio_install_isr_service] and the three [gpio_isr_handler_add] return.
    [ESP_ERROR_CHECK] aborts on a code other than ESP_OK ([None]); the
    function returns no value but [true]. *)
Definition init (gpioConfig isrService addUp addSelect addDown : Z)
  : option bool :=
  if negb (gpioConfig =? ESP_OK) then None
  else if negb (isrService =? ESP_OK) then None
  else if negb (addUp =? ESP_OK) then None
  else if negb (addSelect =? ESP_OK) then None
  else if negb (addDown =? ESP_OK) then None
  else Some true.

(** The 64-bit mask of [init] and [configure_wakeup]. *)
Definition pinMask : Z :=
  wrap 64 (Z.lor (Z.lor (Z.shiftl 1 BTN_UP_GPIO) (Z.shiftl 1 BTN_SELECT_GPIO))
                 (Z.shiftl 1 BTN_DOWN_GPIO)).

(** What happens around the queue: a falling edge on a pin, or a receive by
    the task. *)
Inductive QueueOp : Type :=
| FallingEdge (pin : Z)
| Receive.

(** The events the task has received so far (oldest first) and the queue. *)
Fixpoint runQueue (ops : list QueueOp)
  (received queue : list SlideshowButtonEvent)
  : list SlideshowButtonEvent * list SlideshowButtonEvent :=
  match ops with
  | [] => (received, queue)
  | FallingEdge pin :: rest =>
      match registeredId pin with
      | Some arg => runQueue rest received (gpio_isr_handler arg queue)
      | None => runQueue rest received queue
      end
  | Receive :: rest =>
      match xQueueReceive queue with
      | (Some ev, queue') => runQueue rest (received ++ [ev]) queue'
      | (None, queue') => runQueue rest received queue'
      end
  end.

End SlideshowButtons.

(** ** SPI.h *)

Module SPI.

Definition GPIO_NUM_NC : Z := -1.
Definition SPI2_HOST : Z := 1.
Definition MSBFIRST : Z := 1.
Definition LSBFIRST : Z := 0.
Definition SPI_MODE0 : Z := 0.
(** spi_master.h: the transmit and the receive LSB-first bits. *)
Definition SPI_DEVICE_BIT_LSBFIRST : Z := Z.lor 1 2.

Record SPISettings : Type := {
  clock : Z;
  bitOrder : Z;
  dataMode : Z
}.

Definition defaultSettings : SPISettings :=
  {| clock := 1000000; bitOrder := MSBFIRST; dataMode := SPI_MODE0 |}.

(** [class SPIClass]; [spi_device_] is [None] for a null handle. *)
Record SPIClass : Type := {
  spi_device_ : option Z;
  initialized_ : bool;
  cs_pin_ : Z;
  sck_pin_ : Z;
  mosi_pin_ : Z;
  miso_pin_ : Z;
  current_settings_ : SPISettings;
  spi_host_ : Z
}.

(** The global [SPI] object as constructed (static storage: the handle the
    constructor leaves alone is null). *)
Definition SPI0 : SPIClass :=
  {| spi_device_ := None; initialized_ := false; cs_pin_ := GPIO_NUM_NC;
     sck_pin_ := GPIO_NUM_NC; mosi_pin_ := GPIO_NUM_NC;
     miso_pin_ := GPIO_NUM_NC; current_settings_ := defaultSettings;
     spi_host_ := SPI2_HOST |}.

(** The driver calls, in program order. *)
Inductive DriverCall : Type :=
| BusInitialize (host mosi miso sclk : Z)
| BusAddDevice (host cs clock mode flags : Z)
| DeviceTransmit (device : Z) (tx : list Z)
| BusRemoveDevice (device : Z)
| BusFree (host : Z).

Section Driver.

(** What the driver answers: [spi_bus_initialize] its code;
    [spi_bus_add_device] its code and what it stores through the handle
    pointer ([None]: nothing, [Some 0]: a null handle);
    [spi_device_transmit] its code and the bytes it leaves in the receive
    buffer, given the bytes sent. *)
Variable spi_bus_initialize : Z.
Variable spi_bus_add_device : Z * option Z.
Variable spi_device_transmit : list Z -> Z * list Z.

Definition stored (written : option Z) (old : option Z) : option Z :=
  match written with
  | None => old
  | Some handle => if handle =? 0 then None else Some handle
  end.

(** [begin(sck, mosi, miso, cs)] *)
Definition begin (sck mosi miso cs : Z) (spi : SPIClass)
  : SPIClass * list DriverCall :=
  let spi1 :=
    {| spi_device_ := spi_device_ spi; initialized_ := initialized_ spi;
       cs_pin_ := cs; sck_pin_ := sck; mosi_pin_ := mosi; miso_pin_ := miso;
       current_settings_ := current_settings_ spi;
       spi_host_ := spi_host_ spi |} in
  let busCall := BusInitialize (spi_host_ spi1) mosi miso sck in
  let ret := spi_bus_initialize in
  if negb (ret =? ESP_OK) && negb (ret =? ESP_ERR_INVALID_STATE)
  then (spi1, [busCall])
  else
    let ready s :=
      {| spi_device_ := spi_device_ s; initialized_ := true;
         cs_pin_ := cs_pin_ s; sck_pin_ := sck_pin_ s;
         mosi_pin_ := mosi_pin_ s; miso_pin_ := miso_pin_ s;
         current_settings_ := current_settings_ s;
         spi_host_ := spi_host_ s |} in
    if negb (cs =? GPIO_NUM_NC) then
      let settings := current_settings_ spi1 in
      let addCall :=
        BusAddDevice (spi_host_ spi1) cs (clock settings) (dataMode settings)
          (if bitOrder settings =? LSBFIRST then SPI_DEVICE_BIT_LSBFIRST
           else 0) in
      let '(ret2, written) := spi_bus_add_device in
      let spi2 :=
        {| spi_device_ := stored written (spi_device_ spi1);
           initialized_ := initialized_ spi1;
           cs_pin_ := cs; sck_pin_ := sck; mosi_pin_ := mosi;
           miso_pin_ := miso; current_settings_ := current_settings_ spi1;
           spi_host_ := spi_host_ spi1 |} in
      if negb (ret2 =? ESP_OK) then (spi2, [busCall; addCall])
      else (ready spi2, [busCall; addCall])
    else (ready spi1, [busCall]).

Definition isInitialized (spi : SPIClass) : bool := initialized_ spi.

(** The guard shared by both [transfer]s and by [end()]. *)
Definition usable (spi : SPIClass) : option Z :=
  if negb (initialized_ spi) || (cs_pin_ spi =? GPIO_NUM_NC) then None
  else spi_device_ spi.

(** [uint8_t transfer(uint8_t data)] *)
Definition transfer (data : Z) (spi : SPIClass) : Z * list DriverCall :=
  match usable spi with
  | None => (0, [])
  | Some device =>
      let '(ret, rx) := spi_device_transmit [data] in
      if negb (ret =? ESP_OK) then (0, [DeviceTransmit device [data]])
      else (wrap8 (nth 0 rx 0), [DeviceTransmit device [data]])
  end.

(** [void transfer(uint8_t* buffer, size_t len)]: the buffer afterwards (it
    is the receive buffer too) and the calls. *)
Definition transferBuffer (buffer : list Z) (spi : SPIClass)
  : list Z * list DriverCall :=
  match usable spi with
  | None => (buffer, [])
  | Some device =>
      (snd (spi_device_transmit buffer), [DeviceTransmit device buffer])
  end.

(** [write(uint8_t)], [write(const uint8_t*, size_t)] *)
Definition write (data : Z) (spi : SPIClass) : list DriverCall :=
  snd (transfer data spi).

Definition writeBuffer (buffer : list Z) (spi : SPIClass) : list DriverCall :=
  snd (transferBuffer buffer spi).

(** [write16], [write32] *)
Definition write16 (data : Z) (spi : SPIClass) : list DriverCall :=
  let buf := [Z.land (Z.shiftr data 8) 0xFF; Z.land data 0xFF] in
  writeBuffer buf spi.

Definition write32 (data : Z) (spi : SPIClass) : list DriverCall :=
  let buf := [Z.land (Z.shiftr data 24) 0xFF; Z.land (Z.shiftr data 16) 0xFF;
              Z.land (Z.shiftr data 8) 0xFF; Z.land data 0xFF] in
  writeBuffer buf spi.

(** [end()] *)
Definition end_ (spi : SPIClass) : SPIClass * list DriverCall :=
  match usable spi with
  | None => (spi, [])
  | Some device =>
      ({| spi_device_ := spi_device_ spi; initialized_ := false;
          cs_pin_ := cs_pin_ spi; sck_pin_ := sck_pin_ spi;
          mosi_pin_ := mosi_pin_ spi; miso_pin_ := miso_pin_ spi;
          current_settings_ := current_settings_ spi;
          spi_host_ := spi_host_ spi |},
       [BusRemoveDevice device; BusFree (spi_host_ spi)])
  end.

End Driver.

End SPI.

(** ** Arduino.h *)

Module Arduino.

Definition INPUT : Z := 0.
Definition OUTPUT : Z := 1.
Definition INPUT_PULLUP : Z := 2.
Definition INPUT_PULLDOWN : Z := 3.
Definition LOW : Z := 0.
Definition HIGH : Z := 1.

(** The GPIO driver calls. [GpioConfig] carries the fields [pinMode] fills
    in: the pin mask, whether the mode is output, pull-up, pull-down. *)
Inductive GpioCall : Type :=
| GpioConfig (pin_bit_mask : Z) (output pull_up pull_down : bool)
| GpioSetLevel (pin level : Z)
| GpioGetLevel (pin : Z).

(** [pinMode(int8_t pin, int mode)]; [None] where [1ULL << pin] shifts by 64
    or more. *)
Definition pinMode (pin mode : Z) : option (list GpioCall) :=
  if pin <? 0 then Some []
  else if 64 <=? pin then None
  else Some [GpioConfig (Z.shiftl 1 pin) (mode =? OUTPUT)
               (mode =? INPUT_PULLUP) (mode =? INPUT_PULLDOWN)].

(** [digitalWrite(int8_t pin, uint32_t level)] *)
Definition digitalWrite (pin level : Z) : list GpioCall :=
  if pin <? 0 then [] else [GpioSetLevel pin level].

(** [digitalRead(int8_t pin)]; [gpio_get_level] is what the driver reads. *)
Definition digitalRead (gpio_get_level : Z -> Z) (pin : Z)
  : Z * list GpioCall :=
  if pin <? 0 then (0, []) else (gpio_get_level pin, [GpioGetLevel pin]).

End Arduino.

(** ** Adafruit_SPIDevice.cpp *)

Module SPIDevice.

Definition SPI_BITORDER_MSBFIRST : Z := SPI.MSBFIRST.
Definition SPI_BITORDER_LSBFIRST : Z := SPI.LSBFIRST.

(** [class Adafruit_SPIDevice]; [_spi] tells whether the [SPIClass] pointer
    is non-null: the object it points at is the caller's, and [begin] reads
    it as it is then. *)
Record Adafruit_SPIDevice : Type := {
  _spi : bool;
  _freq : Z;
  _dataOrder : Z;
  _dataMode : Z;
  _cs : Z;
  _sck : Z;
  _mosi : Z;
  _miso : Z;
  _begun : bool;
  spi_device_ : option Z;
  spi_host_ : Z
}.

(** The hardware-SPI constructor; [theSPI] is the object pointed at, [None]
    for a null pointer. *)
Definition create (cspin freq dataOrder dataMode : Z)
  (theSPI : option SPI.SPIClass) : Adafruit_SPIDevice :=
  {| _spi := match theSPI with Some _ => true | None => false end;
     _freq := freq; _dataOrder := dataOrder;
     _dataMode := dataMode; _cs := cspin; _sck := -1; _mosi := -1;
     _miso := -1; _begun := false; spi_device_ := None;
     spi_host_ := match theSPI with
                  | Some spi => SPI.spi_host_ spi
                  | None => SPI.SPI2_HOST
                  end |}.

(** The software-SPI constructor. *)
Definition createSoftware (cspin sck miso mosi freq dataOrder dataMode : Z)
  : Adafruit_SPIDevice :=
  {| _spi := false; _freq := freq; _dataOrder := dataOrder;
     _dataMode := dataMode; _cs := cspin; _sck := sck; _mosi := mosi;
     _miso := miso; _begun := false; spi_device_ := None;
     spi_host_ := SPI.SPI2_HOST |}.

Inductive Call : Type :=
| Gpio (call : Arduino.GpioCall)
| Bus (call : SPI.DriverCall).

Section Driver.

Variable spi_bus_add_device : Z * option Z.
Variable spi_device_transmit : list Z -> Z * list Z.

(** [begin()]; [theSPI] is the object [_spi] points at, as it is when
    [begin] runs. The result is the device afterwards, the calls made and
    the value returned; [None] where [pinMode] is undefined. *)
Definition begin (theSPI : SPI.SPIClass) (dev : Adafruit_SPIDevice)
  : option (Adafruit_SPIDevice * list Call * bool) :=
  if _cs dev <? 0 then Some (dev, [], false)
  else
    match Arduino.pinMode (_cs dev) Arduino.OUTPUT with
    | None => None
    | Some modeCalls =>
        let pins :=
          map Gpio modeCalls
          ++ map Gpio (Arduino.digitalWrite (_cs dev) Arduino.HIGH) in
        if negb (_spi dev) then Some (dev, pins, false)
        else if negb (SPI.isInitialized theSPI) then Some (dev, pins, false)
        else
          let host := SPI.spi_host_ theSPI in
          let addCall :=
            Bus (SPI.BusAddDevice host (_cs dev) (_freq dev) (_dataMode dev)
                   (if _dataOrder dev =? SPI_BITORDER_LSBFIRST
                    then SPI.SPI_DEVICE_BIT_LSBFIRST else 0)) in
          let '(ret, written) := spi_bus_add_device in
          let dev1 :=
            {| _spi := _spi dev; _freq := _freq dev;
               _dataOrder := _dataOrder dev; _dataMode := _dataMode dev;
               _cs := _cs dev; _sck := _sck dev; _mosi := _mosi dev;
               _miso := _miso dev; _begun := _begun dev;
               spi_device_ := SPI.stored written (spi_device_ dev);
               spi_host_ := host |} in
          if negb (ret =? ESP_OK) then Some (dev1, pins ++ [addCall], false)
          else
            Some ({| _spi := _spi dev1; _freq := _freq dev1;
                     _dataOrder := _dataOrder dev1;
                     _dataMode := _dataMode dev1;
                     _cs := _cs dev1; _sck := _sck dev1; _mosi := _mosi dev1;
                     _miso := _miso dev1; _begun := true;
                     spi_device_ := spi_device_ dev1;
                     spi_host_ := spi_host_ dev1 |},
                  pins ++ [addCall], true)
    end.

(** [transfer(uint8_t send)] *)
Definition transfer (send : Z) (dev : Adafruit_SPIDevice) : Z * list Call :=
  if negb (_begun dev) then (0, [])
  else match spi_device_ dev with
       | None => (0, [])
       | Some device =>
           let '(ret, rx) := spi_device_transmit [send] in
           let call := Bus (SPI.DeviceTransmit device [send]) in
           if negb (ret =? ESP_OK) then (0, [call])
           else (wrap8 (nth 0 rx 0), [call])
       end.

(** [size_t write(uint8_t data)]: it returns what [transfer] returns. *)
Definition write (data : Z) (dev : Adafruit_SPIDevice) : Z * list Call :=
  transfer data dev.

(** [size_t write(const uint8_t* buffer, size_t len)] *)
Definition writeBuffer (buffer : list Z) (dev : Adafruit_SPIDevice)
  : N * list Call :=
  if negb (_begun dev) then (0%N, [])
  else match spi_device_ dev with
       | None => (0%N, [])
       | Some device =>
           let call := Bus (SPI.DeviceTransmit device buffer) in
           if negb (fst (spi_device_transmit buffer) =? ESP_OK)
           then (0%N, [call])
           else (size buffer, [call])
       end.

(** [beginTransactionWithAssertingCS], [endTransactionWithDeassertingCS] *)
Definition beginTransactionWithAssertingCS (dev : Adafruit_SPIDevice)
  : list Call :=
  if 0 <=? _cs dev then map Gpio (Arduino.digitalWrite (_cs dev) Arduino.LOW)
  else [].

Definition endTransactionWithDeassertingCS (dev : Adafruit_SPIDevice)
  : list Call :=
  if 0 <=? _cs dev then map Gpio (Arduino.digitalWrite (_cs dev) Arduino.HIGH)
  else [].

End Driver.

End SPIDevice.

(** ** Adafruit_I2CDevice.cpp *)

Module I2CDevice.

Definition MAX_I2C_PORTS : Z := 2.
Definition GPIO_NUM_NC : Z := -1.
Definition I2C_NUM_0 : Z := 0.
Definition max_stack_size : Z := 64.

(** The file-scope arrays, one entry per port, and the class statics. A
    null handle is [None]. *)
Record Statics : Type := {
  s_global_i2c_bus : list (option Z);
  s_bus_initialized : list bool;
  s_bus_sda_pin : list Z;
  s_bus_scl_pin : list Z;
  s_default_sda : Z;
  s_default_scl : Z;
  s_default_freq : Z;
  s_default_port : Z
}.

(** The statics as initialized: [{GPIO_NUM_NC}] sets the first entry of a
    pin array only, the second is zero. *)
Definition statics0 : Statics :=
  {| s_global_i2c_bus := [None; None];
     s_bus_initialized := [false; false];
     s_bus_sda_pin := [GPIO_NUM_NC; 0];
     s_bus_scl_pin := [GPIO_NUM_NC; 0];
     s_default_sda := GPIO_NUM_NC;
     s_default_scl := GPIO_NUM_NC;
     s_default_freq := 100000;
     s_default_port := I2C_NUM_0 |}.

Record Adafruit_I2CDevice : Type := {
  addr_ : Z;
  bus_handle_ : option Z;
  device_handle_ : option Z;
  initialized_ : bool;
  sda_pin_ : Z;
  scl_pin_ : Z;
  i2c_freq_ : Z;
  i2c_port_ : Z
}.

Definition set_bus_handle (h : option Z) (dev : Adafruit_I2CDevice)
  : Adafruit_I2CDevice :=
  {| addr_ := addr_ dev; bus_handle_ := h;
     device_handle_ := device_handle_ dev; initialized_ := initialized_ dev;
     sda_pin_ := sda_pin_ dev; scl_pin_ := scl_pin_ dev;
     i2c_freq_ := i2c_freq_ dev; i2c_port_ := i2c_port_ dev |}.

Definition set_device_handle (h : option Z) (dev : Adafruit_I2CDevice)
  : Adafruit_I2CDevice :=
  {| addr_ := addr_ dev; bus_handle_ := bus_handle_ dev;
     device_handle_ := h; initialized_ := initialized_ dev;
     sda_pin_ := sda_pin_ dev; scl_pin_ := scl_pin_ dev;
     i2c_freq_ := i2c_freq_ dev; i2c_port_ := i2c_port_ dev |}.

Definition set_initialized (b : bool) (dev : Adafruit_I2CDevice)
  : Adafruit_I2CDevice :=
  {| addr_ := addr_ dev; bus_handle_ := bus_handle_ dev;
     device_handle_ := device_handle_ dev; initialized_ := b;
     sda_pin_ := sda_pin_ dev; scl_pin_ := scl_pin_ dev;
     i2c_freq_ := i2c_freq_ dev; i2c_port_ := i2c_port_ dev |}.

(** The driver calls, in program order. *)
Inductive Call : Type :=
| NewMasterBus (port sda scl : Z)
| BusAddDevice (bus : option Z) (address freq : Z)
| BusRmDevice (device : Z)
| Probe (bus address : Z)
| Receive (device len : Z)
| Transmit (device : Z) (payload : list Z).

(** What a driver call that returns a handle through a pointer leaves in
    the handle ([None] written: nothing stored). *)
Definition stored (written : option Z) (old : option Z) : option Z :=
  match written with
  | None => old
  | Some handle => if handle =? 0 then None else Some handle
  end.

Section Target.

(** [getDefaultSda()], [getDefaultScl()]: the pins of the target the code
    is compiled for. *)
Variable getDefaultSda : Z.
Variable getDefaultScl : Z.

(** The constructor; it reads and may set the class statics. *)
Definition create (addr : Z) (theWire : option Z) (st : Statics)
  : Adafruit_I2CDevice * Statics :=
  let dev0 :=
    {| addr_ := addr; bus_handle_ := theWire; device_handle_ := None;
       initialized_ := false; sda_pin_ := s_default_sda st;
       scl_pin_ := s_default_scl st; i2c_freq_ := s_default_freq st;
       i2c_port_ := s_default_port st |} in
  let sda := if s_default_sda st =? GPIO_NUM_NC then getDefaultSda
             else s_default_sda st in
  let scl := if s_default_scl st =? GPIO_NUM_NC then getDefaultScl
             else s_default_scl st in
  let st1 :=
    {| s_global_i2c_bus := s_global_i2c_bus st;
       s_bus_initialized := s_bus_initialized st;
       s_bus_sda_pin := s_bus_sda_pin st;
       s_bus_scl_pin := s_bus_scl_pin st;
       s_default_sda := sda; s_default_scl := scl;
       s_default_freq := s_default_freq st;
       s_default_port := s_default_port st |} in
  ({| addr_ := addr_ dev0; bus_handle_ := bus_handle_ dev0;
      device_handle_ := device_handle_ dev0;
      initialized_ := initialized_ dev0;
      sda_pin_ := if sda_pin_ dev0 =? GPIO_NUM_NC then sda else sda_pin_ dev0;
      scl_pin_ := if scl_pin_ dev0 =? GPIO_NUM_NC then scl else scl_pin_ dev0;
      i2c_freq_ := i2c_freq_ dev0; i2c_port_ := i2c_port_ dev0 |}, st1).

End Target.

(** [initBus()]; [newBus] is what [i2c_new_master_bus] answers when called:
    its code and what it stores through the handle pointer. [None] where
    the code indexes the port arrays out of their bounds. *)
Definition initBus (newBus : Z * option Z) (st : Statics)
  (dev : Adafruit_I2CDevice)
  : option (Adafruit_I2CDevice * Statics * list Call * bool) :=
  match bus_handle_ dev with
  | Some _ => Some (dev, st, [], true)
  | None =>
      if MAX_I2C_PORTS <=? i2c_port_ dev then Some (dev, st, [], false)
      else if (sda_pin_ dev =? GPIO_NUM_NC) || (scl_pin_ dev =? GPIO_NUM_NC)
      then Some (dev, st, [], false)
      else if i2c_port_ dev <? 0 then None
      else
        let port := Z.to_nat (i2c_port_ dev) in
        match nth_error (s_bus_initialized st) port,
              nth_error (s_global_i2c_bus st) port with
        | Some true, Some (Some bus) =>
            Some (set_bus_handle (Some bus) dev, st, [], true)
        | Some _, Some _ =>
            let '(ret, written) := newBus in
            let dev1 := set_bus_handle (stored written (bus_handle_ dev)) dev in
            let call :=
              NewMasterBus (i2c_port_ dev) (sda_pin_ dev) (scl_pin_ dev) in
            if negb (ret =? ESP_OK) then Some (dev1, st, [call], false)
            else
              Some (dev1,
                    {| s_global_i2c_bus :=
                         store_at port (bus_handle_ dev1)
                           (s_global_i2c_bus st);
                       s_bus_initialized :=
                         store_at port true (s_bus_initialized st);
                       s_bus_sda_pin :=
                         store_at port (sda_pin_ dev) (s_bus_sda_pin st);
                       s_bus_scl_pin :=
                         store_at port (scl_pin_ dev) (s_bus_scl_pin st);
                       s_default_sda := s_default_sda st;
                       s_default_scl := s_default_scl st;
                       s_default_freq := s_default_freq st;
                       s_default_port := s_default_port st |},
                    [call], true)
        | _, _ => None
        end
  end.

(** [detected()]; [probe] is what [i2c_master_probe] answers when called. *)
Definition detected (probe : Z) (dev : Adafruit_I2CDevice)
  : bool * list Call :=
  if negb (initialized_ dev) then (false, [])
  else match bus_handle_ dev with
       | None => (false, [])
       | Some bus => (probe =? ESP_OK, [Probe bus (addr_ dev)])
       end.

(** [begin(addr_detect)]; [addDevice] is what [i2c_master_bus_add_device]
    answers when called. *)
Definition begin (newBus addDevice : Z * option Z) (probe : Z)
  (addr_detect : bool) (st : Statics) (dev : Adafruit_I2CDevice)
  : option (Adafruit_I2CDevice * Statics * list Call * bool) :=
  if initialized_ dev then Some (dev, st, [], true)
  else
    match initBus newBus st dev with
    | None => None
    | Some (dev1, st1, calls1, false) => Some (dev1, st1, calls1, false)
    | Some (dev1, st1, calls1, true) =>
        let '(ret, written) := addDevice in
        let call :=
          BusAddDevice (bus_handle_ dev1) (addr_ dev1) (i2c_freq_ dev1) in
        let dev2 :=
          set_device_handle (stored written (device_handle_ dev1)) dev1 in
        if negb (ret =? ESP_OK)
        then Some (dev2, st1, calls1 ++ [call], false)
        else
          let dev3 := set_initialized true dev2 in
          let skip_detection :=
            (addr_ dev3 =? 0x3C) || (addr_ dev3 =? 0x3D) in
          let calls3 :=
            if addr_detect && negb skip_detection
            then snd (detected probe dev3) else [] in
          Some (dev3, st1, calls1 ++ [call] ++ calls3, true)
    end.

(** [end()] *)
Definition end_ (dev : Adafruit_I2CDevice)
  : Adafruit_I2CDevice * list Call :=
  match device_handle_ dev with
  | Some device => (set_device_handle None dev, [BusRmDevice device])
  | None => (dev, [])
  end.

(** [read(buffer, len, stop)]; [buffer] is the memory at the pointer
    ([None]: a null pointer), [receive] what [i2c_master_receive] answers
    when called: its code and the bytes it stores. The result is the
    value returned, the memory afterwards and the calls. *)
Definition read (receive : Z * list Z) (buffer : option (list Z)) (len : Z)
  (dev : Adafruit_I2CDevice) : bool * option (list Z) * list Call :=
  if negb (initialized_ dev) then (false, buffer, [])
  else match device_handle_ dev, buffer with
       | Some device, Some mem =>
           if len =? 0 then (false, buffer, [])
           else
             let '(ret, bytes) := receive in
             (ret =? ESP_OK,
              Some (bytes ++ skipn (List.length bytes) mem),
              [Receive device len])
       | _, _ => (false, buffer, [])
       end.

(** [write(buffer, len, stop, prefix_buffer, prefix_len)]; [buffer] and
    [prefix_buffer] are the memory at the pointers ([None]: null), the
    lengths are [size_t]; [stop] is not read. [malloc] tells whether an
    allocation of that size succeeds, [transmit] is what
    [i2c_master_transmit] answers for a payload. [None] where the code
    reads or writes past an array. *)
Definition write (malloc : Z -> bool) (transmit : list Z -> Z)
  (buffer : option (list Z)) (len : Z)
  (prefix_buffer : option (list Z)) (prefix_len : Z)
  (dev : Adafruit_I2CDevice) : option (bool * list Call) :=
  if negb (initialized_ dev) then Some (false, [])
  else
    match device_handle_ dev, buffer with
    | Some device, Some mem =>
        if len =? 0 then Some (false, [])
        else
          let send (payload : list Z) :=
            Some (transmit payload =? ESP_OK, [Transmit device payload]) in
          let data := firstn (Z.to_nat len) mem in
          let plain :=
            if Z.of_nat (List.length mem) <? len then None else send data in
          match prefix_buffer with
          | None => plain
          | Some pmem =>
              if 0 <? prefix_len then
                let total_len := wrap32 (prefix_len + len) in
                let combined := firstn (Z.to_nat prefix_len) pmem ++ data in
                let readable :=
                  (prefix_len <=? Z.of_nat (List.length pmem))
                  && (len <=? Z.of_nat (List.length mem)) in
                if total_len <=? max_stack_size then
                  if readable && (prefix_len + len <=? max_stack_size)
                  then send combined else None
                else if negb (malloc total_len) then Some (false, [])
                else if readable && (prefix_len + len <=? total_len)
                     then send combined else None
              else plain
          end
    | _, _ => Some (false, [])
    end.

(** [setSpeed(desiredclk)] *)
Definition setSpeed (desiredclk : Z) (dev : Adafruit_I2CDevice)
  : Adafruit_I2CDevice * bool :=
  ({| addr_ := addr_ dev; bus_handle_ := bus_handle_ dev;
      device_handle_ := device_handle_ dev;
      initialized_ := initialized_ dev;
      sda_pin_ := sda_pin_ dev; scl_pin_ := scl_pin_ dev;
      i2c_freq_ := desiredclk; i2c_port_ := i2c_port_ dev |}, true).

End I2CDevice.

(** ** Adafruit_SH1106.cpp *)

Module SH1106.

(** [class Adafruit_SH1106]. [WIDTH], [HEIGHT] and [rotation] are the
    fields of the [Adafruit_GFX] base the code reads. *)
Record Adafruit_SH1106 : Type := {
  WIDTH : Z;
  HEIGHT : Z;
  rotation : Z;
  i2c_dev : option I2CDevice.Adafruit_I2CDevice;
  buffer : option (list Z);
  rstpin : Z;
  i2caddr : Z
}.

Definition set_buffer (b : option (list Z)) (d : Adafruit_SH1106)
  : Adafruit_SH1106 :=
  {| WIDTH := WIDTH d; HEIGHT := HEIGHT d; rotation := rotation d;
     i2c_dev := i2c_dev d; buffer := b; rstpin := rstpin d;
     i2caddr := i2caddr d |}.

Definition set_i2c_dev (dev : option I2CDevice.Adafruit_I2CDevice)
  (d : Adafruit_SH1106) : Adafruit_SH1106 :=
  {| WIDTH := WIDTH d; HEIGHT := HEIGHT d; rotation := rotation d;
     i2c_dev := dev; buffer := buffer d; rstpin := rstpin d;
     i2caddr := i2caddr d |}.

Definition set_i2caddr (a : Z) (d : Adafruit_SH1106) : Adafruit_SH1106 :=
  {| WIDTH := WIDTH d; HEIGHT := HEIGHT d; rotation := rotation d;
     i2c_dev := i2c_dev d; buffer := buffer d; rstpin := rstpin d;
     i2caddr := a |}.

(** [sh1106_init_sequence] *)
Definition sh1106_init_sequence : list Z :=
  [0xAE; 0xD5; 0x80; 0xA8; 0x3F; 0xD3; 0x00; Z.lor 0x40 0x0; 0x8D; 0x14;
   0x20; 0x00; Z.lor 0xA0 0x1; 0xC8; 0xDA; 0x12; 0x81; 0xCF; 0xD9; 0xF1;
   0xDB; 0x40; 0xA4; 0xA6; 0xAF].

(** What [begin] does outside the object: I2C driver calls, GPIO calls
    and delays, in program order. *)
Inductive Call : Type :=
| I2C (call : I2CDevice.Call)
| Gpio (call : Arduino.GpioCall)
| Delay (ms : Z).

(** The [switch (rotation)] at the head of [drawPixel] and [getPixel]; the
    results are stored in [int16_t]. *)
Definition rotated (d : Adafruit_SH1106) (x y : Z) : Z * Z :=
  if rotation d =? 1 then (y, to_int16 (HEIGHT d - 1 - x))
  else if rotation d =? 2
  then (to_int16 (WIDTH d - 1 - x), to_int16 (HEIGHT d - 1 - y))
  else if rotation d =? 3 then (to_int16 (WIDTH d - 1 - y), x)
  else (x, y).

(** The bounds check on the physical coordinates. *)
Definition outside (d : Adafruit_SH1106) (x y : Z) : bool :=
  (x <? 0) || (WIDTH d <=? x) || (y <? 0) || (HEIGHT d <=? y).

(** [page], [bit] and [index] as the code computes them. *)
Definition pageOf (y : Z) : Z := wrap8 (Z.quot y 8).
Definition bitOf (y : Z) : Z := wrap8 (Z.rem y 8).
Definition indexOf (d : Adafruit_SH1106) (x y : Z) : Z :=
  wrap 16 (pageOf y * WIDTH d + x).

(** [drawPixel(x, y, color)]; [None] where the code writes outside the
    buffer. *)
Definition drawPixel (x y color : Z) (d : Adafruit_SH1106)
  : option Adafruit_SH1106 :=
  match buffer d with
  | None => Some d
  | Some buf =>
      let '(x, y) := rotated d x y in
      if outside d x y then Some d
      else
        let bit := bitOf y in
        let index := Z.to_nat (indexOf d x y) in
        match nth_error buf index with
        | None => None
        | Some b =>
            let b' :=
              if negb (color =? 0) then wrap8 (Z.lor b (Z.shiftl 1 bit))
              else wrap8 (Z.land b (Z.lnot (Z.shiftl 1 bit))) in
            Some (set_buffer (Some (store_at index b' buf)) d)
        end
  end.

(** [getPixel(x, y)]; [None] where the code reads outside the buffer. *)
Definition getPixel (x y : Z) (d : Adafruit_SH1106) : option bool :=
  match buffer d with
  | None => Some false
  | Some buf =>
      let '(x, y) := rotated d x y in
      if outside d x y then Some false
      else
        let bit := bitOf y in
        let index := Z.to_nat (indexOf d x y) in
        match nth_error buf index with
        | None => None
        | Some b => Some (negb (Z.land (Z.shiftr b bit) 1 =? 0))
        end
  end.

(** The size [begin] allocates and [clearDisplay] clears, as a [size_t]. *)
Definition bufferBytes (d : Adafruit_SH1106) : Z :=
  wrap32 (Z.quot (WIDTH d * HEIGHT d) 8).

(** [clearDisplay()]; [None] where [memset] runs past the buffer. *)
Definition clearDisplay (d : Adafruit_SH1106) : option Adafruit_SH1106 :=
  match buffer d with
  | None => Some d
  | Some buf =>
      let n := Z.to_nat (bufferBytes d) in
      if (List.length buf <? n)%nat then None
      else Some (set_buffer (Some (repeat 0 n ++ skipn n buf)) d)
  end.

Section Driver.

(** What the environment answers to the [t]-th I2C write of a call:
    whether an allocation of a size succeeds, and the code of
    [i2c_master_transmit] for a payload. *)
Variable malloc : nat -> Z -> bool.
Variable i2c_master_transmit : nat -> list Z -> Z.

(** [sh1106_command(c)], as the [t]-th write. *)
Definition sh1106_command (t : nat) (c : Z) (d : Adafruit_SH1106)
  : option (list I2CDevice.Call) :=
  match i2c_dev d with
  | None => Some []
  | Some dev =>
      let cmd := [0x00; wrap8 c] in
      option_map snd
        (I2CDevice.write (malloc t) (i2c_master_transmit t)
           (Some cmd) 2 None 0 dev)
  end.

(** One turn of the loop of [display()], its writes numbered from [t]. *)
Definition displayPage (t : nat) (page : Z) (d : Adafruit_SH1106)
  (buf : list Z) (dev : I2CDevice.Adafruit_I2CDevice)
  : option (list I2CDevice.Call) :=
  match sh1106_command t (0xB0 + page) d,
        sh1106_command (t + 1) (Z.lor 0x00 0x00) d,
        sh1106_command (t + 2) (Z.lor 0x10 0x00) d with
  | Some c1, Some c2, Some c3 =>
      let offset := page * WIDTH d in
      if (offset <? 0) || (Z.of_nat (List.length buf) <? offset) then None
      else
        let page_buffer := skipn (Z.to_nat offset) buf in
        let data_prefix := [0x40] in
        match I2CDevice.write (malloc (t + 3)) (i2c_master_transmit (t + 3))
                (Some page_buffer) (wrap32 (WIDTH d)) (Some data_prefix) 1
                dev with
        | None => None
        | Some (_, c4) => Some (c1 ++ c2 ++ c3 ++ c4)
        end
  | _, _, _ => None
  end.

(** The loop of [display()] from page [page], [count] turns. *)
Fixpoint displayPages (count : nat) (page : Z) (d : Adafruit_SH1106)
  (buf : list Z) (dev : I2CDevice.Adafruit_I2CDevice)
  : option (list I2CDevice.Call) :=
  match count with
  | O => Some []
  | S count' =>
      match displayPage (4 * Z.to_nat page) page d buf dev with
      | None => None
      | Some calls =>
          option_map (app calls) (displayPages count' (page + 1) d buf dev)
      end
  end.

(** [display()] *)
Definition display (d : Adafruit_SH1106) : option (list I2CDevice.Call) :=
  match buffer d, i2c_dev d with
  | Some buf, Some dev => displayPages 8 0 d buf dev
  | _, _ => Some []
  end.

End Driver.

Section Begin.

(** The pins of the target, and what the environment answers to the
    [t]-th I2C write of a call. *)
Variable getDefaultSda : Z.
Variable getDefaultScl : Z.
Variable malloc : nat -> Z -> bool.
Variable i2c_master_transmit : nat -> list Z -> Z.

(** The loop of [sh1106_commandList], its writes numbered from [t];
    [None] where it reads past the command array. *)
Fixpoint commandLoop (t : nat) (c : list Z) (count i : nat)
  (d : Adafruit_SH1106) : option (list Call) :=
  match count with
  | O => Some []
  | S count' =>
      match nth_error c i with
      | None => None
      | Some ci =>
          match sh1106_command malloc i2c_master_transmit t ci d with
          | None => None
          | Some calls =>
              option_map (app (map I2C calls ++ [Delay 1]))
                (commandLoop (S t) c count' (S i) d)
          end
      end
  end.

(** [sh1106_commandList(c, n)]; [c] is the array at the pointer, [n] a
    [uint8_t]. *)
Definition sh1106_commandList (t : nat) (c : option (list Z)) (n : Z)
  (d : Adafruit_SH1106) : option (list Call * bool) :=
  match i2c_dev d, c with
  | Some _, Some bytes =>
      option_map (fun calls => (calls, true))
        (commandLoop t bytes (Z.to_nat (wrap8 n)) 0 d)
  | _, _ => Some ([], false)
  end.

(** [initDisplay()], its writes numbered from [t]. *)
Definition initDisplay (t : nat) (d : Adafruit_SH1106)
  : option (Adafruit_SH1106 * list Call * bool) :=
  let n := Z.of_nat (List.length sh1106_init_sequence) in
  match sh1106_commandList t (Some sh1106_init_sequence) n d with
  | None => None
  | Some (calls, false) => Some (d, calls, false)
  | Some (calls, true) =>
      match clearDisplay d with
      | None => None
      | Some d1 =>
          let first := (t + Z.to_nat (wrap8 n))%nat in
          match display (fun k => malloc (first + k))
                  (fun k => i2c_master_transmit (first + k)) d1 with
          | None => None
          | Some calls2 => Some (d1, calls ++ map I2C calls2, true)
          end
      end
  end.

(** [begin(i2caddr, reset)]. [mallocBuffer] tells whether the allocation
    of the buffer succeeds when it is made; [newBus], [addDevice] and
    [probe] are the driver's answers to [Adafruit_I2CDevice::begin]. The
    result is the object, the I2C statics, the calls and the value
    returned. *)
Definition begin (mallocBuffer : bool) (newBus addDevice : Z * option Z)
  (probe : Z) (i2caddr' : Z) (reset : bool) (st : I2CDevice.Statics)
  (d : Adafruit_SH1106)
  : option (Adafruit_SH1106 * I2CDevice.Statics * list Call * bool) :=
  let address_changed :=
    match i2c_dev d with
    | Some _ => negb (i2caddr d =? i2caddr')
    | None => false
    end in
  let d1 := set_i2caddr i2caddr' d in
  match (match buffer d1 with
         | Some _ => Some d1
         | None =>
             if mallocBuffer
             then Some (set_buffer
                          (Some (repeat 0 (Z.to_nat (bufferBytes d1)))) d1)
             else None
         end) with
  | None => Some (d1, st, [], false)
  | Some d2 =>
      let '(dev, st1, calls1) :=
        match i2c_dev d2 with
        | Some dev0 =>
            if address_changed then
              let '(devN, stN) :=
                I2CDevice.create getDefaultSda getDefaultScl i2caddr' None
                  st in
              (devN, stN, map I2C (snd (I2CDevice.end_ dev0)))
            else (dev0, st, [])
        | None =>
            let '(devN, stN) :=
              I2CDevice.create getDefaultSda getDefaultScl i2caddr' None st in
            (devN, stN, [])
        end in
      match I2CDevice.begin newBus addDevice probe true st1 dev with
      | None => None
      | Some (dev', st2, calls2, ok) =>
          let d3 := set_i2c_dev (Some dev') d2 in
          let calls12 := calls1 ++ map I2C calls2 in
          if negb ok then Some (d3, st2, calls12, false)
          else
            match (if reset && (0 <=? rstpin d3) then
                     match Arduino.pinMode (rstpin d3) Arduino.OUTPUT with
                     | None => None
                     | Some modeCalls =>
                         Some (map Gpio modeCalls
                               ++ map Gpio (Arduino.digitalWrite (rstpin d3)
                                              Arduino.HIGH)
                               ++ [Delay 10]
                               ++ map Gpio (Arduino.digitalWrite (rstpin d3)
                                              Arduino.LOW)
                               ++ [Delay 10]
                               ++ map Gpio (Arduino.digitalWrite (rstpin d3)
                                              Arduino.HIGH)
                               ++ [Delay 10])
                     end
                   else Some []) with
            | None => None
            | Some calls3 =>
                match initDisplay 0 d3 with
                | None => None
                | Some (d4, calls4, ok4) =>
                    Some (d4, st2, calls12 ++ calls3 ++ calls4, ok4)
                end
            end
      end
  end.

End Begin.

End SH1106.

(** ** Print.h *)

Module Print.

(** Characters are bytes: ['-'], ['0'], ['1'], the carriage return and the
    line feed. *)
Definition minus : Z := 45.
Definition zero : Z := 48.
Definition one : Z := 49.
Definition CR : Z := 13.
Definition LF : Z := 10.

(** [sizeof(buf)] of [char buf[33]]. *)
Definition sizeof_buf : nat := 33.

(** [*p = c] and [*p] on an array; [None] outside it. *)
Definition store (p : Z) (c : Z) (buf : list Z) : option (list Z) :=
  if (p <? 0) || (Z.of_nat (List.length buf) <=? p) then None
  else Some (store_at (Z.to_nat p) c buf).

Definition load (p : Z) (buf : list Z) : option Z :=
  if p <? 0 then None else nth_error buf (Z.to_nat p).

(** [while (uval) { *p++ = (uval & 1) ? '1' : '0'; uval >>= 1; }]: the
    position after the last digit and the array. *)
Equations? digitsLoop (uval : N) (p : Z) (buf : list Z)
  : option (Z * list Z) by wf (N.to_nat uval) lt :=
digitsLoop uval p buf with Slideshow.inspect (uval =? 0)%N := {
  | exist _ true _ => Some (p, buf);
  | exist _ false Hmore with
      store p (if (N.land uval 1 =? 0)%N then zero else one) buf := {
    | None => None;
    | Some buf' => digitsLoop (N.shiftr uval 1) (p + 1) buf' } }.
Proof.
  apply N.eqb_neq in Hmore.
  rewrite N.div2_div.
  assert (uval / 2 < uval)%N by (apply N.div_lt; lia).
  lia.
Qed.

(** [while (start < end) { swap *start, *end; start++; end--; }] *)
Equations? reverseLoop (start end_ : Z) (buf : list Z)
  : option (list Z) by wf (Z.to_nat (end_ - start)) lt :=
reverseLoop start end_ buf with Slideshow.inspect (start <? end_) := {
  | exist _ false _ => Some buf;
  | exist _ true Hlt with load start buf, load end_ buf := {
    | Some tmp, Some last with store start last buf := {
      | Some buf1 with store end_ tmp buf1 := {
        | Some buf2 => reverseLoop (start + 1) (end_ - 1) buf2;
        | None => None };
      | None => None };
    | _, _ => None } }.
Proof.
  apply Z.ltb_lt in Hlt. lia.
Qed.

(** The block both binary conversions share, from [if (uval == 0)] to the
    closing brace: the position [p] afterwards and the array. *)
Definition binaryDigits (uval : N) (p : Z) (buf : list Z)
  : option (Z * list Z) :=
  if (uval =? 0)%N then
    match store p zero buf with
    | Some buf1 => Some (p + 1, buf1)
    | None => None
    end
  else
    let start := p in
    match digitsLoop uval p buf with
    | None => None
    | Some (p1, buf1) =>
        match store p1 0 buf1 with
        | None => None
        | Some buf2 =>
            let end_ := p1 - 1 in
            match reverseLoop start end_ buf2 with
            | None => None
            | Some buf3 => Some (p1, buf3)
            end
        end
    end.

(** The [base == 2] branch of [print(int val, int base)] with the closing
    [*p = '\0']: the array afterwards. [None] where [-val] overflows or
    the array is overrun. *)
Definition binaryInt (val : Z) (buf : list Z) : option (list Z) :=
  if (val <? 0) && (2 ^ 31 <=? - val) then None
  else
    let uval := Z.to_N (wrap32 (if val <? 0 then - val else val)) in
    match (if val <? 0
           then match store 0 minus buf with
                | Some buf0 => Some (1, buf0)
                | None => None
                end
           else Some (0, buf)) with
    | None => None
    | Some (p, buf0) =>
        match binaryDigits uval p buf0 with
        | None => None
        | Some (p', buf') => store p' 0 buf'
        end
    end.

(** The [base == 2] branch of [print(unsigned long val, int base)]; an
    [unsigned long] has 32 bits on the targets. *)
Definition binaryUnsigned (val : N) (buf : list Z) : option (list Z) :=
  match binaryDigits val 0 buf with
  | None => None
  | Some (p', buf') => store p' 0 buf'
  end.

(** The characters of the string at the start of an array, up to the
    terminating zero; [None] when there is none in the array. *)
Fixpoint c_str (mem : list Z) : option (list Z) :=
  match mem with
  | [] => None
  | c :: rest =>
      if c =? 0 then Some [] else option_map (cons c) (c_str rest)
  end.

Section Sink.

(** The sink: [write(uint8_t)] of the derived class, on its state. *)
Variable S : Type.
Variable write : Z -> S -> S * Z.

(** What [snprintf] leaves in the array for a format and a value. *)
Variable snprintf : string -> Z -> list Z -> list Z.

(** [write(const uint8_t* buffer, size_t size)]: the loop from a count. *)
Fixpoint writeLoop (buffer : list Z) (count : Z) (s : S) : S * Z :=
  match buffer with
  | [] => (s, count)
  | c :: rest =>
      let '(s1, n) := write c s in
      writeLoop rest (wrap32 (count + n)) s1
  end.

(** [print(const char* str)]; [None] when the string is not terminated. *)
Definition print (str : option (list Z)) (s : S) : option (S * Z) :=
  match str with
  | None => Some (s, 0)
  | Some mem =>
      match c_str mem with
      | None => None
      | Some chars => Some (writeLoop chars 0 s)
      end
  end.

(** [print(int val, int base)]; [buf] is what the array holds on entry. *)
Definition printInt (val base : Z) (buf : list Z) (s : S) : option (S * Z) :=
  if base =? 16 then print (Some (snprintf "%x" val buf)) s
  else if base =? 8 then print (Some (snprintf "%o" val buf)) s
  else if base =? 2 then
    match binaryInt val buf with
    | None => None
    | Some buf' => print (Some buf') s
    end
  else print (Some (snprintf "%d" val buf)) s.

(** [print(unsigned long val, int base)] *)
Definition printUnsigned (val : N) (base : Z) (buf : list Z) (s : S)
  : option (S * Z) :=
  if base =? 16 then print (Some (snprintf "%lx" (Z.of_N val) buf)) s
  else if base =? 8 then print (Some (snprintf "%lo" (Z.of_N val) buf)) s
  else if base =? 2 then
    match binaryUnsigned val buf with
    | None => None
    | Some buf' => print (Some buf') s
    end
  else print (Some (snprintf "%lu" (Z.of_N val) buf)) s.

(** [println()] *)
Definition println (s : S) : S * Z :=
  let '(s1, n) := write CR s in
  let '(s2, m) := write LF s1 in
  (s2, wrap32 (n + m)).

End Sink.

End Print.

(** ** Notions used in the statements *)

(** The depths the guard at lines 77-78 lets through. *)
Definition depthSupported (bpp : Z) : bool :=
  (bpp =? 1) || (bpp =? 4) || (bpp =? 8) || (bpp =? 24).

(** Two files of one length that agree on every byte outside [lo, hi). *)
Definition sameOutside (lo hi : nat) (b1 b2 : list byte) : Prop :=
  List.length b1 = List.length b2 /\
  forall i, (i < lo \/ hi <= i)%nat -> nth_error b1 i = nth_error b2 i.

(** What the scan keeps: a name that does not start with a dot and carries
    one of the extensions. The entry's type plays no part. *)
Definition wanted (entry : SDCard.dirent) : bool :=
  negb (SDCard.starts_with_dot (SDCard.d_name entry))
  && SDCard.isImage (SDCard.d_name entry) IMAGE_EXTENSIONS.

(** Between two controller values: the list and the state variant are as
    before, and an index that was in range still is. *)
Definition keeps (c c' : Slideshow.Controller) : Prop :=
  Slideshow.s_imageFiles c' = Slideshow.s_imageFiles c /\
  Slideshow.s_state c' = Slideshow.s_state c /\
  ((Slideshow.s_currentImageIndex c < Slideshow.imageCount c)%N ->
   (Slideshow.s_currentImageIndex c' < Slideshow.imageCount c')%N).

(** [pdMS_TO_TICKS] at a tick rate of [hz] ticks per second. *)
Definition ticksAt (hz : Z) (ms : Z) : Z := wrap32 (ms * hz / 1000).

(** The scan's count is the [size()] of the vector it filled. *)
Definition imageCount_of_scan (card : SDCard.Card) (directory : string) : Prop :=
  size (fst (SDCard.scanForImages card directory))
  = snd (SDCard.scanForImages card directory).

(** A display call that draws one pixel. *)
Definition isDrawPixel (c : DisplayCall) : Prop :=
  exists x y k, c = DrawPixel x y k.

(** A panel whose buffer is the one [begin] allocates, of a geometry the
    index arithmetic of [drawPixel] can address: the height a multiple of 8
    of at most 256 pages, and at most 65536 bytes. *)
Definition panelReady (d : SH1106.Adafruit_SH1106) (buf : list Z) : Prop :=
  0 < SH1106.WIDTH d <= 32767 /\
  0 < SH1106.HEIGHT d <= 2048 /\
  SH1106.HEIGHT d mod 8 = 0 /\
  SH1106.WIDTH d * SH1106.HEIGHT d <= 8 * 65536 /\
  SH1106.buffer d = Some buf /\
  Z.of_nat (List.length buf) = SH1106.WIDTH d * SH1106.HEIGHT d / 8 /\
  Forall (fun b => 0 <= b < 256) buf.

(** The range of an [int16_t]. *)
Definition int16 (x : Z) : Prop := -32768 <= x <= 32767.

(** The bytes of the data transmissions (those whose first byte is the
    data-mode prefix 0x40) among some I2C calls, in order. *)
Definition dataBytes (calls : list I2CDevice.Call) : list Z :=
  flat_map (fun call =>
              match call with
              | I2CDevice.Transmit _ (first :: bytes) =>
                  if first =? 0x40 then bytes else []
              | _ => []
              end) calls.

(** What [display()] sends for one page: the page address, the two column
    address commands, and the page's bytes after the data-mode prefix. *)
Definition pageCalls (device width : Z) (buf : list Z) (page : Z)
  : list I2CDevice.Call :=
  [I2CDevice.Transmit device [0x00; 0xB0 + page];
   I2CDevice.Transmit device [0x00; 0x00];
   I2CDevice.Transmit device [0x00; 0x10];
   I2CDevice.Transmit device
     (0x40 :: firstn (Z.to_nat width) (skipn (Z.to_nat (page * width)) buf))].

(** The number a string of binary digits denotes, most significant digit
    first. *)
Definition binaryValue (digits : list Z) : Z :=
  fold_left (fun acc c => 2 * acc + (c - Print.zero)) digits 0.

(** The binary digits of a positive number, least significant first. *)
Fixpoint lsbDigits (q : positive) : list Z :=
  match q with
  | xH => [Print.one]
  | xO q' => Print.zero :: lsbDigits q'
  | xI q' => Print.one :: lsbDigits q'
  end.

(** A sink that records the bytes written and accepts each. *)
Definition recorder (c : Z) (s : list Z) : list Z * Z := (s ++ [c], 1).

(** * Properties *)

(** ** The model on small inputs *)

Example quantizer_samples :
  ImageLoader.rgbToEinkColor 255 255 255 = EPD_WHITE /\
  ImageLoader.rgbToEinkColor 0 0 0 = EPD_BLACK /\
  ImageLoader.rgbToEinkColor 255 100 100 = EPD_RED /\
  ImageLoader.rgbToEinkColor 255 0 0 = EPD_BLACK.
Proof. repeat split; reflexivity. Qed.

Example header_round_trip :
  ImageLoader.headerOf
    (Fixtures.headerBytes (Fixtures.bmpHeader 10 (-10) 24 0))
  = Fixtures.bmpHeader 10 (-10) 24 0.
Proof. vm_compute. reflexivity. Qed.

(** A 128x2 bottom-up 1-bit file whose first stored row is all ones: the
    upper line drawn is white, the lower one black. *)
Example one_bit_bottom_up :
  exists calls,
    ImageLoader.loadAndDisplayBMP (H := Binary32.binary32)
      (Fixtures.cardWith Fixtures.photo
         (Fixtures.bmpFile 128 2 1 0 (repeat 255 16 ++ repeat 0 16)))
      Fixtures.photo
    = ImageLoader.Displayed calls /\
    Fixtures.drawnColors calls
    = repeat EPD_WHITE 128 ++ repeat EPD_BLACK 128.
Proof.
  eexists. split; [vm_compute; reflexivity|]. vm_compute. reflexivity.
Qed.

Example short_file_rejected :
  ImageLoader.loadAndDisplayBMP (H := Binary32.binary32)
    (Fixtures.cardWith Fixtures.photo (firstn 53 Fixtures.nibble))
    Fixtures.photo
  = ImageLoader.Failed ImageLoader.InvalidFileSize.
Proof. vm_compute. reflexivity. Qed.

(** ** Machine integers *)

Lemma wrap_range bits z : 0 < bits -> 0 <= wrap bits z < 2 ^ bits.
Proof.
  intros Hb. unfold wrap. apply Z.mod_pos_bound. apply Z.pow_pos_nonneg; lia.
Qed.

Lemma wrap32_range z : 0 <= wrap32 z < 2 ^ 32.
Proof. apply wrap_range. lia. Qed.

Lemma wrap32_small z : 0 <= z < 2 ^ 32 -> wrap32 z = z.
Proof. intros H. unfold wrap32, wrap. apply Z.mod_small. exact H. Qed.

Lemma to_int32_range z : - 2 ^ 31 <= to_int32 z < 2 ^ 31.
Proof.
  unfold to_int32, to_signed.
  pose proof (wrap_range 32 z ltac:(lia)) as H.
  change (2 ^ (32 - 1)) with (2 ^ 31).
  destruct (wrap 32 z <? 2 ^ 31) eqn:E.
  - apply Z.ltb_lt in E. lia.
  - apply Z.ltb_ge in E. lia.
Qed.

Lemma absDim_range d : - 2 ^ 31 <= d < 2 ^ 31 ->
  0 <= ImageLoader.absDim d <= 2 ^ 31.
Proof.
  intros H. unfold ImageLoader.absDim. rewrite wrap32_small; lia.
Qed.

Lemma size_lt_2_32 {A : Type} (l : list A) : (size l < 2 ^ 32)%N.
Proof. unfold size, size_wrap. apply N.mod_upper_bound. discriminate. Qed.

(** ** Image loader *)

Section LoaderFacts.

Import ImageLoader.

Lemma for_loop_In n : forall i body calls d,
  for_loop n i body = Some calls -> In d calls ->
  exists j l, i <= j < i + Z.of_nat n /\ body j = Some l /\ In d l.
Proof.
  induction n as [|n IH]; intros i body calls d Hrun Hin.
  - cbn in Hrun. inversion Hrun; subst. destruct Hin.
  - cbn [for_loop] in Hrun.
    destruct (body i) as [l|] eqn:Hb; [|discriminate].
    destruct (for_loop n (i + 1) body) as [more|] eqn:Hm; [|discriminate].
    inversion Hrun; subst. apply in_app_or in Hin. destruct Hin as [Hin|Hin].
    + exists i, l. repeat split; try lia; assumption.
    + destruct (IH _ _ _ _ Hm Hin) as (j & l' & Hj & Hbj & Hl).
      exists j, l'. repeat split; try lia; assumption.
Qed.

(** Every pixel drawn by the nested loops has the colour [pixel] gave for
    some source position. *)
Lemma drawRows_In `{FloatArith} hdr pixel scale sw sh ox oy calls d :
  drawRows hdr pixel scale sw sh ox oy = Some calls -> In d calls ->
  exists x y srcY srcX color,
    pixel srcY srcX = Some color /\ d = DrawPixel x y color.
Proof.
  intros Hrun Hin. unfold drawRows in Hrun.
  destruct (for_loop_In _ _ _ _ _ Hrun Hin) as (y & row & _ & Hrow & Hd).
  destruct (srcRow hdr scale y) as [srcY|]; [|discriminate].
  destruct (for_loop_In _ _ _ _ _ Hrow Hd) as (x & one & _ & Hone & Hd1).
  destruct (unscale scale x) as [srcX|]; [|discriminate].
  destruct (pixel srcY srcX) as [color|] eqn:Hp; [|discriminate].
  inversion Hone; subst. destruct Hd1 as [<-|[]].
  eauto 10.
Qed.

(** A loop whose passes each issue [m] calls: the calls of pass [a] sit at
    the indices [a * m], ..., [a * m + m - 1]. *)
Lemma for_loop_uniform (m n : nat) : forall i body calls,
  for_loop n i body = Some calls ->
  (forall j l, i <= j < i + Z.of_nat n -> body j = Some l ->
               List.length l = m) ->
  List.length calls = (n * m)%nat /\
  forall a b, (a < n)%nat -> (b < m)%nat ->
    exists l, body (i + Z.of_nat a) = Some l /\
              nth_error calls (a * m + b) = nth_error l b.
Proof.
  induction n as [|n IH]; intros i body calls Hrun Hlen.
  - cbn in Hrun. inversion Hrun; subst. split; [reflexivity|].
    intros a b Ha. lia.
  - cbn [for_loop] in Hrun.
    destruct (body i) as [l|] eqn:Hb; [|discriminate].
    destruct (for_loop n (i + 1) body) as [more|] eqn:Hm; [|discriminate].
    inversion Hrun; subst calls. clear Hrun.
    assert (Hl : List.length l = m) by (apply (Hlen i); [lia|exact Hb]).
    destruct (IH (i + 1) body more Hm) as (Hmore & Hnth).
    { intros j l' Hj. apply Hlen. lia. }
    split; [rewrite length_app, Hl, Hmore; lia|].
    intros [|a] b Ha Hbm.
    + exists l. rewrite Z.add_0_r. split; [exact Hb|].
      cbn [Nat.mul Nat.add]. apply nth_error_app1. lia.
    + destruct (Hnth a b ltac:(lia) Hbm) as (l' & Hl' & Hn).
      exists l'. split.
      * replace (i + Z.of_nat (S a)) with (i + 1 + Z.of_nat a) by lia.
        exact Hl'.
      * rewrite nth_error_app2 by (rewrite Hl; cbn; lia).
        rewrite Hl. replace (S a * m + b - m)%nat with (a * m + b)%nat
          by (cbn; lia).
        exact Hn.
Qed.

(** The nested loops draw the scaled rectangle row by row, one pixel per
    position, each in the colour [pixel] gives for the source position that
    [srcRow] and [unscale] compute from it. *)
Lemma drawRows_nth `{FloatArith} hdr pixel scale sw sh ox oy calls :
  drawRows hdr pixel scale sw sh ox oy = Some calls ->
  List.length calls = (Z.to_nat sh * Z.to_nat sw)%nat /\
  forall x y, 0 <= x < sw -> 0 <= y < sh ->
    exists srcX srcY color,
      unscale scale x = Some srcX /\
      srcRow hdr scale y = Some srcY /\
      pixel srcY srcX = Some color /\
      nth_error calls (Z.to_nat y * Z.to_nat sw + Z.to_nat x)
      = Some (DrawPixel (to_int16 (wrap32 (ox + x)))
                        (to_int16 (wrap32 (oy + y))) color).
Proof.
  intros Hrun. unfold drawRows in Hrun.
  destruct (for_loop_uniform (Z.to_nat sw) _ _ _ _ Hrun) as (Hlen & Hnth).
  { intros y row _ Hrow.
    destruct (srcRow hdr scale y) as [srcY|]; [|discriminate].
    destruct (for_loop_uniform 1 _ _ _ _ Hrow) as (Hl & _); [|lia].
    intros x one _ Hone.
    destruct (unscale scale x) as [srcX|]; [|discriminate].
    destruct (pixel srcY srcX); [|discriminate].
    inversion Hone. reflexivity. }
  split; [exact Hlen|].
  intros x y Hx Hy.
  destruct (Hnth (Z.to_nat y) (Z.to_nat x) ltac:(lia) ltac:(lia))
    as (row & Hrow & Hcall).
  rewrite Z.add_0_l, Z2Nat.id in Hrow by lia.
  destruct (srcRow hdr scale y) as [srcY|]; [|discriminate].
  destruct (for_loop_uniform 1 _ _ _ _ Hrow) as (_ & Hcell).
  { intros x' one _ Hone.
    destruct (unscale scale x') as [srcX|]; [|discriminate].
    destruct (pixel srcY srcX); [|discriminate].
    inversion Hone. reflexivity. }
  destruct (Hcell (Z.to_nat x) 0%nat ltac:(lia) ltac:(lia))
    as (one & Hone & Hcell1).
  rewrite Z.add_0_l, Z2Nat.id in Hone by lia.
  destruct (unscale scale x) as [srcX|]; [|discriminate].
  destruct (pixel srcY srcX) as [color|] eqn:Hp; [|discriminate].
  inversion Hone; subst one. clear Hone.
  exists srcX, srcY, color.
  split; [reflexivity|]. split; [reflexivity|]. split; [exact Hp|].
  rewrite Hcall. rewrite Nat.mul_1_r, Nat.add_0_r in Hcell1.
  rewrite Hcell1. reflexivity.
Qed.

Lemma byte_at_range buf off v : byte_at buf off = Some v -> 0 <= v < 256.
Proof.
  unfold byte_at. destruct (nth_error buf off) as [b|]; [|discriminate].
  cbn. intros E. inversion E; subst.
  pose proof (Byte.to_N_bounded b). lia.
Qed.

Lemma gray8Color_black g : gray8Color g = EPD_BLACK <-> g < 128.
Proof.
  unfold gray8Color. destruct (g <? 128) eqn:E.
  - apply Z.ltb_lt in E. tauto.
  - apply Z.ltb_ge in E. split; [discriminate | lia].
Qed.

Lemma gray8Color_white g : gray8Color g = EPD_WHITE <-> 128 <= g.
Proof.
  unfold gray8Color. destruct (g <? 128) eqn:E.
  - apply Z.ltb_lt in E. split; [discriminate | lia].
  - apply Z.ltb_ge in E. tauto.
Qed.

(** On a gray triple the quantizer of the 24-bit path thresholds at 85 and
    never answers red. *)
Lemma rgbToEinkColor_gray g : 0 <= g < 256 ->
  rgbToEinkColor g g g = if g <? 85 then EPD_BLACK else EPD_WHITE.
Proof.
  intros Hg. unfold rgbToEinkColor.
  replace (g * 30 + g * 59 + g * 11) with (g * 100) by lia.
  rewrite Z.div_mul by lia.
  unfold wrap8, wrap. rewrite Z.mod_small by lia.
  rewrite (Z.ltb_irrefl g), andb_false_r. cbn.
  destruct (g <? 85); reflexivity.
Qed.

End LoaderFacts.

Section HeaderChecks.

Import ImageLoader.

Lemma depthSupported_In bpp : depthSupported bpp = true <-> In bpp [1; 4; 8; 24].
Proof.
  unfold depthSupported. cbn [In].
  rewrite !orb_true_iff, !Z.eqb_eq. intuition congruence.
Qed.

(** Past the size and read checks, [checkFile] looks at the signature and
    at the bit depth, and at nothing else. *)
Lemma checkFile_read card filepath buf :
  sizeof_BMPHeader <= SDCard.getFileSize card filepath ->
  SDCard.readFile card filepath (SDCard.getFileSize card filepath)
    = (SDCard.getFileSize card filepath, buf) ->
  checkFile card filepath =
    if negb (signature (headerOf buf) =? 0x4D42) then inl InvalidSignature
    else if depthSupported (bitsPerPixel (headerOf buf))
         then inr (buf, headerOf buf)
         else inl UnsupportedBitsPerPixel.
Proof.
  intros Hsize Hread. unfold checkFile. rewrite Hread.
  unfold sizeof_BMPHeader in *.
  replace (SDCard.getFileSize card filepath <? 0) with false
    by (symmetry; apply Z.ltb_ge; lia).
  replace (SDCard.getFileSize card filepath <? 54) with false
    by (symmetry; apply Z.ltb_ge; lia).
  rewrite Z.eqb_refl. cbn [orb negb].
  destruct (signature (headerOf buf) =? 19778); [|reflexivity]. cbn [negb].
  unfold depthSupported.
  destruct (bitsPerPixel (headerOf buf) =? 1), (bitsPerPixel (headerOf buf) =? 4),
    (bitsPerPixel (headerOf buf) =? 8), (bitsPerPixel (headerOf buf) =? 24);
    reflexivity.
Qed.

(** The function returns [false] exactly when one of the checks fails. *)
Lemma load_failed_iff `{FloatArith} card filepath why :
  loadAndDisplayBMP card filepath = Failed why <->
  checkFile card filepath = inl why.
Proof.
  unfold loadAndDisplayBMP.
  destruct (checkFile card filepath) as [e|[buf hdr]].
  - split; intros E; inversion E; reflexivity.
  - split; [|discriminate]. unfold render.
    destruct (to_uint32 _); [|discriminate].
    destruct (to_uint32 _); [|discriminate].
    match goal with |- context [match ?d with Some _ => _ | None => _ end] =>
      destruct d end; discriminate.
Qed.

Lemma load_passed `{FloatArith} card filepath buf hdr :
  checkFile card filepath = inr (buf, hdr) ->
  loadAndDisplayBMP card filepath = render buf hdr.
Proof. intros E. unfold loadAndDisplayBMP. rewrite E. reflexivity. Qed.

End HeaderChecks.

(** *** C1 *)

(** C1 (as the code has it). An 8-bits-per-pixel image that the decoder
    accepts and draws comes out as [clearBuffer], one [drawPixel] for each
    position [(x, y)] of the scaled rectangle, row by row, and [display].
    The pixel of position [(x, y)] is drawn at [(offsetX + x, offsetY + y)]
    in the colour decided inline from the one source byte [g] fetched at
    [pixelData[srcY * rowSize + srcX]], where [srcX] is [x / scale] and
    [srcY] is [y / scale], flipped for a bottom-up file: BLACK exactly
    when [g < 128], WHITE exactly when [128 <= g]. The byte does not pass
    through [rgbToEinkColor] and its threshold of 85. *)
Theorem C1_gray8_threshold `{FloatArith} card filepath buf hdr calls :
  ImageLoader.checkFile card filepath = inr (buf, hdr) ->
  ImageLoader.bitsPerPixel hdr = 8 ->
  ImageLoader.loadAndDisplayBMP card filepath = ImageLoader.Displayed calls ->
  let imgWidth := ImageLoader.absDim (ImageLoader.width hdr) in
  let imgHeight := ImageLoader.absDim (ImageLoader.height hdr) in
  let scale := ImageLoader.scaleOf hdr in
  let rowSize := ImageLoader.rowSize8 imgWidth in
  exists scaledWidth scaledHeight pixels,
    to_uint32 (fmul (of_uint imgWidth) scale) = Some scaledWidth /\
    to_uint32 (fmul (of_uint imgHeight) scale) = Some scaledHeight /\
    calls = ClearBuffer :: pixels ++ [Display] /\
    List.length pixels
    = (Z.to_nat scaledHeight * Z.to_nat scaledWidth)%nat /\
    let offsetX := wrap32 (DISPLAY_WIDTH - scaledWidth) / 2 in
    let offsetY := wrap32 (DISPLAY_HEIGHT - scaledHeight) / 2 in
    let position x y := (Z.to_nat y * Z.to_nat scaledWidth + Z.to_nat x)%nat in
    (forall x y, 0 <= x < scaledWidth -> 0 <= y < scaledHeight ->
       exists srcX srcY g,
         ImageLoader.unscale scale x = Some srcX /\
         ImageLoader.srcRow hdr scale y = Some srcY /\
         ImageLoader.pixelData buf hdr (wrap32 (srcY * rowSize + srcX))
         = Some g /\
         0 <= g < 256 /\
         nth_error pixels (position x y)
         = Some (DrawPixel (to_int16 (wrap32 (offsetX + x)))
                           (to_int16 (wrap32 (offsetY + y)))
                           (ImageLoader.gray8Color g)) /\
         (ImageLoader.gray8Color g = EPD_BLACK <-> g < 128) /\
         (ImageLoader.gray8Color g = EPD_WHITE <-> 128 <= g)) /\
    (forall d, In d pixels ->
       exists x y, 0 <= x < scaledWidth /\ 0 <= y < scaledHeight /\
                   nth_error pixels (position x y) = Some d).
Proof.
  intros Hchk Hbpp Hload imgWidth imgHeight scale rowSize.
  rewrite (load_passed _ _ _ _ Hchk) in Hload.
  unfold ImageLoader.render in Hload.
  fold imgWidth imgHeight scale in Hload.
  destruct (to_uint32 (fmul (of_uint imgWidth) scale)) as [sw|];
    [|discriminate].
  destruct (to_uint32 (fmul (of_uint imgHeight) scale)) as [sh|];
    [|discriminate].
  rewrite Hbpp in Hload. cbn [Z.eqb Pos.eqb] in Hload.
  match type of Hload with
  | match ?d with Some _ => _ | None => _ end = _ =>
      destruct d as [drawn|] eqn:Hrows; [|discriminate]
  end.
  inversion Hload; subst calls. clear Hload.
  destruct (drawRows_nth _ _ _ _ _ _ _ _ Hrows) as (Hlen & Hnth).
  exists sw, sh, drawn.
  split; [reflexivity|]. split; [reflexivity|]. split; [reflexivity|].
  split; [exact Hlen|]. cbn zeta. split.
  - intros x y Hx Hy.
    destruct (Hnth x y Hx Hy) as (srcX & srcY & color & Hsx & Hsy & Hpix & Hd).
    unfold ImageLoader.pixel8 in Hpix. fold imgWidth rowSize in Hpix.
    destruct (ImageLoader.pixelData buf hdr (wrap32 (srcY * rowSize + srcX)))
      as [g|] eqn:Hg; [|discriminate].
    inversion Hpix; subst color.
    exists srcX, srcY, g.
    split; [exact Hsx|]. split; [exact Hsy|]. split; [exact Hg|].
    split; [exact (byte_at_range _ _ _ Hg)|]. split; [exact Hd|].
    split; [apply gray8Color_black | apply gray8Color_white].
  - intros d Hin. apply In_nth_error in Hin. destruct Hin as [k Hk].
    assert (Hlt : (k < List.length drawn)%nat)
      by (apply nth_error_Some; rewrite Hk; discriminate).
    rewrite Hlen in Hlt.
    assert (Hsw : Z.to_nat sw <> 0%nat) by lia.
    exists (Z.of_nat (k mod Z.to_nat sw)), (Z.of_nat (k / Z.to_nat sw)).
    pose proof (Nat.mod_upper_bound k (Z.to_nat sw) Hsw) as Hmod.
    pose proof (Nat.div_mod_eq k (Z.to_nat sw)) as Hdiv.
    assert (Hq : (k / Z.to_nat sw < Z.to_nat sh)%nat).
    { apply Nat.Div0.div_lt_upper_bound. lia. }
    split; [lia|]. split; [lia|].
    rewrite !Nat2Z.id.
    replace (k / Z.to_nat sw * Z.to_nat sw + k mod Z.to_nat sw)%nat with k
      by lia.
    exact Hk.
Qed.

(** The 128x1 file of bytes 100 is drawn at full size in row 147: 128
    pixels, the one of position (5, 0) at (5, 147), black, from the byte
    100 at offset 5. *)
Lemma C1_gray8_threshold_witness :
  let buf := Fixtures.gray100 in
  let hdr := ImageLoader.headerOf buf in
  let imgWidth := ImageLoader.absDim (ImageLoader.width hdr) in
  let imgHeight := ImageLoader.absDim (ImageLoader.height hdr) in
  let scale := ImageLoader.scaleOf (FA := Binary32.binary32) hdr in
  exists calls pixels,
    ImageLoader.loadAndDisplayBMP (H := Binary32.binary32)
      (Fixtures.cardWith Fixtures.photo buf) Fixtures.photo
    = ImageLoader.Displayed calls /\
    to_uint32 (fmul (of_uint imgWidth) scale) = Some 128 /\
    to_uint32 (fmul (of_uint imgHeight) scale) = Some 1 /\
    calls = ClearBuffer :: pixels ++ [Display] /\
    List.length pixels = 128%nat /\
    ImageLoader.unscale scale 5 = Some 5 /\
    ImageLoader.srcRow hdr scale 0 = Some 0 /\
    ImageLoader.pixelData buf hdr 5 = Some 100 /\
    nth_error pixels 5 = Some (DrawPixel 5 147 EPD_BLACK).
Proof.
  intros buf hdr imgWidth imgHeight scale.
  eexists.
  assert (Hload : ImageLoader.loadAndDisplayBMP (H := Binary32.binary32)
                    (Fixtures.cardWith Fixtures.photo buf) Fixtures.photo
                  = ImageLoader.Displayed _)
    by (vm_compute; reflexivity).
  destruct (C1_gray8_threshold (H := Binary32.binary32)
              (Fixtures.cardWith Fixtures.photo buf) Fixtures.photo
              buf hdr _ ltac:(vm_compute; reflexivity)
              ltac:(vm_compute; reflexivity) Hload)
    as (sw & sh & pixels & Hsw & Hsh & Hcalls & Hlen & Hpix & _).
  fold imgWidth imgHeight scale in Hsw, Hsh.
  assert (Esw : sw = 128)
    by (assert (E : Some sw = Some 128)
          by (rewrite <- Hsw; vm_compute; reflexivity);
        inversion E; reflexivity).
  assert (Esh : sh = 1)
    by (assert (E : Some sh = Some 1)
          by (rewrite <- Hsh; vm_compute; reflexivity);
        inversion E; reflexivity).
  subst sw sh.
  destruct (Hpix 5 0 ltac:(lia) ltac:(lia))
    as (srcX & srcY & g & Hsx & Hsy & Hg & _ & Hd & _).
  fold scale in Hsx, Hsy.
  assert (EsrcX : srcX = 5)
    by (assert (E : Some srcX = Some 5)
          by (rewrite <- Hsx; vm_compute; reflexivity);
        inversion E; reflexivity).
  assert (EsrcY : srcY = 0)
    by (assert (E : Some srcY = Some 0)
          by (rewrite <- Hsy; vm_compute; reflexivity);
        inversion E; reflexivity).
  subst srcX srcY.
  assert (Eg : g = 100)
    by (assert (E : Some g = Some 100)
          by (rewrite <- Hg; vm_compute; reflexivity);
        inversion E; reflexivity).
  subst g.
  exists pixels.
  split; [exact Hload|]. split; [exact Hsw|]. split; [exact Hsh|].
  split; [exact Hcalls|]. split; [exact Hlen|].
  split; [exact Hsx|]. split; [exact Hsy|].
  split; [vm_compute; reflexivity|]. exact Hd.
Defined.

(** The source byte 100 is not below 85, and [rgbToEinkColor 100 100 100] is
    white, yet the decoder draws the 8-bit picture made of bytes 100 all
    black. *)
Lemma C1_counterexample :
  exists calls,
    ImageLoader.loadAndDisplayBMP (H := Binary32.binary32)
      (Fixtures.cardWith Fixtures.photo Fixtures.gray100) Fixtures.photo
      = ImageLoader.Displayed calls /\
    Fixtures.drawnColors calls = repeat EPD_BLACK 128 /\
    ImageLoader.pixelData Fixtures.gray100
      (ImageLoader.headerOf Fixtures.gray100) 0 = Some 100 /\
    ~ 100 < 85 /\
    ImageLoader.rgbToEinkColor 100 100 100 = EPD_WHITE.
Proof.
  eexists. split; [vm_compute; reflexivity|].
  split; [vm_compute; reflexivity|].
  split; [vm_compute; reflexivity|].
  split; [lia | reflexivity].
Qed.

(** *** C2 *)

(** C2 (as the code has it). For a file that passes the size, read and
    signature checks, the depth check lets through exactly the depths 1, 4,
    8 and 24: with any other [bitsPerPixel] the call fails at the
    unsupported-depth site, and with one of the four it passes the checks. *)
Theorem C2_depth_check card filepath buf :
  ImageLoader.sizeof_BMPHeader <= SDCard.getFileSize card filepath ->
  SDCard.readFile card filepath (SDCard.getFileSize card filepath)
    = (SDCard.getFileSize card filepath, buf) ->
  ImageLoader.signature (ImageLoader.headerOf buf) = 0x4D42 ->
  (In (ImageLoader.bitsPerPixel (ImageLoader.headerOf buf)) [1; 4; 8; 24] ->
   ImageLoader.checkFile card filepath = inr (buf, ImageLoader.headerOf buf)) /\
  (~ In (ImageLoader.bitsPerPixel (ImageLoader.headerOf buf)) [1; 4; 8; 24] ->
   forall FA : FloatArith,
     ImageLoader.loadAndDisplayBMP card filepath
       = ImageLoader.Failed ImageLoader.UnsupportedBitsPerPixel).
Proof.
  intros Hsize Hread Hsig.
  pose proof (checkFile_read _ _ _ Hsize Hread) as Hchk.
  rewrite Hsig in Hchk. cbn [Z.eqb Pos.eqb negb] in Hchk.
  split.
  - intros Hin. apply depthSupported_In in Hin. rewrite Hin in Hchk. exact Hchk.
  - intros Hout FA. apply load_failed_iff.
    destruct (depthSupported _) eqn:E; [|exact Hchk].
    apply depthSupported_In in E. contradiction.
Qed.

Lemma C2_depth_check_witness :
  (In (ImageLoader.bitsPerPixel (ImageLoader.headerOf Fixtures.nibble)) [1; 4; 8; 24] ->
   ImageLoader.checkFile (Fixtures.cardWith Fixtures.photo Fixtures.nibble)
     Fixtures.photo
     = inr (Fixtures.nibble, ImageLoader.headerOf Fixtures.nibble)) /\
  (~ In (ImageLoader.bitsPerPixel (ImageLoader.headerOf Fixtures.nibble)) [1; 4; 8; 24] ->
   forall FA : FloatArith,
     ImageLoader.loadAndDisplayBMP
       (Fixtures.cardWith Fixtures.photo Fixtures.nibble) Fixtures.photo
       = ImageLoader.Failed ImageLoader.UnsupportedBitsPerPixel).
Proof.
  apply (C2_depth_check (Fixtures.cardWith Fixtures.photo Fixtures.nibble)
           Fixtures.photo Fixtures.nibble).
  - vm_compute. discriminate.
  - vm_compute. reflexivity.
  - vm_compute. reflexivity.
Defined.

(** A 4-bits-per-pixel file is not rejected: the call clears the buffer,
    draws nothing, refreshes the panel and returns [true]. *)
Lemma C2_counterexample :
  ImageLoader.bitsPerPixel (ImageLoader.headerOf Fixtures.nibble) = 4 /\
  ~ In 4 [1; 8; 24] /\
  ImageLoader.loadAndDisplayBMP (H := Binary32.binary32)
    (Fixtures.cardWith Fixtures.photo Fixtures.nibble) Fixtures.photo
    = ImageLoader.Displayed [ClearBuffer; Display] /\
  ImageLoader.returnValue
    (ImageLoader.loadAndDisplayBMP (H := Binary32.binary32)
       (Fixtures.cardWith Fixtures.photo Fixtures.nibble) Fixtures.photo)
    = Some true.
Proof.
  split; [vm_compute; reflexivity|].
  split; [cbn; intuition discriminate|].
  split; vm_compute; reflexivity.
Qed.

Section Noninterference.

Import ImageLoader.

Lemma byte_at_firstn k buf i : (i < k)%nat ->
  byte_at (firstn k buf) i = byte_at buf i.
Proof.
  intros Hi. unfold byte_at. rewrite nth_error_firstn.
  apply Nat.ltb_lt in Hi. rewrite Hi. reflexivity.
Qed.

Lemma u16_at_eq b1 b2 off :
  nth_error b1 off = nth_error b2 off ->
  nth_error b1 (S off) = nth_error b2 (S off) ->
  u16_at b1 off = u16_at b2 off.
Proof.
  intros H0 H1. unfold u16_at, load_le, byte_at. rewrite H0, H1. reflexivity.
Qed.

Lemma nth_error_firstn_below {A : Type} k (l : list A) i : (i < k)%nat ->
  nth_error (firstn k l) i = nth_error l i.
Proof.
  intros Hi. rewrite nth_error_firstn. apply Nat.ltb_lt in Hi.
  rewrite Hi. reflexivity.
Qed.

(** Whether, and why, [checkFile] fails is decided by the mount flag, the
    length of the file and its bytes 0, 1 (signature) and 28, 29 (depth). *)
Lemma checkFile_failure_determined card1 card2 filepath b1 b2 :
  SDCard.s_mounted card1 = SDCard.s_mounted card2 ->
  SDCard.fopen card1 filepath = Some b1 ->
  SDCard.fopen card2 filepath = Some b2 ->
  List.length b1 = List.length b2 ->
  (forall i, In i [0; 1; 28; 29]%nat -> nth_error b1 i = nth_error b2 i) ->
  forall why,
    checkFile card1 filepath = inl why <-> checkFile card2 filepath = inl why.
Proof.
  intros Hm Ho1 Ho2 Hlen Hbytes why.
  unfold checkFile, SDCard.getFileSize, SDCard.readFile.
  rewrite <- Hm, Ho1, Ho2, <- Hlen.
  destruct (SDCard.s_mounted card1); cbn [negb orb]; [|reflexivity].
  set (n := to_int32 (Z.of_nat (List.length b1))).
  destruct ((n <? 0) || (n <? sizeof_BMPHeader)) eqn:Hsz; [reflexivity|].
  apply orb_false_iff in Hsz. destruct Hsz as [_ Hsz].
  apply Z.ltb_ge in Hsz. unfold sizeof_BMPHeader in Hsz.
  replace (n =? 0) with false by (symmetry; apply Z.eqb_neq; lia).
  rewrite !length_firstn, <- Hlen.
  destruct (negb (_ =? n)); [reflexivity|].
  assert (Hk : (54 <= Z.to_nat n)%nat) by lia.
  assert (Hsig : signature (headerOf (firstn (Z.to_nat n) b1))
                 = signature (headerOf (firstn (Z.to_nat n) b2))).
  { cbn [signature headerOf]. apply u16_at_eq;
      rewrite !nth_error_firstn_below by lia; apply Hbytes; cbn; tauto. }
  assert (Hbpp : bitsPerPixel (headerOf (firstn (Z.to_nat n) b1))
                 = bitsPerPixel (headerOf (firstn (Z.to_nat n) b2))).
  { cbn [bitsPerPixel headerOf]. apply u16_at_eq;
      rewrite !nth_error_firstn_below by lia; apply Hbytes; cbn; tauto. }
  rewrite Hsig, Hbpp.
  destruct (negb (signature _ =? 19778)); [reflexivity|].
  destruct (negb _ && negb _ && negb _ && negb _); [reflexivity|].
  split; discriminate.
Qed.

End Noninterference.

(** *** C3 *)

(** C3 (as the code has it). The decoder does not look at the compression
    field: two files of the same length that differ at most in the four
    bytes of that field (offsets 30 to 33) are rejected alike, for the same
    reason, or both accepted. No rejection for compression exists. *)
Theorem C3_compression_not_checked `{FloatArith} card1 card2 filepath b1 b2 :
  SDCard.s_mounted card1 = SDCard.s_mounted card2 ->
  SDCard.fopen card1 filepath = Some b1 ->
  SDCard.fopen card2 filepath = Some b2 ->
  sameOutside 30 34 b1 b2 ->
  forall why,
    ImageLoader.loadAndDisplayBMP card1 filepath = ImageLoader.Failed why <->
    ImageLoader.loadAndDisplayBMP card2 filepath = ImageLoader.Failed why.
Proof.
  intros Hm Ho1 Ho2 [Hlen Hsame] why. rewrite !load_failed_iff.
  apply (checkFile_failure_determined _ _ _ b1 b2); try assumption.
  intros i Hi. apply Hsame. cbn in Hi. lia.
Qed.

(** The picture of bytes 100 with compression 0 and with compression 1. *)
Lemma C3_compression_not_checked_witness :
  ImageLoader.loadAndDisplayBMP (H := Binary32.binary32)
    (Fixtures.cardWith Fixtures.photo Fixtures.gray100) Fixtures.photo
    = ImageLoader.Failed ImageLoader.InvalidSignature <->
  ImageLoader.loadAndDisplayBMP (H := Binary32.binary32)
    (Fixtures.cardWith Fixtures.photo Fixtures.gray100_rle) Fixtures.photo
    = ImageLoader.Failed ImageLoader.InvalidSignature.
Proof.
  refine (C3_compression_not_checked (H := Binary32.binary32)
            (Fixtures.cardWith Fixtures.photo Fixtures.gray100)
            (Fixtures.cardWith Fixtures.photo Fixtures.gray100_rle)
            Fixtures.photo Fixtures.gray100 Fixtures.gray100_rle
            _ _ _ _ ImageLoader.InvalidSignature).
  - reflexivity.
  - vm_compute. reflexivity.
  - vm_compute. reflexivity.
  - split; [vm_compute; reflexivity|].
    intros i Hi.
    destruct (Nat.lt_ge_cases i 30) as [Hlo|Hhi].
    + do 30 (destruct i as [|i]; [vm_compute; reflexivity|]). lia.
    + do 30 (destruct i as [|i]; [lia|]).
      do 4 (destruct i as [|i]; [lia|]).
      reflexivity.
Defined.

(** A file whose compression field is 1 is accepted and drawn. *)
Lemma C3_counterexample :
  ImageLoader.compression (ImageLoader.headerOf Fixtures.gray100_rle) = 1 /\
  exists calls,
    ImageLoader.loadAndDisplayBMP (H := Binary32.binary32)
      (Fixtures.cardWith Fixtures.photo Fixtures.gray100_rle) Fixtures.photo
      = ImageLoader.Displayed calls /\
    Fixtures.drawnColors calls = repeat EPD_BLACK 128 /\
    ImageLoader.returnValue (ImageLoader.Displayed calls) = Some true.
Proof.
  split; [vm_compute; reflexivity|].
  eexists. split; [vm_compute; reflexivity|].
  split; [vm_compute; reflexivity | reflexivity].
Qed.

(** *** C4 *)

(** C4 (as the code has it). The decoder has no dimension check: a file
    that passes the size, read, signature and depth checks is not rejected
    when its width or height is zero; the call goes on to the scaler
    ([render]) with [imgWidth = 0] or [imgHeight = 0]. *)
Theorem C4_zero_dimension_not_rejected `{FloatArith} card filepath buf :
  ImageLoader.sizeof_BMPHeader <= SDCard.getFileSize card filepath ->
  SDCard.readFile card filepath (SDCard.getFileSize card filepath)
    = (SDCard.getFileSize card filepath, buf) ->
  ImageLoader.signature (ImageLoader.headerOf buf) = 0x4D42 ->
  In (ImageLoader.bitsPerPixel (ImageLoader.headerOf buf)) [1; 4; 8; 24] ->
  ImageLoader.width (ImageLoader.headerOf buf) = 0
  \/ ImageLoader.height (ImageLoader.headerOf buf) = 0 ->
  (forall why,
     ImageLoader.loadAndDisplayBMP card filepath <> ImageLoader.Failed why) /\
  ImageLoader.loadAndDisplayBMP card filepath
    = ImageLoader.render buf (ImageLoader.headerOf buf) /\
  (ImageLoader.absDim (ImageLoader.width (ImageLoader.headerOf buf)) = 0
   \/ ImageLoader.absDim (ImageLoader.height (ImageLoader.headerOf buf)) = 0).
Proof.
  intros Hsize Hread Hsig Hbpp Hzero.
  pose proof (checkFile_read _ _ _ Hsize Hread) as Hchk.
  rewrite Hsig in Hchk. cbn [Z.eqb Pos.eqb negb] in Hchk.
  apply depthSupported_In in Hbpp. rewrite Hbpp in Hchk.
  split; [|split].
  - intros why Hfail. apply load_failed_iff in Hfail. congruence.
  - apply load_passed. exact Hchk.
  - destruct Hzero as [E|E]; rewrite E; [left|right]; reflexivity.
Qed.

Lemma C4_zero_dimension_not_rejected_witness :
  (forall why,
     ImageLoader.loadAndDisplayBMP (H := Binary32.binary32)
       (Fixtures.cardWith Fixtures.photo Fixtures.zeroWide) Fixtures.photo
     <> ImageLoader.Failed why) /\
  ImageLoader.loadAndDisplayBMP (H := Binary32.binary32)
    (Fixtures.cardWith Fixtures.photo Fixtures.zeroWide) Fixtures.photo
    = ImageLoader.render (FA := Binary32.binary32) Fixtures.zeroWide
        (ImageLoader.headerOf Fixtures.zeroWide) /\
  (ImageLoader.absDim
     (ImageLoader.width (ImageLoader.headerOf Fixtures.zeroWide)) = 0
   \/ ImageLoader.absDim
        (ImageLoader.height (ImageLoader.headerOf Fixtures.zeroWide)) = 0).
Proof.
  apply (C4_zero_dimension_not_rejected (H := Binary32.binary32)
           (Fixtures.cardWith Fixtures.photo Fixtures.zeroWide)
           Fixtures.photo Fixtures.zeroWide).
  - vm_compute. discriminate.
  - vm_compute. reflexivity.
  - vm_compute. reflexivity.
  - vm_compute. tauto.
  - left. vm_compute. reflexivity.
Defined.

(** A file of width 0 is accepted: the scale factor 128 / 0 is computed
    (it is +infinity in binary32), nothing is drawn and the call returns
    [true]. *)
Lemma C4_counterexample :
  ImageLoader.width (ImageLoader.headerOf Fixtures.zeroWide) = 0 /\
  ImageLoader.loadAndDisplayBMP (H := Binary32.binary32)
    (Fixtures.cardWith Fixtures.photo Fixtures.zeroWide) Fixtures.photo
    = ImageLoader.Displayed [ClearBuffer; Display] /\
  ImageLoader.returnValue
    (ImageLoader.loadAndDisplayBMP (H := Binary32.binary32)
       (Fixtures.cardWith Fixtures.photo Fixtures.zeroWide) Fixtures.photo)
    = Some true /\
  Binary32.binary32.(fdiv)
    (Binary32.binary32.(of_uint) DISPLAY_WIDTH)
    (Binary32.binary32.(of_uint)
       (ImageLoader.absDim
          (ImageLoader.width (ImageLoader.headerOf Fixtures.zeroWide))))
    = S754_infinity false.
Proof.
  repeat split; vm_compute; reflexivity.
Qed.

(** *** C5 *)

Lemma spec_stride_24 w : spec_stride 24 w = (3 * w + 3) / 4 * 4.
Proof. unfold spec_stride. Z.div_mod_to_equations. lia. Qed.

Lemma spec_stride_8 w : spec_stride 8 w = (w + 3) / 4 * 4.
Proof. unfold spec_stride. Z.div_mod_to_equations. lia. Qed.

Lemma spec_stride_1 w : spec_stride 1 w = ((w + 7) / 8 + 3) / 4 * 4.
Proof. unfold spec_stride. Z.div_mod_to_equations. lia. Qed.

Lemma rowSize24_mod w :
  ImageLoader.rowSize24 w = wrap32 (spec_stride 24 w).
Proof.
  rewrite spec_stride_24. unfold ImageLoader.rowSize24, wrap32, wrap.
  rewrite Z.add_mod_idemp_l by lia.
  replace (w * 3 + 3) with (3 * w + 3) by lia.
  change (2 ^ 32) with 4294967296.
  Z.div_mod_to_equations. lia.
Qed.

(** The strides against the rule, for the width of any parsed header. *)
Lemma row_stride_facts (buf : list byte) :
  let w := ImageLoader.absDim (ImageLoader.width (ImageLoader.headerOf buf)) in
  ImageLoader.rowSize8 w = spec_stride 8 w /\
  ImageLoader.rowSize1 w = spec_stride 1 w /\
  ImageLoader.rowSize24 w = wrap32 (spec_stride 24 w) /\
  (3 * w + 3 < 2 ^ 32 -> ImageLoader.rowSize24 w = spec_stride 24 w).
Proof.
  intros w.
  assert (Hw : 0 <= w <= 2 ^ 31).
  { apply absDim_range. cbn [ImageLoader.width ImageLoader.headerOf].
    apply to_int32_range. }
  change (2 ^ 31) with 2147483648 in Hw.
  split; [|split; [|split]].
  - rewrite spec_stride_8. unfold ImageLoader.rowSize8.
    rewrite (wrap32_small (w + 3)) by (change (2 ^ 32) with 4294967296; lia).
    apply wrap32_small. change (2 ^ 32) with 4294967296.
    Z.div_mod_to_equations. lia.
  - rewrite spec_stride_1. unfold ImageLoader.rowSize1.
    rewrite (wrap32_small (w + 7)) by (change (2 ^ 32) with 4294967296; lia).
    rewrite (wrap32_small ((w + 7) / 8 + 3))
      by (change (2 ^ 32) with 4294967296; Z.div_mod_to_equations; lia).
    apply wrap32_small. change (2 ^ 32) with 4294967296.
    Z.div_mod_to_equations. lia.
  - apply rowSize24_mod.
  - intros Hfit. rewrite rowSize24_mod. apply wrap32_small.
    rewrite spec_stride_24. change (2 ^ 32) with 4294967296 in *.
    Z.div_mod_to_equations. lia.
Qed.

(** C5 (as the code has it). For the width [w] of any header the decoder
    parses, the row strides of the 8-bit and of the 1-bit loop are
    [((bpp * w + 31) / 32) * 4]; the stride of the 24-bit loop is that value
    reduced modulo [2^32] (the expression is evaluated in [uint32_t]), so
    it is [((24 * w + 31) / 32) * 4] whenever [3 * w + 3 < 2^32]. *)
Theorem C5_row_stride (buf : list byte) :
  let w := ImageLoader.absDim (ImageLoader.width (ImageLoader.headerOf buf)) in
  ImageLoader.rowSize8 w = spec_stride 8 w /\
  ImageLoader.rowSize1 w = spec_stride 1 w /\
  ImageLoader.rowSize24 w = wrap32 (spec_stride 24 w) /\
  (3 * w + 3 < 2 ^ 32 -> ImageLoader.rowSize24 w = spec_stride 24 w).
Proof.
  intros w.
  assert (Hw : 0 <= w <= 2 ^ 31).
  { apply absDim_range. cbn [ImageLoader.width ImageLoader.headerOf].
    apply to_int32_range. }
  change (2 ^ 31) with 2147483648 in Hw.
  split; [|split; [|split]].
  - rewrite spec_stride_8. unfold ImageLoader.rowSize8.
    rewrite (wrap32_small (w + 3)) by (change (2 ^ 32) with 4294967296; lia).
    apply wrap32_small. change (2 ^ 32) with 4294967296.
    Z.div_mod_to_equations. lia.
  - rewrite spec_stride_1. unfold ImageLoader.rowSize1.
    rewrite (wrap32_small (w + 7)) by (change (2 ^ 32) with 4294967296; lia).
    rewrite (wrap32_small ((w + 7) / 8 + 3))
      by (change (2 ^ 32) with 4294967296; Z.div_mod_to_equations; lia).
    apply wrap32_small. change (2 ^ 32) with 4294967296.
    Z.div_mod_to_equations. lia.
  - apply rowSize24_mod.
  - intros Hfit. rewrite rowSize24_mod. apply wrap32_small.
    rewrite spec_stride_24. change (2 ^ 32) with 4294967296 in *.
    Z.div_mod_to_equations. lia.
Qed.

(** A 24-bit file of width [INT32_MAX] is accepted, and the stride its loop
    would use is 2147483648, not ((24 * w + 31) / 32) * 4 = 6442450944. *)
Lemma C5_counterexample :
  ImageLoader.loadAndDisplayBMP (H := Binary32.binary32)
    (Fixtures.cardWith Fixtures.photo Fixtures.hugeWide) Fixtures.photo
    = ImageLoader.Displayed [ClearBuffer; Display] /\
  ImageLoader.bitsPerPixel (ImageLoader.headerOf Fixtures.hugeWide) = 24 /\
  ImageLoader.absDim (ImageLoader.width (ImageLoader.headerOf Fixtures.hugeWide))
    = 2147483647 /\
  ImageLoader.rowSize24 2147483647 = 2147483648 /\
  ((24 * 2147483647 + 31) / 32) * 4 = 6442450944 /\
  ImageLoader.rowSize24 2147483647 <> ((24 * 2147483647 + 31) / 32) * 4.
Proof.
  repeat split; try (vm_compute; reflexivity).
  vm_compute. discriminate.
Qed.

(** ** SD card *)

Section StringFacts.

Import SDCard.

Local Open Scope string_scope.

Lemma length_append (p s : string) :
  String.length (p ++ s) = (String.length p + String.length s)%nat.
Proof. induction p as [|c p IH]; cbn; [reflexivity | now rewrite IH]. Qed.

Lemma substring_whole (s : string) : substring 0 (String.length s) s = s.
Proof. induction s as [|c s IH]; cbn; [reflexivity | now rewrite IH]. Qed.

Lemma substring_suffix (p s : string) :
  substring (String.length p) (String.length s) (p ++ s) = s.
Proof. induction p as [|c p IH]; cbn; [apply substring_whole | exact IH]. Qed.

Lemma substring_split (s : string) : forall k, (k <= String.length s)%nat ->
  s = substring 0 k s ++ substring k (String.length s - k) s.
Proof.
  induction s as [|c s IH]; intros k Hk.
  - destruct k; reflexivity.
  - destruct k as [|k]; cbn.
    + now rewrite substring_whole.
    + cbn in Hk. rewrite <- IH by lia. reflexivity.
Qed.

(** The extension test of the loop body is a suffix test. *)
Lemma ends_with_iff (filename ext : string) :
  ((String.length ext <=? String.length filename)%nat
   && String.eqb (tail_of filename (String.length ext)) ext) = true
  <-> exists prefix, filename = prefix ++ ext.
Proof.
  rewrite andb_true_iff, Nat.leb_le, String.eqb_eq. unfold tail_of. split.
  - intros [Hlen Htail].
    exists (substring 0 (String.length filename - String.length ext) filename).
    rewrite <- Htail at 2.
    apply substring_split. lia.
  - intros [prefix ->]. rewrite length_append. split; [lia|].
    replace (String.length prefix + String.length ext - String.length ext)%nat
      with (String.length prefix) by lia.
    replace (String.length prefix + String.length ext - String.length prefix)%nat
      with (String.length ext) by lia.
    apply substring_suffix.
Qed.

Lemma isImage_iff (filename : string) (exts : list string) :
  isImage filename exts = true
  <-> exists prefix ext, In ext exts /\ filename = prefix ++ ext.
Proof.
  induction exts as [|e rest IH]; cbn [isImage In].
  - split; [discriminate | intros (? & ? & [] & _)].
  - pose proof (ends_with_iff filename e) as He.
    destruct (String.length e <=? String.length filename)%nat;
      [destruct (String.eqb (tail_of filename (String.length e)) e)|];
      cbn [andb] in He.
    + split; [intros _|reflexivity].
      destruct (proj1 He eq_refl) as [prefix Hp]. exists prefix, e. auto.
    + rewrite IH. split.
      * intros (p & x & Hx & Hp). exists p, x. auto.
      * intros (p & x & [<-|Hx] & Hp).
        -- assert (false = true) by (apply He; eauto). discriminate.
        -- exists p, x. auto.
    + rewrite IH. split.
      * intros (p & x & Hx & Hp). exists p, x. auto.
      * intros (p & x & [<-|Hx] & Hp).
        -- assert (false = true) by (apply He; eauto). discriminate.
        -- exists p, x. auto.
Qed.

End StringFacts.

Section ScanFacts.

Import SDCard.

(** The loop keeps, in iterator order, the wanted entries until the count
    reaches [MAX_IMAGE_FILES]. *)
Lemma scan_loop_spec directory entries : forall imageFiles count,
  let picked :=
    firstn (N.to_nat (MAX_IMAGE_FILES - count)) (filter wanted entries) in
  scan_loop directory entries imageFiles count
  = (imageFiles ++ map (fun e => fullPath directory (d_name e)) picked,
     (count + N.of_nat (List.length picked))%N).
Proof.
  unfold MAX_IMAGE_FILES.
  induction entries as [|e rest IH]; intros imageFiles count; cbn zeta.
  - cbn [filter scan_loop]. rewrite firstn_nil. cbn.
    rewrite app_nil_r, N.add_0_r. reflexivity.
  - cbn [scan_loop filter]. unfold MAX_IMAGE_FILES.
    destruct (count <? 100)%N eqn:Hc.
    + apply N.ltb_lt in Hc.
      destruct (starts_with_dot (d_name e)) eqn:Hd.
      { replace (wanted e) with false
          by (unfold wanted; rewrite Hd; reflexivity).
        apply IH. }
      destruct (isImage (d_name e) IMAGE_EXTENSIONS) eqn:Hi.
      * replace (wanted e) with true
          by (unfold wanted; rewrite Hd, Hi; reflexivity).
        rewrite IH. unfold size_wrap.
        rewrite (N.mod_small (count + 1)) by lia.
        replace (N.to_nat (100 - count))
          with (S (N.to_nat (100 - (count + 1)))) by lia.
        cbn [firstn map List.length]. rewrite <- app_assoc. cbn [app].
        f_equal. lia.
      * replace (wanted e) with false
          by (unfold wanted; rewrite Hd, Hi; reflexivity).
        apply IH.
    + apply N.ltb_ge in Hc.
      replace (N.to_nat (100 - count)) with O by lia.
      cbn. rewrite app_nil_r, N.add_0_r. reflexivity.
Qed.

End ScanFacts.

(** *** C8 *)

(** C8 (as the code has it). On a mounted card, [scanForImages] returns the
    full paths of the first entries, in iterator order and at most 100 of
    them, whose names do not begin with a dot and end with ".bmp" or ".BMP"
    (compared case-sensitively). The type of an entry is not looked at. *)
Theorem C8_scan_result card directory entries :
  SDCard.s_mounted card = true ->
  SDCard.opendir card directory = Some entries ->
  let picked := firstn 100 (filter wanted entries) in
  SDCard.scanForImages card directory
    = (map (fun e => SDCard.fullPath directory (SDCard.d_name e)) picked,
       N.of_nat (List.length picked)) /\
  (List.length picked <= 100)%nat /\
  (forall e,
     wanted e = true <->
     SDCard.starts_with_dot (SDCard.d_name e) = false /\
     exists prefix,
       SDCard.d_name e = (prefix ++ ".bmp")%string
       \/ SDCard.d_name e = (prefix ++ ".BMP")%string).
Proof.
  intros Hm Ho picked. split; [|split].
  - unfold SDCard.scanForImages. rewrite Hm, Ho. cbn [negb].
    rewrite scan_loop_spec. reflexivity.
  - apply firstn_le_length.
  - intros e. unfold wanted.
    rewrite andb_true_iff, negb_true_iff, isImage_iff.
    unfold IMAGE_EXTENSIONS. cbn [In]. split.
    + intros [Hd (p & x & Hx & Hp)]. split; [exact Hd|]. exists p.
      destruct Hx as [<-|[<-|[]]]; auto.
    + intros [Hd (p & [Hp|Hp])]; (split; [exact Hd|]).
      * exists p, ".bmp"%string. auto.
      * exists p, ".BMP"%string. auto.
Qed.

(** The directory of scenario E of the specification. *)
Lemma C8_scan_result_witness :
  let entries :=
    [ {| SDCard.d_name := "a.bmp"; SDCard.d_type := SDCard.DT_REG |};
      {| SDCard.d_name := "b.BMP"; SDCard.d_type := SDCard.DT_REG |};
      {| SDCard.d_name := "readme.txt"; SDCard.d_type := SDCard.DT_REG |};
      {| SDCard.d_name := ".hidden"; SDCard.d_type := SDCard.DT_REG |};
      {| SDCard.d_name := "subdir"; SDCard.d_type := SDCard.DT_DIR |} ] in
  SDCard.scanForImages (Fixtures.cardListing entries) IMAGE_DIRECTORY
    = (["/sdcard/images/a.bmp"; "/sdcard/images/b.BMP"]%string, 2%N).
Proof.
  intros entries.
  exact (proj1 (C8_scan_result (Fixtures.cardListing entries) IMAGE_DIRECTORY
                  entries eq_refl eq_refl)).
Defined.

(** A subdirectory named "album.bmp" is returned as an image. *)
Lemma C8_counterexample :
  SDCard.scanForImages
    (Fixtures.cardListing
       [ {| SDCard.d_name := "album.bmp"; SDCard.d_type := SDCard.DT_DIR |} ])
    IMAGE_DIRECTORY
  = (["/sdcard/images/album.bmp"%string], 1%N).
Proof. vm_compute. reflexivity. Qed.

(** ** Slideshow controller *)

Section ControllerFacts.

Import Slideshow.

Variable load : string -> bool.

Lemma displayCurrentImage_unfold c :
  displayCurrentImage load c =
    if nothingToShow c then (c, [])
    else if load (imagePath c) then (c, [LoadImage (imagePath c) true])
    else if (nextIndex c =? 0)%N
         then (set_currentImageIndex c (nextIndex c),
               [LoadImage (imagePath c) false])
         else let r := displayCurrentImage load
                         (set_currentImageIndex c (nextIndex c)) in
              (fst r, LoadImage (imagePath c) false :: snd r).
Proof.
  funelim (displayCurrentImage load c).
  all: repeat match goal with
              | H : _ = true |- _ => rewrite H
              | H : _ = false |- _ => rewrite H
              end; reflexivity.
Qed.

Lemma set_currentImageIndex_same c :
  set_currentImageIndex c (s_currentImageIndex c) = c.
Proof. destruct c; reflexivity. Qed.

Lemma nothingToShow_false c :
  (s_currentImageIndex c < imageCount c)%N -> nothingToShow c = false.
Proof.
  intros Hi. unfold nothingToShow. apply orb_false_iff. split.
  - unfold imageCount, size in Hi. destruct (s_imageFiles c); [|reflexivity].
    cbn in Hi. lia.
  - apply N.leb_gt. exact Hi.
Qed.

(** In range, the increment does not wrap. *)
Lemma nextIndex_mod c : (s_currentImageIndex c < imageCount c)%N ->
  nextIndex c = ((s_currentImageIndex c + 1) mod imageCount c)%N.
Proof.
  intros Hi. unfold nextIndex, size_wrap.
  pose proof (size_lt_2_32 (s_imageFiles c)) as Hn. fold (imageCount c) in Hn.
  rewrite (N.mod_small (s_currentImageIndex c + 1)) by lia. reflexivity.
Qed.

Lemma nextIndex_lt c : (imageCount c <> 0)%N -> (nextIndex c < imageCount c)%N.
Proof. intros Hn. unfold nextIndex. apply N.mod_lt. exact Hn. Qed.

Lemma nextIndex_cases c : (s_currentImageIndex c < imageCount c)%N ->
  (s_currentImageIndex c + 1 = imageCount c /\ nextIndex c = 0)%N
  \/ (s_currentImageIndex c + 1 < imageCount c
      /\ nextIndex c = s_currentImageIndex c + 1)%N.
Proof.
  intros Hi. rewrite (nextIndex_mod _ Hi).
  destruct (N.eq_dec (s_currentImageIndex c + 1) (imageCount c)) as [E|E].
  - left. split; [exact E|]. rewrite E. apply N.Div0.mod_same.
  - right. split; [lia|]. apply N.mod_small. lia.
Qed.

Lemma prevIndex_mod c : (s_currentImageIndex c < imageCount c)%N ->
  prevIndex c
  = ((s_currentImageIndex c + imageCount c - 1) mod imageCount c)%N.
Proof.
  intros Hi. unfold prevIndex, size_wrap.
  pose proof (size_lt_2_32 (s_imageFiles c)) as Hn. fold (imageCount c) in Hn.
  change (2 ^ 32)%N with 4294967296%N in *.
  destruct (s_currentImageIndex c =? 0)%N eqn:E.
  - apply N.eqb_eq in E. rewrite E, N.add_0_l.
    rewrite (N.mod_small (imageCount c - 1)) by lia.
    replace (imageCount c + 4294967296 - 1)%N
      with (imageCount c - 1 + 1 * 4294967296)%N by lia.
    rewrite N.Div0.mod_add. apply N.mod_small. lia.
  - apply N.eqb_neq in E.
    replace (s_currentImageIndex c + 4294967296 - 1)%N
      with (s_currentImageIndex c - 1 + 1 * 4294967296)%N by lia.
    rewrite N.Div0.mod_add, N.mod_small by lia.
    replace (s_currentImageIndex c + imageCount c - 1)%N
      with (s_currentImageIndex c - 1 + 1 * imageCount c)%N by lia.
    rewrite N.Div0.mod_add. symmetry. apply N.mod_small. lia.
Qed.

Lemma prevIndex_lt c : (s_currentImageIndex c < imageCount c)%N ->
  (prevIndex c < imageCount c)%N.
Proof.
  intros Hi. rewrite (prevIndex_mod _ Hi). apply N.mod_lt. lia.
Qed.

(** [displayCurrentImage] touches the index only, and keeps it in range. *)
Lemma displayCurrentImage_frame c :
  exists j,
    fst (displayCurrentImage load c) = set_currentImageIndex c j /\
    ((s_currentImageIndex c < imageCount c)%N -> (j < imageCount c)%N).
Proof.
  funelim (displayCurrentImage load c).
  - exists (s_currentImageIndex c). split; [|tauto].
    symmetry. apply set_currentImageIndex_same.
  - exists (s_currentImageIndex c). split; [|tauto].
    symmetry. apply set_currentImageIndex_same.
  - exists (nextIndex c). split; [reflexivity|].
    intros Hi. apply nextIndex_lt. lia.
  - match goal with
    | IH : exists j, _ /\ _ |- _ => destruct IH as (j & Hj & Hr)
    end.
    exists j. cbn [fst]. split.
    + rewrite Hj. reflexivity.
    + intros Hi.
      change (imageCount (set_currentImageIndex c (nextIndex c)))
        with (imageCount c) in Hr.
      apply Hr. cbn [s_currentImageIndex set_currentImageIndex].
      apply nextIndex_lt. lia.
Qed.

(** A load that succeeds leaves the index where it is. *)
Lemma displayCurrentImage_loaded c :
  nothingToShow c = true \/ load (imagePath c) = true ->
  fst (displayCurrentImage load c) = c.
Proof.
  intros H. rewrite displayCurrentImage_unfold.
  destruct (nothingToShow c); [reflexivity|].
  destruct H as [H|H]; [discriminate|]. rewrite H. reflexivity.
Qed.

Lemma imagePath_In c :
  nothingToShow c = false -> In (imagePath c) (s_imageFiles c).
Proof.
  intros Hshow. unfold nothingToShow in Hshow.
  apply orb_false_iff in Hshow. destruct Hshow as [_ Hlt].
  apply N.leb_gt in Hlt. unfold imagePath. apply nth_In.
  unfold imageCount, size, size_wrap in Hlt.
  pose proof (N.Div0.mod_le (N.of_nat (List.length (s_imageFiles c)))
                (2 ^ 32)%N).
  lia.
Qed.

(** What [displayCurrentImage] asks of the loader: nothing when there is
    nothing to show; otherwise the current image first, and nothing more
    when it loads; and only images of the list. *)
Lemma displayCurrentImage_trace c :
  (nothingToShow c = true -> snd (displayCurrentImage load c) = []) /\
  (nothingToShow c = false ->
   exists rest,
     snd (displayCurrentImage load c)
     = LoadImage (imagePath c) (load (imagePath c)) :: rest /\
     (load (imagePath c) = true -> rest = [])) /\
  (forall e, In e (snd (displayCurrentImage load c)) ->
     exists path, In path (s_imageFiles c) /\ e = LoadImage path (load path)).
Proof.
  split; [|split].
  - intros Hshow. rewrite displayCurrentImage_unfold, Hshow. reflexivity.
  - intros Hshow. rewrite displayCurrentImage_unfold, Hshow.
    destruct (load (imagePath c)) eqn:Hload.
    + exists []. split; [reflexivity|]. reflexivity.
    + destruct (nextIndex c =? 0)%N.
      * exists []. split; [reflexivity|]. discriminate.
      * eexists. cbn [snd]. split; [reflexivity|]. discriminate.
  - funelim (displayCurrentImage load c); cbn [snd In]; intros call Hin.
    + destruct Hin.
    + destruct Hin as [<-|[]]. exists (imagePath c).
      split; [apply imagePath_In; assumption|]. congruence.
    + destruct Hin as [<-|[]]. exists (imagePath c).
      split; [apply imagePath_In; assumption|]. congruence.
    + destruct Hin as [<-|Hin].
      * exists (imagePath c).
        split; [apply imagePath_In; assumption|]. congruence.
      * match goal with
        | IH : forall e, In e _ -> _ |- _ => exact (IH call Hin)
        end.
Qed.

End ControllerFacts.

(** *** C7 *)

(** C7. From any index [i] of a non-empty list of [N] images, when every
    load fails, [displayCurrentImage] (a total function) attempts the images
    at [i], [i + 1], ..., [N - 1], once each and in this order, moving the
    index on by one after each failure, and stops with the index wrapped to
    0: [N - i] attempts, at most [N]. *)
Theorem C7_skip_terminates (load : string -> bool) (c : Slideshow.Controller) :
  (Slideshow.s_currentImageIndex c < Slideshow.imageCount c)%N ->
  (forall k, (k < N.to_nat (Slideshow.imageCount c))%nat ->
             load (nth k (Slideshow.s_imageFiles c) EmptyString) = false) ->
  let i := N.to_nat (Slideshow.s_currentImageIndex c) in
  let attempts := (N.to_nat (Slideshow.imageCount c) - i)%nat in
  Slideshow.displayCurrentImage load c
    = (Slideshow.set_currentImageIndex c 0%N,
       map (fun k => Slideshow.LoadImage
                       (nth k (Slideshow.s_imageFiles c) EmptyString) false)
           (seq i attempts))
  /\ (attempts <= N.to_nat (Slideshow.imageCount c))%nat.
Proof.
  intros Hi Hfail i attempts. split; [|lia]. subst i attempts.
  remember (N.to_nat (Slideshow.imageCount c)
            - N.to_nat (Slideshow.s_currentImageIndex c))%nat as n eqn:Hn.
  revert c Hi Hfail Hn.
  induction n as [|n IH]; intros c Hi Hfail Hn; [lia|].
  rewrite displayCurrentImage_unfold, (nothingToShow_false _ Hi).
  unfold Slideshow.imagePath at 1. rewrite Hfail by lia.
  destruct (nextIndex_cases c Hi) as [[Hend Hnext]|[Hmore Hnext]].
  - rewrite Hnext. cbn [N.eqb].
    replace n with O by lia. reflexivity.
  - rewrite Hnext.
    replace (Slideshow.s_currentImageIndex c + 1 =? 0)%N with false
      by (symmetry; apply N.eqb_neq; lia).
    cbn zeta.
    rewrite (IH (Slideshow.set_currentImageIndex c
                   (Slideshow.s_currentImageIndex c + 1)%N)).
    + cbn [fst snd seq map]. unfold Slideshow.imagePath.
      cbn [Slideshow.s_currentImageIndex Slideshow.s_imageFiles
           Slideshow.set_currentImageIndex].
      replace (N.to_nat (Slideshow.s_currentImageIndex c + 1))
        with (S (N.to_nat (Slideshow.s_currentImageIndex c))) by lia.
      reflexivity.
    + exact Hmore.
    + exact Hfail.
    + change (Slideshow.imageCount
                (Slideshow.set_currentImageIndex c
                   (Slideshow.s_currentImageIndex c + 1)%N))
        with (Slideshow.imageCount c).
      cbn [Slideshow.s_currentImageIndex Slideshow.set_currentImageIndex].
      lia.
Qed.

(** Three unreadable files, starting at the second. *)
Lemma C7_skip_terminates_witness :
  let c := {| Slideshow.s_state := Slideshow.DISPLAYING;
              Slideshow.s_imageFiles := ["a.bmp"; "b.bmp"; "c.bmp"]%string;
              Slideshow.s_currentImageIndex := 1%N;
              Slideshow.s_autoAdvance := false;
              Slideshow.s_lastActivityTick := 0;
              Slideshow.s_lastAutoAdvanceTick := 0 |} in
  Slideshow.displayCurrentImage (fun _ => false) c
    = (Slideshow.set_currentImageIndex c 0%N,
       [Slideshow.LoadImage "b.bmp" false; Slideshow.LoadImage "c.bmp" false])
  /\ (2 <= 3)%nat.
Proof.
  intros c.
  apply (C7_skip_terminates (fun _ => false) c).
  - vm_compute. reflexivity.
  - intros k _. reflexivity.
Defined.

(** *** C9 *)

(** C9. Outside the state DISPLAYING, [handleButton] returns at once: the
    controller (index, auto-advance flag, state and all the rest) is what it
    was and nothing is sent to the display. *)
Theorem C9_button_ignored (load : string -> bool) (now : Z)
  (evt : Slideshow.SlideshowButtonEvent) (c : Slideshow.Controller) :
  Slideshow.s_state c <> Slideshow.DISPLAYING ->
  Slideshow.handleButton load now evt c = (c, []).
Proof.
  intros Hst. unfold Slideshow.handleButton.
  destruct (Slideshow.s_state c); try reflexivity. contradiction.
Qed.

(** A press of DOWN in the ERROR state, with every image loadable. *)
Lemma C9_button_ignored_witness :
  let c := Slideshow.set_imageFiles
             (Slideshow.set_state Slideshow.boot Slideshow.ERROR)
             ["a.bmp"; "b.bmp"]%string in
  Slideshow.handleButton (fun _ => true) 42
    {| Slideshow.id := Slideshow.DOWN; Slideshow.pressed := true |} c
  = (c, []).
Proof.
  intros c.
  apply (C9_button_ignored (fun _ => true) 42
           {| Slideshow.id := Slideshow.DOWN; Slideshow.pressed := true |} c).
  vm_compute. discriminate.
Defined.

Section ControllerInvariant.

Import Slideshow.

Variable load : string -> bool.
Variable pdMS_TO_TICKS : Z -> Z.

Lemma keeps_refl c : keeps c c.
Proof. unfold keeps. tauto. Qed.

Lemma keeps_trans c1 c2 c3 : keeps c1 c2 -> keeps c2 c3 -> keeps c1 c3.
Proof.
  unfold keeps. intros (Hf1 & Hs1 & Hi1) (Hf2 & Hs2 & Hi2).
  repeat split; try congruence. tauto.
Qed.

Lemma displayCurrentImage_keeps c : keeps c (fst (displayCurrentImage load c)).
Proof.
  destruct (displayCurrentImage_frame load c) as (j & Hj & Hr).
  rewrite Hj. unfold keeps. repeat split. exact Hr.
Qed.

(** Setting an in-range index and rendering. *)
Lemma show_at_keeps c j : (j < imageCount c)%N ->
  keeps c (fst (displayCurrentImage load (set_currentImageIndex c j))).
Proof.
  intros Hj.
  destruct (displayCurrentImage_keeps (set_currentImageIndex c j))
    as (Hf & Hs & Hi).
  unfold keeps. repeat split; [exact Hf | exact Hs |].
  intros _. apply Hi. exact Hj.
Qed.

Lemma set_lastAutoAdvanceTick_keeps c c' t :
  keeps c c' -> keeps c (set_lastAutoAdvanceTick c' t).
Proof. intros H. exact H. Qed.

Lemma handleButton_keeps now evt c :
  keeps c (fst (handleButton load now evt c)).
Proof.
  unfold handleButton.
  destruct (negb (State_eqb (s_state c) DISPLAYING)); [apply keeps_refl|].
  destruct (id evt).
  - destruct (0 <? imageCount c)%N eqn:Hn; [|apply keeps_refl].
    cbn [fst]. apply set_lastAutoAdvanceTick_keeps.
    destruct (N.lt_ge_cases (s_currentImageIndex c) (imageCount c)) as [Hi|Hi].
    + apply show_at_keeps. apply prevIndex_lt. exact Hi.
    + destruct (displayCurrentImage_keeps
                  (set_currentImageIndex c (prevIndex c))) as (Hf & Hs & _).
      unfold keeps. repeat split; [exact Hf | exact Hs | lia].
  - cbn [fst].
    destruct (displayCurrentImage_keeps
                (set_lastAutoAdvanceTick
                   (set_autoAdvance c (negb (s_autoAdvance c))) now))
      as (Hf & Hs & Hi).
    unfold keeps. repeat split; [exact Hf | exact Hs | exact Hi].
  - destruct (0 <? imageCount c)%N eqn:Hn; [|apply keeps_refl].
    apply N.ltb_lt in Hn.
    cbn [fst]. apply set_lastAutoAdvanceTick_keeps.
    apply show_at_keeps. apply nextIndex_lt. lia.
Qed.

Lemma processButton_keeps tk received c :
  keeps c (fst (processButton load tk received c)).
Proof.
  unfold processButton.
  destruct received as [btnEvt|]; [|apply keeps_refl].
  destruct (pressed btnEvt); [|apply keeps_refl].
  exact (handleButton_keeps (t_button tk) btnEvt
           (set_lastActivityTick c (t_activity tk))).
Qed.

Lemma autoAdvance_keeps now c : (imageCount c <> 0)%N ->
  exists r, autoAdvance load pdMS_TO_TICKS now c = Some r /\ keeps c (fst r).
Proof.
  intros Hn. unfold autoAdvance.
  destruct (State_eqb (s_state c) DISPLAYING && s_autoAdvance c);
    [|eexists; split; [reflexivity | apply keeps_refl]].
  destruct (_ <=? _); [|eexists; split; [reflexivity | apply keeps_refl]].
  apply N.eqb_neq in Hn. rewrite Hn. apply N.eqb_neq in Hn.
  eexists. split; [reflexivity|]. cbn [fst].
  apply set_lastAutoAdvanceTick_keeps, show_at_keeps, nextIndex_lt. exact Hn.
Qed.

Lemma keeps_count c c' : keeps c c' -> imageCount c' = imageCount c.
Proof. intros (Hf & _). unfold imageCount. rewrite Hf. reflexivity. Qed.

End ControllerInvariant.

Section TaskInvariant.

Import Slideshow.

Variable load : string -> bool.
Variable pdMS_TO_TICKS : Z -> Z.

(** With both pointers created the pass is the one over the variables. *)
Lemma task_iteration_ready tk received c :
  task_iteration load pdMS_TO_TICKS ready tk received c
  = let r1 := processButton load tk received c in
    match autoAdvance load pdMS_TO_TICKS (t_auto tk) (fst r1) with
    | None => DivisionByZero
    | Some r2 =>
        if sleepDue pdMS_TO_TICKS (t_idle tk) (fst r2)
        then DeepSleep (fst r2) (snd r1 ++ snd r2 ++ goToSleep)
        else Running (fst r2) (snd r1 ++ snd r2)
    end.
Proof. reflexivity. Qed.

Lemma task_iteration_keeps ptrs tk received c : (imageCount c <> 0)%N ->
  match task_iteration load pdMS_TO_TICKS ptrs tk received c with
  | Running c' _ | DeepSleep c' _ => keeps c c'
  | DivisionByZero => False
  | NullPointer => s_buttonQueue ptrs = false \/ g_display ptrs = false
  end.
Proof.
  intros Hn. unfold task_iteration.
  destruct (s_buttonQueue ptrs); cbn [negb]; [|left; reflexivity].
  pose proof (processButton_keeps (loaderWith ptrs load) tk received c) as H1.
  destruct (autoAdvance_keeps (loaderWith ptrs load) pdMS_TO_TICKS (t_auto tk)
              (fst (processButton (loaderWith ptrs load) tk received c)))
    as (r2 & Hr2 & H2).
  { rewrite (keeps_count _ _ H1). exact Hn. }
  unfold derefsNull.
  destruct (g_display ptrs); cbn [negb andb].
  - rewrite Hr2. destruct (sleepDue _ _ _); exact (keeps_trans _ _ _ H1 H2).
  - destruct (existsb usesDisplay _); [right; reflexivity|].
    rewrite Hr2.
    destruct (existsb usesDisplay (snd r2)); [right; reflexivity|].
    destruct (sleepDue _ _ _).
    + right; reflexivity.
    + exact (keeps_trans _ _ _ H1 H2).
Qed.

Lemma task_keeps ptrs inputs : forall c, (imageCount c <> 0)%N ->
  match task load pdMS_TO_TICKS ptrs inputs c with
  | Running c' _ | DeepSleep c' _ => keeps c c'
  | DivisionByZero => False
  | NullPointer => s_buttonQueue ptrs = false \/ g_display ptrs = false
  end.
Proof.
  induction inputs as [|[tk received] rest IH]; intros c Hn; cbn [task].
  - apply keeps_refl.
  - pose proof (task_iteration_keeps ptrs tk received c Hn) as H1.
    destruct (task_iteration load pdMS_TO_TICKS ptrs tk received c)
      as [c1 tr1|c1 tr1| |]; [|exact H1|exact H1|exact H1].
    assert (Hn1 : (imageCount c1 <> 0)%N)
      by (rewrite (keeps_count _ _ H1); exact Hn).
    specialize (IH c1 Hn1).
    destruct (task load pdMS_TO_TICKS ptrs rest c1) as [c2 tr2|c2 tr2| |];
      [| |exact IH|exact IH]; exact (keeps_trans _ _ _ H1 IH).
Qed.

End TaskInvariant.

(** *** C6 *)

Section Navigation.

Import Slideshow.

Variable load : string -> bool.
Variable pdMS_TO_TICKS : Z -> Z.

Let image (c : Controller) (k : N) : string :=
  nth (N.to_nat k) (s_imageFiles c) EmptyString.

Lemma up_lands now evt c :
  s_state c = DISPLAYING -> id evt = UP ->
  (s_currentImageIndex c < imageCount c)%N ->
  load (image c ((s_currentImageIndex c + imageCount c - 1) mod imageCount c)%N)
    = true ->
  s_currentImageIndex (fst (handleButton load now evt c))
  = ((s_currentImageIndex c + imageCount c - 1) mod imageCount c)%N.
Proof.
  intros Hst Hid Hi Hok. unfold handleButton. rewrite Hst, Hid. cbn [State_eqb negb].
  replace (0 <? imageCount c)%N with true by (symmetry; apply N.ltb_lt; lia).
  cbn [fst]. rewrite <- (prevIndex_mod _ Hi) in *.
  rewrite displayCurrentImage_loaded; [reflexivity|]. right. exact Hok.
Qed.

Lemma down_lands now evt c :
  s_state c = DISPLAYING -> id evt = DOWN ->
  (s_currentImageIndex c < imageCount c)%N ->
  load (image c ((s_currentImageIndex c + 1) mod imageCount c)%N) = true ->
  s_currentImageIndex (fst (handleButton load now evt c))
  = ((s_currentImageIndex c + 1) mod imageCount c)%N.
Proof.
  intros Hst Hid Hi Hok. unfold handleButton. rewrite Hst, Hid. cbn [State_eqb negb].
  replace (0 <? imageCount c)%N with true by (symmetry; apply N.ltb_lt; lia).
  cbn [fst]. rewrite <- (nextIndex_mod _ Hi) in *.
  rewrite displayCurrentImage_loaded; [reflexivity|]. right. exact Hok.
Qed.

Lemma auto_lands now c :
  s_state c = DISPLAYING -> s_autoAdvance c = true ->
  pdMS_TO_TICKS (AUTO_ADVANCE_DELAY_SEC * 1000)
    <= wrap32 (now - s_lastAutoAdvanceTick c) ->
  (s_currentImageIndex c < imageCount c)%N ->
  load (image c ((s_currentImageIndex c + 1) mod imageCount c)%N) = true ->
  exists c' trace,
    autoAdvance load pdMS_TO_TICKS now c = Some (c', trace) /\
    s_currentImageIndex c'
    = ((s_currentImageIndex c + 1) mod imageCount c)%N.
Proof.
  intros Hst Hauto Hdue Hi Hok. unfold autoAdvance.
  rewrite Hst, Hauto. cbn [State_eqb andb].
  apply Z.leb_le in Hdue. rewrite Hdue.
  replace (imageCount c =? 0)%N with false by (symmetry; apply N.eqb_neq; lia).
  eexists _, _. split; [reflexivity|]. cbn [s_currentImageIndex set_lastAutoAdvanceTick].
  rewrite <- (nextIndex_mod _ Hi) in *.
  rewrite displayCurrentImage_loaded; [reflexivity|]. right. exact Hok.
Qed.

End Navigation.

(** C6 (as the code has it). With a list of [N >= 1] images and the index
    in [0, N) (index 0 in particular), whatever button events and
    auto-advances the task loop goes through and whatever the loads return,
    the loop never takes a modulus by zero and the index stays in [0, N)
    over the same list. The loop is undefined only where it uses a null
    queue or a null display, and [init] has created both when it fills the
    list. UP sets the index to [(i + N - 1) mod N], DOWN and an
    auto-advance that is due set it to [(i + 1) mod N], and then render:
    that value is the index after the event when the image there loads (a
    failed load makes [displayCurrentImage] move the index on). *)
Theorem C6_index_in_range (load : string -> bool) (pdMS_TO_TICKS : Z -> Z)
  (c : Slideshow.Controller) :
  (Slideshow.s_currentImageIndex c < Slideshow.imageCount c)%N ->
  let i := Slideshow.s_currentImageIndex c in
  let n := Slideshow.imageCount c in
  let image k := nth (N.to_nat k) (Slideshow.s_imageFiles c) EmptyString in
  (forall ptrs inputs,
     match Slideshow.task load pdMS_TO_TICKS ptrs inputs c with
     | Slideshow.Running c' _ | Slideshow.DeepSleep c' _ =>
         Slideshow.s_imageFiles c' = Slideshow.s_imageFiles c /\
         (Slideshow.s_currentImageIndex c' < n)%N
     | Slideshow.DivisionByZero => False
     | Slideshow.NullPointer =>
         Slideshow.s_buttonQueue ptrs = false
         \/ Slideshow.g_display ptrs = false
     end) /\
  (Slideshow.s_state c = Slideshow.DISPLAYING ->
   (forall now evt,
      Slideshow.id evt = Slideshow.UP ->
      load (image ((i + n - 1) mod n)%N) = true ->
      Slideshow.s_currentImageIndex
        (fst (Slideshow.handleButton load now evt c))
      = ((i + n - 1) mod n)%N) /\
   (forall now evt,
      Slideshow.id evt = Slideshow.DOWN ->
      load (image ((i + 1) mod n)%N) = true ->
      Slideshow.s_currentImageIndex
        (fst (Slideshow.handleButton load now evt c))
      = ((i + 1) mod n)%N) /\
   (forall now,
      Slideshow.s_autoAdvance c = true ->
      pdMS_TO_TICKS (AUTO_ADVANCE_DELAY_SEC * 1000)
        <= wrap32 (now - Slideshow.s_lastAutoAdvanceTick c) ->
      load (image ((i + 1) mod n)%N) = true ->
      exists c' trace,
        Slideshow.autoAdvance load pdMS_TO_TICKS now c = Some (c', trace) /\
        Slideshow.s_currentImageIndex c' = ((i + 1) mod n)%N)).
Proof.
  intros Hi i n image. split.
  - intros ptrs inputs.
    pose proof (task_keeps load pdMS_TO_TICKS ptrs inputs c
                  ltac:(lia)) as H.
    destruct (Slideshow.task load pdMS_TO_TICKS ptrs inputs c)
      as [c' tr|c' tr| |]; [| |exact H|exact H].
    + split; [apply H|]. subst n. rewrite <- (keeps_count _ _ H). apply H, Hi.
    + split; [apply H|]. subst n. rewrite <- (keeps_count _ _ H). apply H, Hi.
  - intros Hst. split; [|split].
    + intros now evt Hid Hok. apply up_lands; assumption.
    + intros now evt Hid Hok. apply down_lands; assumption.
    + intros now Hauto Hdue Hok. apply auto_lands; assumption.
Qed.

(** Scenario C of the specification (DOWN, DOWN, UP from index 0 with three
    loadable images), run through the task loop with queue and display
    created. *)
Lemma C6_index_in_range_witness :
  let c := {| Slideshow.s_state := Slideshow.DISPLAYING;
              Slideshow.s_imageFiles := ["a.bmp"; "b.bmp"; "c.bmp"]%string;
              Slideshow.s_currentImageIndex := 0%N;
              Slideshow.s_autoAdvance := false;
              Slideshow.s_lastActivityTick := 0;
              Slideshow.s_lastAutoAdvanceTick := 0 |} in
  let press b t :=
    ({| Slideshow.t_activity := t; Slideshow.t_button := t + 1;
        Slideshow.t_auto := t + 2; Slideshow.t_idle := t + 3 |},
     Some {| Slideshow.id := b; Slideshow.pressed := true |}) in
  match Slideshow.task (fun _ => true) (ticksAt 100) Slideshow.ready
          [press Slideshow.DOWN 10; press Slideshow.DOWN 20;
           press Slideshow.UP 30] c with
  | Slideshow.Running c' _ | Slideshow.DeepSleep c' _ =>
      Slideshow.s_imageFiles c' = Slideshow.s_imageFiles c /\
      (Slideshow.s_currentImageIndex c' < Slideshow.imageCount c)%N
  | Slideshow.DivisionByZero => False
  | Slideshow.NullPointer => False
  end.
Proof.
  intros c press.
  pose proof (proj1 (C6_index_in_range (fun _ => true) (ticksAt 100) c
                       eq_refl)
                Slideshow.ready
                [press Slideshow.DOWN 10; press Slideshow.DOWN 20;
                 press Slideshow.UP 30]) as H.
  destruct (Slideshow.task (fun _ => true) (ticksAt 100) Slideshow.ready
              [press Slideshow.DOWN 10; press Slideshow.DOWN 20;
               press Slideshow.UP 30] c);
    [exact H|exact H|exact H|destruct H; discriminate].
Defined.

(** Three files of which the second does not load. After [init] the index
    is 0; a press of DOWN leaves it at 2, not at (0 + 1) mod 3 = 1. *)
Lemma C6_counterexample :
  let load := fun p => negb (String.eqb p "/sdcard/images/b.bmp") in
  let card := Fixtures.cardListing
    [ {| SDCard.d_name := "a.bmp"; SDCard.d_type := SDCard.DT_REG |};
      {| SDCard.d_name := "b.bmp"; SDCard.d_type := SDCard.DT_REG |};
      {| SDCard.d_name := "c.bmp"; SDCard.d_type := SDCard.DT_REG |} ] in
  let c0 := fst (fst (Slideshow.init load true true true card 0 0 Slideshow.boot)) in
  let down := {| Slideshow.id := Slideshow.DOWN; Slideshow.pressed := true |} in
  Slideshow.s_state c0 = Slideshow.DISPLAYING /\
  Slideshow.s_currentImageIndex c0 = 0%N /\
  Slideshow.imageCount c0 = 3%N /\
  Slideshow.handleButton load 1 down c0
  = (Slideshow.set_lastAutoAdvanceTick
       (Slideshow.set_currentImageIndex c0 2%N) 1,
     [Slideshow.LoadImage "/sdcard/images/b.bmp" false;
      Slideshow.LoadImage "/sdcard/images/c.bmp" true]) /\
  ((0 + 1) mod 3 = 1)%N.
Proof. repeat split; vm_compute; reflexivity. Qed.

(** *** C10 *)

(** C10 (as the code has it). In the state DISPLAYING a press of SELECT
    toggles the auto-advance flag, sets the last-advance tick to the current
    tick, keeps state and list, and renders the current image again: the
    index is unchanged when that image loads or there is nothing to show (a
    failed load makes [displayCurrentImage] move the index on). Afterwards
    the auto-advance step does nothing as long as fewer than the
    auto-advance delay in ticks have passed since the press. What the press
    does to the outside is the indicator (text size 2, black, a white
    rectangle, the cursor, AUTO or MANUAL by the new flag, a refresh), a
    delay of one second, and then the rendering: no load when there is
    nothing to show, otherwise a load of the current image first, nothing
    after it when it succeeds, and only loads of images of the list. The
    indicator goes through [g_display] unchecked, so the press is undefined
    on a null display. *)
Theorem C10_select_toggles (load : string -> bool) (pdMS_TO_TICKS : Z -> Z)
  (now : Z) (evt : Slideshow.SlideshowButtonEvent) (c : Slideshow.Controller) :
  Slideshow.s_state c = Slideshow.DISPLAYING ->
  Slideshow.id evt = Slideshow.SELECT ->
  let c' := fst (Slideshow.handleButton load now evt c) in
  let trace := snd (Slideshow.handleButton load now evt c) in
  Slideshow.s_autoAdvance c' = negb (Slideshow.s_autoAdvance c) /\
  Slideshow.s_lastAutoAdvanceTick c' = now /\
  Slideshow.s_state c' = Slideshow.DISPLAYING /\
  Slideshow.s_imageFiles c' = Slideshow.s_imageFiles c /\
  Slideshow.s_lastActivityTick c' = Slideshow.s_lastActivityTick c /\
  (Slideshow.nothingToShow c = true
   \/ load (Slideshow.imagePath c) = true ->
   Slideshow.s_currentImageIndex c' = Slideshow.s_currentImageIndex c) /\
  (forall t,
     wrap32 (t - now) < pdMS_TO_TICKS (AUTO_ADVANCE_DELAY_SEC * 1000) ->
     Slideshow.autoAdvance load pdMS_TO_TICKS t c' = Some (c', [])) /\
  (exists rendered,
     trace
     = [Slideshow.Panel (SetTextSize 2);
        Slideshow.Panel (SetTextColor EPD_BLACK);
        Slideshow.Panel (FillRect 0 0 128 30 EPD_WHITE);
        Slideshow.Panel (SetCursor 10 10);
        Slideshow.Panel
          (Print (if Slideshow.s_autoAdvance c then "MANUAL" else "AUTO"));
        Slideshow.Panel Display;
        Slideshow.TaskDelay 1000] ++ rendered /\
     (Slideshow.nothingToShow c = true -> rendered = []) /\
     (Slideshow.nothingToShow c = false ->
      exists rest,
        rendered
        = Slideshow.LoadImage (Slideshow.imagePath c)
            (load (Slideshow.imagePath c)) :: rest /\
        (load (Slideshow.imagePath c) = true -> rest = [])) /\
     (forall e, In e rendered ->
        exists path,
          In path (Slideshow.s_imageFiles c) /\
          e = Slideshow.LoadImage path (load path))) /\
  (forall ptrs,
     Slideshow.derefsNull ptrs trace = negb (Slideshow.g_display ptrs)).
Proof.
  intros Hst Hid c' trace. subst c' trace. unfold Slideshow.handleButton.
  rewrite Hst, Hid. cbn [Slideshow.State_eqb negb fst snd].
  set (c2 := Slideshow.set_lastAutoAdvanceTick
               (Slideshow.set_autoAdvance c (negb (Slideshow.s_autoAdvance c)))
               now).
  destruct (displayCurrentImage_frame load c2) as (j & Hj & _).
  assert (Htick : Slideshow.s_lastAutoAdvanceTick
                    (fst (Slideshow.displayCurrentImage load c2)) = now)
    by (rewrite Hj; reflexivity).
  assert (Hstate : Slideshow.s_state
                     (fst (Slideshow.displayCurrentImage load c2))
                   = Slideshow.DISPLAYING)
    by (rewrite Hj; exact Hst).
  split; [rewrite Hj; reflexivity|].
  split; [exact Htick|].
  split; [exact Hstate|].
  split; [rewrite Hj; reflexivity|].
  split; [rewrite Hj; reflexivity|].
  split.
  { intros Hok. rewrite displayCurrentImage_loaded; [reflexivity|exact Hok]. }
  split.
  { intros t Hearly. unfold Slideshow.autoAdvance.
    rewrite Htick, Hstate. cbn [Slideshow.State_eqb andb].
    destruct (Slideshow.s_autoAdvance
                (fst (Slideshow.displayCurrentImage load c2))); [|reflexivity].
    replace (_ <=? _) with false by (symmetry; apply Z.leb_gt; exact Hearly).
    reflexivity. }
  split.
  - exists (snd (Slideshow.displayCurrentImage load c2)). split.
    + cbn [map app Slideshow.s_autoAdvance Slideshow.set_autoAdvance
           Slideshow.set_lastAutoAdvanceTick c2].
      destruct (Slideshow.s_autoAdvance c); reflexivity.
    + exact (displayCurrentImage_trace load c2).
  - intros ptrs. unfold Slideshow.derefsNull.
    cbn [map app existsb Slideshow.usesDisplay orb]. apply andb_true_r.
Qed.

(** SELECT at tick 500 on the first of two loadable images, 100 ticks per
    second: the indicator says AUTO, the first image is loaded again, and
    at tick 1499 no auto-advance happens yet. *)
Lemma C10_select_toggles_witness :
  let c := {| Slideshow.s_state := Slideshow.DISPLAYING;
              Slideshow.s_imageFiles := ["a.bmp"; "b.bmp"]%string;
              Slideshow.s_currentImageIndex := 0%N;
              Slideshow.s_autoAdvance := false;
              Slideshow.s_lastActivityTick := 0;
              Slideshow.s_lastAutoAdvanceTick := 0 |} in
  let evt := {| Slideshow.id := Slideshow.SELECT; Slideshow.pressed := true |} in
  let c' := fst (Slideshow.handleButton (fun _ => true) 500 evt c) in
  let trace := snd (Slideshow.handleButton (fun _ => true) 500 evt c) in
  Slideshow.s_autoAdvance c' = true /\
  Slideshow.s_lastAutoAdvanceTick c' = 500 /\
  Slideshow.s_currentImageIndex c' = 0%N /\
  Slideshow.autoAdvance (fun _ => true) (ticksAt 100) 1499 c' = Some (c', []) /\
  (exists rendered,
     trace
     = [Slideshow.Panel (SetTextSize 2);
        Slideshow.Panel (SetTextColor EPD_BLACK);
        Slideshow.Panel (FillRect 0 0 128 30 EPD_WHITE);
        Slideshow.Panel (SetCursor 10 10);
        Slideshow.Panel (Print "AUTO");
        Slideshow.Panel Display;
        Slideshow.TaskDelay 1000] ++ rendered /\
     rendered = [Slideshow.LoadImage "a.bmp" true]) /\
  Slideshow.derefsNull Slideshow.unset trace = true.
Proof.
  intros c evt c' trace.
  destruct (C10_select_toggles (fun _ => true) (ticksAt 100) 500 evt c
              eq_refl eq_refl)
    as (Hauto & Htick & _ & _ & _ & Hindex & Hearly & Htrace & Hnull).
  split; [exact Hauto|]. split; [exact Htick|].
  split; [apply Hindex; right; reflexivity|].
  split; [apply Hearly; vm_compute; reflexivity|].
  split; [|exact (Hnull Slideshow.unset)].
  destruct Htrace as (rendered & Hshape & _ & Hfirst & _).
  exists rendered. split; [exact Hshape|].
  destruct (Hfirst eq_refl) as (rest & Hrendered & Hrest).
  rewrite Hrendered, (Hrest eq_refl). reflexivity.
Defined.

(** Three files of which only the second loads. After [init] and a press
    of DOWN the index is 0; SELECT then moves it to 1. *)
Lemma C10_counterexample :
  let load := fun p => String.eqb p "/sdcard/images/b.bmp" in
  let card := Fixtures.cardListing
    [ {| SDCard.d_name := "a.bmp"; SDCard.d_type := SDCard.DT_REG |};
      {| SDCard.d_name := "b.bmp"; SDCard.d_type := SDCard.DT_REG |};
      {| SDCard.d_name := "c.bmp"; SDCard.d_type := SDCard.DT_REG |} ] in
  let c0 := fst (fst (Slideshow.init load true true true card 0 0 Slideshow.boot)) in
  let press b := {| Slideshow.id := b; Slideshow.pressed := true |} in
  let c1 := fst (Slideshow.handleButton load 1 (press Slideshow.DOWN) c0) in
  let c2 := fst (Slideshow.handleButton load 2 (press Slideshow.SELECT) c1) in
  Slideshow.s_state c1 = Slideshow.DISPLAYING /\
  Slideshow.s_currentImageIndex c1 = 0%N /\
  Slideshow.s_currentImageIndex c2 = 1%N /\
  Slideshow.s_autoAdvance c2 = true.
Proof. repeat split; vm_compute; reflexivity. Qed.

(** * Further properties of the code *)

(** ** SD card: sizes, reads and the scan on an unavailable volume *)

Lemma scan_count_is_vector_size_facts (card : SDCard.Card) (directory : string) :
  let r := SDCard.scanForImages card directory in
  snd r = N.of_nat (List.length (fst r)) /\
  (snd r <= MAX_IMAGE_FILES)%N /\
  (SDCard.s_mounted card = false \/ SDCard.opendir card directory = None ->
   r = ([], 0%N)).
Proof.
  cbn zeta. unfold SDCard.scanForImages.
  destruct (SDCard.s_mounted card) eqn:Hm; cbn [negb].
  - destruct (SDCard.opendir card directory) as [entries|] eqn:Ho.
    + rewrite scan_loop_spec. cbn [fst snd app].
      rewrite N.add_0_l, length_map. split; [reflexivity|]. split.
      * pose proof (firstn_le_length (N.to_nat (MAX_IMAGE_FILES - 0))
                      (filter wanted entries)) as H.
        unfold MAX_IMAGE_FILES in *. lia.
      * intros [H|H]; discriminate.
    + cbn. split; [reflexivity|]. split; [unfold MAX_IMAGE_FILES; lia|].
      reflexivity.
  - cbn. split; [reflexivity|]. split; [unfold MAX_IMAGE_FILES; lia|].
    reflexivity.
Qed.

(** Whatever the card, the count [scanForImages] returns is the size of the
    vector it filled, at most [MAX_IMAGE_FILES]; on an unmounted card or a
    directory that does not open the vector is left empty. *)
Theorem scan_count_is_vector_size (card : SDCard.Card) (directory : string) :
  let r := SDCard.scanForImages card directory in
  snd r = N.of_nat (List.length (fst r)) /\
  (snd r <= MAX_IMAGE_FILES)%N /\
  (SDCard.s_mounted card = false \/ SDCard.opendir card directory = None ->
   r = ([], 0%N)).
Proof. exact (scan_count_is_vector_size_facts card directory). Qed.

Lemma readFile_prefix_facts (card : SDCard.Card) (filepath : string)
  (bytes : list byte) (maxSize : Z) :
  SDCard.s_mounted card = true ->
  SDCard.fopen card filepath = Some bytes ->
  0 < maxSize < 2 ^ 31 ->
  SDCard.readFile card filepath maxSize
  = (Z.min maxSize (Z.of_nat (List.length bytes)),
     firstn (Z.to_nat maxSize) bytes).
Proof.
  intros Hm Ho Hmax. unfold SDCard.readFile. rewrite Hm, Ho. cbn [negb orb].
  replace (maxSize =? 0) with false by (symmetry; apply Z.eqb_neq; lia).
  f_equal. rewrite length_firstn.
  unfold to_int32, to_signed, wrap. change (2 ^ (32 - 1)) with (2 ^ 31).
  change (2 ^ 31) with 2147483648 in *. change (2 ^ 32) with 4294967296.
  rewrite Z.mod_small by lia.
  replace (_ <? 2147483648) with true by (symmetry; apply Z.ltb_lt; lia).
  lia.
Qed.

Lemma size_then_read_facts (card : SDCard.Card) (filepath : string)
  (bytes : list byte) :
  SDCard.s_mounted card = true ->
  SDCard.fopen card filepath = Some bytes ->
  0 < Z.of_nat (List.length bytes) < 2 ^ 31 ->
  SDCard.getFileSize card filepath = Z.of_nat (List.length bytes) /\
  SDCard.readFile card filepath (SDCard.getFileSize card filepath)
  = (Z.of_nat (List.length bytes), bytes).
Proof.
  intros Hm Ho Hlen.
  assert (Hsize : SDCard.getFileSize card filepath
                  = Z.of_nat (List.length bytes)).
  { unfold SDCard.getFileSize. rewrite Hm, Ho. cbn [negb].
    unfold to_int32, to_signed, wrap. change (2 ^ (32 - 1)) with (2 ^ 31).
    change (2 ^ 31) with 2147483648 in *. change (2 ^ 32) with 4294967296.
    rewrite Z.mod_small by lia.
    replace (_ <? 2147483648) with true by (symmetry; apply Z.ltb_lt; lia).
    reflexivity. }
  split; [exact Hsize|]. rewrite Hsize.
  rewrite (readFile_prefix_facts card filepath bytes) by assumption.
  rewrite Z.min_id, Nat2Z.id, firstn_all. reflexivity.
Qed.

(** ** Image loader: which files fail, and where *)

Section LoaderErrors.

Import ImageLoader.

Lemma to_int32_small z : 0 <= z < 2 ^ 31 -> to_int32 z = z.
Proof.
  intros Hz. unfold to_int32, to_signed, wrap.
  change (2 ^ (32 - 1)) with (2 ^ 31).
  change (2 ^ 31) with 2147483648 in *. change (2 ^ 32) with 4294967296.
  rewrite Z.mod_small by lia.
  replace (z <? 2147483648) with true by (symmetry; apply Z.ltb_lt; lia).
  reflexivity.
Qed.

(** The outcome of the checks on a mounted card, by the file's bytes. *)
Lemma checkFile_mounted card filepath bytes :
  SDCard.s_mounted card = true ->
  SDCard.fopen card filepath = Some bytes ->
  54 <= Z.of_nat (List.length bytes) < 2 ^ 31 ->
  checkFile card filepath =
    if negb (signature (headerOf bytes) =? 0x4D42) then inl InvalidSignature
    else if depthSupported (bitsPerPixel (headerOf bytes))
         then inr (bytes, headerOf bytes)
         else inl UnsupportedBitsPerPixel.
Proof.
  intros Hm Ho Hlen.
  destruct (size_then_read_facts card filepath bytes Hm Ho ltac:(lia))
    as [Hsize Hread].
  apply checkFile_read.
  - rewrite Hsize. unfold sizeof_BMPHeader. lia.
  - rewrite Hread, Hsize. reflexivity.
Qed.

End LoaderErrors.

(** [loadAndDisplayBMP] fails at its file-size check exactly when the card
    is not mounted, the file does not open, or its length read as an
    [int32_t] is below the 54 bytes of the header (shorter files, and files
    of 2 GiB and more whose length wraps negative). *)
Theorem load_fails_on_size `{FloatArith} (card : SDCard.Card)
  (filepath : string) :
  ImageLoader.loadAndDisplayBMP card filepath
    = ImageLoader.Failed ImageLoader.InvalidFileSize
  <-> (SDCard.s_mounted card = false
       \/ SDCard.fopen card filepath = None
       \/ exists bytes,
            SDCard.fopen card filepath = Some bytes /\
            to_int32 (Z.of_nat (List.length bytes)) < 54).
Proof.
  rewrite load_failed_iff.
  unfold ImageLoader.checkFile, SDCard.getFileSize, SDCard.readFile,
    ImageLoader.sizeof_BMPHeader.
  destruct (SDCard.s_mounted card); cbn [negb orb].
  2: { split; [intros _; left; reflexivity | reflexivity]. }
  destruct (SDCard.fopen card filepath) as [bytes|].
  2: { split; [intros _; right; left; reflexivity | reflexivity]. }
  set (n := to_int32 (Z.of_nat (List.length bytes))).
  destruct ((n <? 0) || (n <? 54)) eqn:Hsz.
  - split; [intros _|reflexivity]. right. right. exists bytes.
    split; [reflexivity|]. apply orb_true_iff in Hsz.
    destruct Hsz as [Hs|Hs]; apply Z.ltb_lt in Hs; fold n; lia.
  - apply orb_false_iff in Hsz. destruct Hsz as [_ Hsz]. apply Z.ltb_ge in Hsz.
    replace (n =? 0) with false by (symmetry; apply Z.eqb_neq; lia).
    split.
    + destruct (negb (_ =? n)); [discriminate|].
      destruct (negb (_ =? 19778)); [discriminate|].
      destruct (negb _ && negb _ && negb _ && negb _); discriminate.
    + intros [Hf|[Hf|(b & Hb & Hlt)]]; try discriminate.
      inversion Hb; subst b. fold n in Hlt. lia.
Qed.

(** A file of at least 54 bytes (and below 2 GiB) on a mounted card fails at
    the signature check exactly when it does not start with the two bytes
    'B', 'M'; the depth is looked at only after that. *)
Theorem load_fails_on_signature `{FloatArith} (card : SDCard.Card)
  (filepath : string) (bytes : list byte) :
  SDCard.s_mounted card = true ->
  SDCard.fopen card filepath = Some bytes ->
  54 <= Z.of_nat (List.length bytes) < 2 ^ 31 ->
  (ImageLoader.loadAndDisplayBMP card filepath
     = ImageLoader.Failed ImageLoader.InvalidSignature
   <-> ~ (nth_error bytes 0 = Some "B"%byte /\ nth_error bytes 1 = Some "M"%byte)).
Proof.
  intros Hm Ho Hlen. rewrite load_failed_iff.
  rewrite (checkFile_mounted card filepath bytes Hm Ho Hlen).
  assert (Hsig : ImageLoader.signature (ImageLoader.headerOf bytes) = 0x4D42
                 <-> nth_error bytes 0 = Some "B"%byte
                     /\ nth_error bytes 1 = Some "M"%byte).
  { cbn [ImageLoader.signature ImageLoader.headerOf].
    unfold ImageLoader.u16_at, ImageLoader.load_le, ImageLoader.byte_at.
    destruct (nth_error bytes 0) as [b0|] eqn:H0;
      destruct (nth_error bytes 1) as [b1|] eqn:H1; cbn [option_map].
    - pose proof (Byte.to_N_bounded b0). pose proof (Byte.to_N_bounded b1).
      split.
      + intros E.
        assert (E0 : Byte.to_N b0 = 66%N) by lia.
        assert (E1 : Byte.to_N b1 = 77%N) by lia.
        pose proof (Byte.of_to_N b0) as P0. rewrite E0 in P0.
        pose proof (Byte.of_to_N b1) as P1. rewrite E1 in P1.
        cbn in P0, P1. inversion P0; inversion P1. split; reflexivity.
      + intros [E0 E1]. inversion E0; inversion E1; subst. reflexivity.
    - split; [|intros [_ E]; discriminate].
      pose proof (Byte.to_N_bounded b0). intros E. exfalso. lia.
    - split; [|intros [E _]; discriminate].
      pose proof (Byte.to_N_bounded b1). intros E. exfalso. lia.
    - split; [intros E; discriminate | intros [E _]; discriminate]. }
  destruct (ImageLoader.signature (ImageLoader.headerOf bytes) =? 19778) eqn:E;
    cbn [negb].
  - apply Z.eqb_eq in E. apply Hsig in E. split.
    + destruct (depthSupported _); discriminate.
    + intros Hn. contradiction.
  - apply Z.eqb_neq in E. split; [|reflexivity].
    intros _ Hbm. apply E, Hsig, Hbm.
Qed.

Lemma load_fails_on_signature_witness :
  ImageLoader.loadAndDisplayBMP (H := Binary32.binary32)
    (Fixtures.cardWith Fixtures.photo Fixtures.gray100) Fixtures.photo
    = ImageLoader.Failed ImageLoader.InvalidSignature
  <-> ~ (nth_error Fixtures.gray100 0 = Some "B"%byte
         /\ nth_error Fixtures.gray100 1 = Some "M"%byte).
Proof.
  apply (load_fails_on_signature (H := Binary32.binary32)
           (Fixtures.cardWith Fixtures.photo Fixtures.gray100)
           Fixtures.photo Fixtures.gray100).
  - reflexivity.
  - vm_compute. reflexivity.
  - vm_compute. split; [discriminate | reflexivity].
Defined.

(** ** Image loader: the quantizer *)

(** For 8-bit channels [rgbToEinkColor] decides on the weighted sum
    [30 r + 59 g + 11 b] (the [uint8_t] gray never wraps): black below 8500,
    red from 10100 on when red exceeds 128 and both other channels, white
    otherwise. Red therefore needs [59 g + 11 b >= 2450], and a pure red
    [(r, 0, 0)] is drawn black. *)
Theorem rgbToEinkColor_regions (r g b : Z) :
  0 <= r < 256 -> 0 <= g < 256 -> 0 <= b < 256 ->
  let s := 30 * r + 59 * g + 11 * b in
  (ImageLoader.rgbToEinkColor r g b = EPD_BLACK <-> s < 8500) /\
  (ImageLoader.rgbToEinkColor r g b = EPD_RED
   <-> 10100 <= s /\ 128 < r /\ g < r /\ b < r) /\
  (ImageLoader.rgbToEinkColor r g b = EPD_RED -> 2450 <= 59 * g + 11 * b) /\
  ImageLoader.rgbToEinkColor r 0 0 = EPD_BLACK.
Proof.
  intros Hr Hg Hb s.
  assert (Hgray : forall r' g' b',
            0 <= r' < 256 -> 0 <= g' < 256 -> 0 <= b' < 256 ->
            wrap8 ((r' * 30 + g' * 59 + b' * 11) / 100)
            = (30 * r' + 59 * g' + 11 * b') / 100).
  { intros r' g' b' ? ? ?. unfold wrap8, wrap. change (2 ^ 8) with 256.
    replace (r' * 30 + g' * 59 + b' * 11) with (30 * r' + 59 * g' + 11 * b')
      by lia.
    apply Z.mod_small. Z.div_mod_to_equations. lia. }
  assert (Hmain :
    (ImageLoader.rgbToEinkColor r g b = EPD_BLACK <-> s < 8500) /\
    (ImageLoader.rgbToEinkColor r g b = EPD_RED
     <-> 10100 <= s /\ 128 < r /\ g < r /\ b < r)).
  { unfold ImageLoader.rgbToEinkColor. rewrite Hgray by assumption. fold s.
    destruct (s / 100 <? 85) eqn:E1.
    - apply Z.ltb_lt in E1.
      assert (s < 8500) by (Z.div_mod_to_equations; lia).
      split; [tauto|]. split; [discriminate | lia].
    - apply Z.ltb_ge in E1.
      assert (8500 <= s) by (Z.div_mod_to_equations; lia).
      destruct (128 <? r) eqn:E2, (g <? r) eqn:E3, (b <? r) eqn:E4,
        (100 <? s / 100) eqn:E5; cbn [andb];
        rewrite ?Z.ltb_lt, ?Z.ltb_ge in *;
        (split; [split; [discriminate | lia]|]);
        (split; [try discriminate; intros _ | try reflexivity; intros ?]);
        Z.div_mod_to_equations; lia. }
  destruct Hmain as [Hblack Hred].
  split; [exact Hblack|]. split; [exact Hred|]. split.
  - intros E. apply Hred in E. subst s. lia.
  - unfold ImageLoader.rgbToEinkColor. rewrite Hgray by lia.
    replace (30 * r + 59 * 0 + 11 * 0) with (30 * r) by lia.
    replace (30 * r / 100 <? 85) with true; [reflexivity|].
    symmetry. apply Z.ltb_lt. Z.div_mod_to_equations. lia.
Qed.

Lemma rgbToEinkColor_regions_witness :
  (ImageLoader.rgbToEinkColor 255 100 100 = EPD_BLACK
   <-> 30 * 255 + 59 * 100 + 11 * 100 < 8500) /\
  (ImageLoader.rgbToEinkColor 255 100 100 = EPD_RED
   <-> 10100 <= 30 * 255 + 59 * 100 + 11 * 100
       /\ 128 < 255 /\ 100 < 255 /\ 100 < 255) /\
  (ImageLoader.rgbToEinkColor 255 100 100 = EPD_RED
   -> 2450 <= 59 * 100 + 11 * 100) /\
  ImageLoader.rgbToEinkColor 255 0 0 = EPD_BLACK.
Proof.
  apply (rgbToEinkColor_regions 255 100 100); lia.
Defined.

(** On a gray triple the quantizer thresholds at 85 and never answers red. *)
Theorem rgbToEinkColor_on_gray (g : Z) :
  0 <= g < 256 ->
  (ImageLoader.rgbToEinkColor g g g = EPD_BLACK <-> g < 85) /\
  (ImageLoader.rgbToEinkColor g g g = EPD_WHITE <-> 85 <= g) /\
  ImageLoader.rgbToEinkColor g g g <> EPD_RED.
Proof.
  intros Hg. rewrite (rgbToEinkColor_gray g Hg).
  destruct (g <? 85) eqn:E;
    [apply Z.ltb_lt in E | apply Z.ltb_ge in E];
    repeat split; intros; try discriminate; try reflexivity; lia.
Qed.

Lemma rgbToEinkColor_on_gray_witness :
  (ImageLoader.rgbToEinkColor 100 100 100 = EPD_BLACK <-> 100 < 85) /\
  (ImageLoader.rgbToEinkColor 100 100 100 = EPD_WHITE <-> 85 <= 100) /\
  ImageLoader.rgbToEinkColor 100 100 100 <> EPD_RED.
Proof. apply (rgbToEinkColor_on_gray 100). lia. Defined.

(** ** Image loader: what a successful call sends to the panel *)

Section RenderShape.

Import ImageLoader.

Lemma for_loop_Forall (P : DisplayCall -> Prop) n : forall i body calls,
  (forall j l, body j = Some l -> Forall P l) ->
  for_loop n i body = Some calls -> Forall P calls.
Proof.
  induction n as [|n IH]; intros i body calls Hbody Hrun; cbn [for_loop] in Hrun.
  - inversion Hrun. constructor.
  - destruct (body i) as [l|] eqn:Hb; [|discriminate].
    destruct (for_loop n (i + 1) body) as [more|] eqn:Hm; [|discriminate].
    inversion Hrun; subst. apply Forall_app. split.
    + exact (Hbody _ _ Hb).
    + exact (IH _ _ _ Hbody Hm).
Qed.

Lemma drawRows_pixels `{FloatArith} hdr pixel scale sw sh ox oy calls :
  drawRows hdr pixel scale sw sh ox oy = Some calls ->
  Forall isDrawPixel calls.
Proof.
  unfold drawRows. apply for_loop_Forall. intros y row Hrow.
  destruct (srcRow hdr scale y) as [srcY|]; [|discriminate].
  revert Hrow. apply for_loop_Forall. intros x one Hone.
  destruct (unscale scale x) as [srcX|]; [|discriminate].
  destruct (pixel srcY srcX) as [k|]; [|discriminate].
  inversion Hone. constructor; [|constructor]. unfold isDrawPixel. eauto.
Qed.

(** The calls of [render], by depth. *)
Lemma render_Displayed `{FloatArith} buf hdr calls :
  render buf hdr = Displayed calls ->
  exists pixels,
    calls = ClearBuffer :: pixels ++ [Display] /\
    Forall isDrawPixel pixels /\
    (bitsPerPixel hdr = 4 -> pixels = []) /\
    (forall x y, In (DrawPixel x y EPD_RED) pixels -> bitsPerPixel hdr = 24).
Proof.
  unfold render.
  destruct (to_uint32 _) as [sw|]; [|discriminate].
  destruct (to_uint32 _) as [sh|]; [|discriminate].
  destruct (bitsPerPixel hdr =? 24) eqn:E24.
  { apply Z.eqb_eq in E24.
    match goal with
    | |- match ?d with Some _ => _ | None => _ end = _ -> _ =>
        destruct d as [drawn|] eqn:Hd; [|discriminate]
    end.
    intros E. inversion E. exists drawn. split; [reflexivity|].
    split; [exact (drawRows_pixels _ _ _ _ _ _ _ _ Hd)|].
    split; [lia | intros; exact E24]. }
  destruct (bitsPerPixel hdr =? 8) eqn:E8.
  { apply Z.eqb_eq in E8.
    match goal with
    | |- match ?d with Some _ => _ | None => _ end = _ -> _ =>
        destruct d as [drawn|] eqn:Hd; [|discriminate]
    end.
    intros E. inversion E. exists drawn. split; [reflexivity|].
    split; [exact (drawRows_pixels _ _ _ _ _ _ _ _ Hd)|].
    split; [lia|]. intros x y Hin. exfalso.
    destruct (drawRows_In _ _ _ _ _ _ _ _ _ Hd Hin)
      as (x' & y' & srcY & srcX & k & Hpix & Hk).
    inversion Hk; subst k. unfold pixel8 in Hpix.
    destruct (pixelData _ _ _) as [v|]; [|discriminate].
    unfold gray8Color in Hpix. destruct (v <? 128); discriminate. }
  destruct (bitsPerPixel hdr =? 1) eqn:E1.
  { apply Z.eqb_eq in E1.
    match goal with
    | |- match ?d with Some _ => _ | None => _ end = _ -> _ =>
        destruct d as [drawn|] eqn:Hd; [|discriminate]
    end.
    intros E. inversion E. exists drawn. split; [reflexivity|].
    split; [exact (drawRows_pixels _ _ _ _ _ _ _ _ Hd)|].
    split; [lia|]. intros x y Hin. exfalso.
    destruct (drawRows_In _ _ _ _ _ _ _ _ _ Hd Hin)
      as (x' & y' & srcY & srcX & k & Hpix & Hk).
    inversion Hk; subst k. unfold pixel1 in Hpix.
    destruct (pixelData _ _ _) as [v|]; [|discriminate].
    unfold bit1Color in Hpix. destruct (_ =? 0); discriminate. }
  intros E. inversion E. exists []. split; [reflexivity|].
  split; [constructor|]. split; [reflexivity|]. intros x y [].
Qed.

End RenderShape.

(** A call that returns [true] clears the buffer first, then only draws
    pixels, and refreshes the panel once, at the end. Red pixels come from
    24-bit files only; a 4-bit file draws no pixel at all. *)
Theorem load_clears_draws_refreshes `{FloatArith} (card : SDCard.Card)
  (filepath : string) (buf : list byte) (hdr : ImageLoader.BMPHeader)
  (calls : list DisplayCall) :
  ImageLoader.checkFile card filepath = inr (buf, hdr) ->
  ImageLoader.loadAndDisplayBMP card filepath = ImageLoader.Displayed calls ->
  exists pixels,
    calls = ClearBuffer :: pixels ++ [Display] /\
    Forall isDrawPixel pixels /\
    (ImageLoader.bitsPerPixel hdr = 4 -> pixels = []) /\
    (forall x y, In (DrawPixel x y EPD_RED) pixels ->
                 ImageLoader.bitsPerPixel hdr = 24).
Proof.
  intros Hchk Hload. rewrite (load_passed _ _ _ _ Hchk) in Hload.
  exact (render_Displayed _ _ _ Hload).
Qed.

Lemma load_clears_draws_refreshes_witness :
  exists pixels,
    [ClearBuffer; Display] = ClearBuffer :: pixels ++ [Display] /\
    Forall isDrawPixel pixels /\
    (ImageLoader.bitsPerPixel (ImageLoader.headerOf Fixtures.nibble) = 4 ->
     pixels = []) /\
    (forall x y, In (DrawPixel x y EPD_RED) pixels ->
                 ImageLoader.bitsPerPixel (ImageLoader.headerOf Fixtures.nibble)
                 = 24).
Proof.
  apply (load_clears_draws_refreshes (H := Binary32.binary32)
           (Fixtures.cardWith Fixtures.photo Fixtures.nibble) Fixtures.photo
           Fixtures.nibble (ImageLoader.headerOf Fixtures.nibble)
           [ClearBuffer; Display]).
  - vm_compute. reflexivity.
  - vm_compute. reflexivity.
Defined.

(** ** Image loader: source pixels *)

Section SourcePixels.

Import ImageLoader.

Lemma byte_at_Some buf off :
  (off < List.length buf)%nat -> exists v, byte_at buf off = Some v.
Proof.
  intros H. unfold byte_at.
  destruct (nth_error buf off) as [b|] eqn:E.
  - eexists. reflexivity.
  - apply nth_error_None in E. lia.
Qed.

Lemma pixelData_Some buf hdr off :
  0 <= dataOffset hdr -> 0 <= off ->
  dataOffset hdr + off < Z.of_nat (List.length buf) ->
  exists v, pixelData buf hdr off = Some v.
Proof.
  intros H0 H1 H2. unfold pixelData. apply byte_at_Some. lia.
Qed.

Lemma load_le_nonneg n : forall buf off, 0 <= load_le n buf off.
Proof.
  induction n as [|n IH]; intros buf off; cbn [load_le]; [lia|].
  specialize (IH buf (S off)).
  destruct (byte_at buf off) as [v|] eqn:E; [|lia].
  apply byte_at_range in E. lia.
Qed.

Lemma dataOffset_nonneg buf : 0 <= dataOffset (headerOf buf).
Proof. cbn [dataOffset headerOf]. apply load_le_nonneg. Qed.

End SourcePixels.

(** For a source position inside the image, each depth's fetch stays inside
    the file buffer, provided the buffer holds [imgHeight] rows of the
    depth's stride behind [dataOffset] and the byte count of the pixel array
    fits 32 bits. (The decoder itself never checks that the buffer is that
    long.) *)
Theorem pixel_fetch_in_bounds (buf : list byte) (srcY srcX : Z) :
  let hdr := ImageLoader.headerOf buf in
  let w := ImageLoader.absDim (ImageLoader.width hdr) in
  let h := ImageLoader.absDim (ImageLoader.height hdr) in
  let fits rowSize :=
    h * rowSize < 2 ^ 32 /\
    ImageLoader.dataOffset hdr + h * rowSize <= Z.of_nat (List.length buf) in
  0 <= srcX < w -> 0 <= srcY < h ->
  (3 * w + 3 < 2 ^ 32 -> fits (ImageLoader.rowSize24 w) ->
   exists color, ImageLoader.pixel24 buf hdr srcY srcX = Some color) /\
  (fits (ImageLoader.rowSize8 w) ->
   exists color, ImageLoader.pixel8 buf hdr srcY srcX = Some color) /\
  (fits (ImageLoader.rowSize1 w) ->
   exists color, ImageLoader.pixel1 buf hdr srcY srcX = Some color).
Proof.
  intros hdr w h fits Hx Hy.
  pose proof (dataOffset_nonneg buf) as Hoff. fold hdr in Hoff.
  pose proof (row_stride_facts buf) as Hstride.
  fold hdr in Hstride. fold w in Hstride. cbn zeta in Hstride.
  destruct Hstride as (H8 & H1 & _ & H24).
  assert (Hw : 0 <= w <= 2 ^ 31).
  { apply absDim_range. cbn [ImageLoader.width ImageLoader.headerOf].
    apply to_int32_range. }
  change (2 ^ 31) with 2147483648 in Hw.
  change (2 ^ 32) with 4294967296 in *.
  split; [|split].
  - intros Hfit3 [Hfit Hlen].
    assert (E : ImageLoader.rowSize24 w = (3 * w + 3) / 4 * 4)
      by (rewrite (H24 Hfit3); apply spec_stride_24).
    unfold ImageLoader.pixel24. fold hdr w. rewrite E in *.
    set (rs := (3 * w + 3) / 4 * 4) in *.
    assert (Hrs : 3 * w <= rs) by (subst rs; Z.div_mod_to_equations; lia).
    assert (Hrow : srcY * rs + rs <= h * rs) by nia.
    assert (Hlo : 0 <= srcY * rs) by nia.
    rewrite (wrap32_small (srcY * rs + srcX * 3))
      by (change (2 ^ 32) with 4294967296; lia).
    rewrite (wrap32_small (srcY * rs + srcX * 3 + 1))
      by (change (2 ^ 32) with 4294967296; lia).
    rewrite (wrap32_small (srcY * rs + srcX * 3 + 2))
      by (change (2 ^ 32) with 4294967296; lia).
    destruct (pixelData_Some buf hdr (srcY * rs + srcX * 3)) as [b ->]; try lia.
    destruct (pixelData_Some buf hdr (srcY * rs + srcX * 3 + 1)) as [g ->];
      try lia.
    destruct (pixelData_Some buf hdr (srcY * rs + srcX * 3 + 2)) as [r ->];
      try lia.
    eexists. reflexivity.
  - intros [Hfit Hlen].
    assert (E : ImageLoader.rowSize8 w = (w + 3) / 4 * 4)
      by (rewrite H8; apply spec_stride_8).
    unfold ImageLoader.pixel8. fold hdr w. rewrite E in *.
    set (rs := (w + 3) / 4 * 4) in *.
    assert (Hrs : w <= rs) by (subst rs; Z.div_mod_to_equations; lia).
    assert (Hrow : srcY * rs + rs <= h * rs) by nia.
    assert (Hlo : 0 <= srcY * rs) by nia.
    rewrite (wrap32_small (srcY * rs + srcX))
      by (change (2 ^ 32) with 4294967296; lia).
    destruct (pixelData_Some buf hdr (srcY * rs + srcX)) as [v ->]; try lia.
    eexists. reflexivity.
  - intros [Hfit Hlen].
    assert (E : ImageLoader.rowSize1 w = ((w + 7) / 8 + 3) / 4 * 4)
      by (rewrite H1; apply spec_stride_1).
    unfold ImageLoader.pixel1. fold hdr w. rewrite E in *.
    set (rs := ((w + 7) / 8 + 3) / 4 * 4) in *.
    assert (Hrs : srcX / 8 < rs) by (subst rs; Z.div_mod_to_equations; lia).
    assert (Hq : 0 <= srcX / 8) by (Z.div_mod_to_equations; lia).
    assert (Hrow : srcY * rs + rs <= h * rs) by nia.
    assert (Hlo : 0 <= srcY * rs) by nia.
    rewrite (wrap32_small (srcY * rs + srcX / 8))
      by (change (2 ^ 32) with 4294967296; lia).
    destruct (pixelData_Some buf hdr (srcY * rs + srcX / 8)) as [v ->]; try lia.
    eexists. reflexivity.
Qed.

Lemma pixel_fetch_in_bounds_witness :
  exists color,
    ImageLoader.pixel8 Fixtures.gray100
      (ImageLoader.headerOf Fixtures.gray100) 0 5 = Some color.
Proof.
  refine (proj1 (proj2 (pixel_fetch_in_bounds Fixtures.gray100 0 5 _ _)) _).
  - vm_compute. split; [discriminate | reflexivity].
  - vm_compute. split; [discriminate | reflexivity].
  - vm_compute. split; [reflexivity | discriminate].
Defined.

(** The 1-bit loop reads its pixels most significant bit first: the pixel at
    column [srcX] is bit [7 - srcX mod 8] of byte [srcX / 8] of its row, drawn
    black when the bit is set and white when it is clear. *)
Theorem pixel1_msb_first (buf : list byte) (hdr : ImageLoader.BMPHeader)
  (srcY srcX : Z) (color : Color) :
  ImageLoader.pixel1 buf hdr srcY srcX = Some color ->
  exists v,
    ImageLoader.pixelData buf hdr
      (wrap32 (srcY * ImageLoader.rowSize1
                         (ImageLoader.absDim (ImageLoader.width hdr))
               + srcX / 8)) = Some v /\
    (color = EPD_BLACK <-> Z.testbit v (7 - srcX mod 8) = true) /\
    (color = EPD_WHITE <-> Z.testbit v (7 - srcX mod 8) = false).
Proof.
  assert (Hk : wrap8 (7 - srcX mod 8) = 7 - srcX mod 8).
  { unfold wrap8, wrap. change (2 ^ 8) with 256. apply Z.mod_small.
    pose proof (Z.mod_pos_bound srcX 8 ltac:(lia)). lia. }
  assert (Hbit : forall v, Z.land (Z.shiftr v (7 - srcX mod 8)) 1
                           = Z.b2z (Z.testbit v (7 - srcX mod 8))).
  { intros v. change 1 with (Z.ones 1). rewrite Z.land_ones by lia.
    change (2 ^ 1) with 2. rewrite <- Z.bit0_mod.
    rewrite Z.shiftr_spec by lia. rewrite Z.add_0_l. reflexivity. }
  unfold ImageLoader.pixel1. rewrite Hk.
  destruct (ImageLoader.pixelData buf hdr _) as [v|]; [|discriminate].
  rewrite Hbit. unfold ImageLoader.bit1Color.
  intros E. exists v. split; [reflexivity|].
  destruct (Z.testbit v (7 - srcX mod 8)); cbn [Z.b2z Z.eqb] in E;
    injection E as <-;
    split; split; intros; try discriminate; reflexivity.
Qed.

(** The 128x2 file whose first stored row is all ones: column 9 of that row
    is bit 6 of its second byte. *)
Lemma pixel1_msb_first_witness :
  exists v,
    ImageLoader.pixelData
      (Fixtures.bmpFile 128 2 1 0 (repeat 255 16 ++ repeat 0 16))
      (ImageLoader.headerOf
         (Fixtures.bmpFile 128 2 1 0 (repeat 255 16 ++ repeat 0 16)))
      (wrap32 (0 * ImageLoader.rowSize1
                     (ImageLoader.absDim
                        (ImageLoader.width
                           (ImageLoader.headerOf
                              (Fixtures.bmpFile 128 2 1 0
                                 (repeat 255 16 ++ repeat 0 16)))))
               + 9 / 8)) = Some v /\
    (EPD_BLACK = EPD_BLACK <-> Z.testbit v (7 - 9 mod 8) = true) /\
    (EPD_BLACK = EPD_WHITE <-> Z.testbit v (7 - 9 mod 8) = false).
Proof.
  apply (pixel1_msb_first
           (Fixtures.bmpFile 128 2 1 0 (repeat 255 16 ++ repeat 0 16))
           (ImageLoader.headerOf
              (Fixtures.bmpFile 128 2 1 0 (repeat 255 16 ++ repeat 0 16)))
           0 9 EPD_BLACK).
  vm_compute. reflexivity.
Defined.

(** ** Slideshow controller: rendering with skips *)

Section MoreControllerFacts.

Import Slideshow.

Variable load : string -> bool.
Variable pdMS_TO_TICKS : Z -> Z.

Lemma displayCurrentImage_lastActivity c :
  s_lastActivityTick (fst (displayCurrentImage load c)) = s_lastActivityTick c
  /\ s_autoAdvance (fst (displayCurrentImage load c)) = s_autoAdvance c
  /\ s_lastAutoAdvanceTick (fst (displayCurrentImage load c))
     = s_lastAutoAdvanceTick c.
Proof.
  destruct (displayCurrentImage_frame load c) as (j & Hj & _).
  rewrite Hj. repeat split.
Qed.

Lemma handleButton_lastActivity now evt c :
  s_lastActivityTick (fst (handleButton load now evt c)) = s_lastActivityTick c.
Proof.
  unfold handleButton.
  destruct (negb (State_eqb (s_state c) DISPLAYING)); [reflexivity|].
  destruct (id evt).
  - destruct (0 <? imageCount c)%N; [|reflexivity]. cbn [fst].
    change (s_lastActivityTick (set_lastAutoAdvanceTick ?x now))
      with (s_lastActivityTick x).
    apply (displayCurrentImage_lastActivity
             (set_currentImageIndex c (prevIndex c))).
  - cbn [fst].
    apply (displayCurrentImage_lastActivity
             (set_lastAutoAdvanceTick
                (set_autoAdvance c (negb (s_autoAdvance c))) now)).
  - destruct (0 <? imageCount c)%N; [|reflexivity]. cbn [fst].
    change (s_lastActivityTick (set_lastAutoAdvanceTick ?x now))
      with (s_lastActivityTick x).
    apply (displayCurrentImage_lastActivity
             (set_currentImageIndex c (nextIndex c))).
Qed.

Lemma autoAdvance_lastActivity now c r :
  autoAdvance load pdMS_TO_TICKS now c = Some r ->
  s_lastActivityTick (fst r) = s_lastActivityTick c.
Proof.
  unfold autoAdvance.
  destruct (State_eqb (s_state c) DISPLAYING && s_autoAdvance c);
    [|intros [= <-]; reflexivity].
  destruct (_ <=? _); [|intros [= <-]; reflexivity].
  destruct (imageCount c =? 0)%N; [discriminate|].
  intros [= <-]. cbn [fst].
  change (s_lastActivityTick (set_lastAutoAdvanceTick ?x now))
    with (s_lastActivityTick x).
  apply (displayCurrentImage_lastActivity
           (set_currentImageIndex c (nextIndex c))).
Qed.

Lemma handleButton_idle now evt c :
  s_state c <> DISPLAYING -> handleButton load now evt c = (c, []).
Proof.
  intros Hst. unfold handleButton.
  destruct (s_state c); try reflexivity. contradiction.
Qed.

Lemma autoAdvance_idle now c :
  s_state c <> DISPLAYING ->
  autoAdvance load pdMS_TO_TICKS now c = Some (c, []).
Proof.
  intros Hst. unfold autoAdvance.
  destruct (s_state c); try reflexivity. contradiction.
Qed.

Lemma set_lastActivityTick_twice c a b :
  set_lastActivityTick (set_lastActivityTick c a) b = set_lastActivityTick c b.
Proof. reflexivity. Qed.

Lemma set_lastActivityTick_same c :
  set_lastActivityTick c (s_lastActivityTick c) = c.
Proof. destruct c; reflexivity. Qed.

End MoreControllerFacts.

(** From the current index on, [displayCurrentImage] tries the images in
    list order and stops at the first that loads: the index ends there, the
    earlier ones are each tried once and fail, and images before the
    starting index are not tried. *)
Theorem displayCurrentImage_first_loadable (load : string -> bool)
  (c : Slideshow.Controller) (j : nat) :
  let i := N.to_nat (Slideshow.s_currentImageIndex c) in
  let image k := nth k (Slideshow.s_imageFiles c) EmptyString in
  (i <= j < N.to_nat (Slideshow.imageCount c))%nat ->
  load (image j) = true ->
  (forall k, (i <= k < j)%nat -> load (image k) = false) ->
  Slideshow.displayCurrentImage load c
  = (Slideshow.set_currentImageIndex c (N.of_nat j),
     map (fun k => Slideshow.LoadImage (image k) false) (seq i (j - i))
     ++ [Slideshow.LoadImage (image j) true]).
Proof.
  intros i image. subst i image.
  remember (j - N.to_nat (Slideshow.s_currentImageIndex c))%nat as n eqn:Hn.
  revert c Hn. induction n as [|n IH]; intros c Hn Hj Hok Hfail.
  - assert (E : N.to_nat (Slideshow.s_currentImageIndex c) = j) by lia.
    rewrite displayCurrentImage_unfold.
    rewrite nothingToShow_false by lia.
    unfold Slideshow.imagePath. rewrite E, Hok. cbn [seq map app].
    f_equal. rewrite <- E, N2Nat.id.
    symmetry. apply set_currentImageIndex_same.
  - assert (Hi : (Slideshow.s_currentImageIndex c < Slideshow.imageCount c)%N)
      by lia.
    rewrite displayCurrentImage_unfold, (nothingToShow_false _ Hi).
    unfold Slideshow.imagePath at 1. rewrite Hfail by lia.
    destruct (nextIndex_cases c Hi) as [[Hend Hnext]|[Hmore Hnext]]; [lia|].
    rewrite Hnext.
    replace (Slideshow.s_currentImageIndex c + 1 =? 0)%N with false
      by (symmetry; apply N.eqb_neq; lia).
    cbn zeta.
    rewrite (IH (Slideshow.set_currentImageIndex c
                   (Slideshow.s_currentImageIndex c + 1)%N)).
    + cbn [fst snd seq map app]. unfold Slideshow.imagePath.
      cbn [Slideshow.s_currentImageIndex Slideshow.s_imageFiles
           Slideshow.set_currentImageIndex].
      replace (N.to_nat (Slideshow.s_currentImageIndex c + 1))
        with (S (N.to_nat (Slideshow.s_currentImageIndex c))) by lia.
      reflexivity.
    + cbn [Slideshow.s_currentImageIndex Slideshow.set_currentImageIndex]. lia.
    + change (Slideshow.imageCount
                (Slideshow.set_currentImageIndex c
                   (Slideshow.s_currentImageIndex c + 1)%N))
        with (Slideshow.imageCount c).
      cbn [Slideshow.s_currentImageIndex Slideshow.set_currentImageIndex]. lia.
    + exact Hok.
    + cbn [Slideshow.s_currentImageIndex Slideshow.s_imageFiles
           Slideshow.set_currentImageIndex].
      intros k Hk. apply Hfail. lia.
Qed.

(** Four files of which only the last loads, starting at the second. *)
Lemma displayCurrentImage_first_loadable_witness :
  let c := {| Slideshow.s_state := Slideshow.DISPLAYING;
              Slideshow.s_imageFiles := ["a"; "b"; "c"; "d"]%string;
              Slideshow.s_currentImageIndex := 1%N;
              Slideshow.s_autoAdvance := false;
              Slideshow.s_lastActivityTick := 0;
              Slideshow.s_lastAutoAdvanceTick := 0 |} in
  Slideshow.displayCurrentImage (fun p => String.eqb p "d") c
  = (Slideshow.set_currentImageIndex c 3%N,
     [Slideshow.LoadImage "b" false; Slideshow.LoadImage "c" false;
      Slideshow.LoadImage "d" true]).
Proof.
  intros c.
  apply (displayCurrentImage_first_loadable (fun p => String.eqb p "d") c 3).
  - cbn. lia.
  - reflexivity.
  - intros k Hk. cbn in Hk.
    destruct k as [|[|[|k]]]; try reflexivity; lia.
Defined.

(** ** Slideshow controller: navigation, idling and sleep *)

Section NavigationRoundTrip.

Import Slideshow.

Variable load : string -> bool.

Lemma handleButton_state now evt c :
  s_state (fst (handleButton load now evt c)) = s_state c
  /\ s_imageFiles (fst (handleButton load now evt c)) = s_imageFiles c.
Proof.
  destruct (handleButton_keeps load now evt c) as (Hf & Hs & _). tauto.
Qed.

Lemma mod_prev_next (i n : N) : (i < n)%N ->
  (((i + n - 1) mod n + 1) mod n = i)%N.
Proof.
  intros Hi. destruct (N.eq_dec i 0) as [->|Hz].
  - rewrite N.add_0_l, (N.mod_small (n - 1)) by lia.
    replace (n - 1 + 1)%N with n by lia. apply N.Div0.mod_same.
  - replace (i + n - 1)%N with (i - 1 + 1 * n)%N by lia.
    rewrite N.Div0.mod_add, (N.mod_small (i - 1)) by lia.
    replace (i - 1 + 1)%N with i by lia. apply N.mod_small. exact Hi.
Qed.

Lemma mod_next_prev (i n : N) : (i < n)%N ->
  (((i + 1) mod n + n - 1) mod n = i)%N.
Proof.
  intros Hi. destruct (N.eq_dec (i + 1) n) as [E|E].
  - rewrite E, N.Div0.mod_same, N.add_0_l.
    replace (n - 1)%N with i by lia. apply N.mod_small. exact Hi.
  - rewrite (N.mod_small (i + 1)) by lia.
    replace (i + 1 + n - 1)%N with (i + 1 * n)%N by lia.
    rewrite N.Div0.mod_add. apply N.mod_small. exact Hi.
Qed.

End NavigationRoundTrip.

(** When every image of the list loads, DOWN undoes UP and UP undoes DOWN:
    either pair of presses brings the index back to where it was. *)
Theorem up_down_round_trip (load : string -> bool) (t1 t2 : Z)
  (up down : Slideshow.SlideshowButtonEvent) (c : Slideshow.Controller) :
  Slideshow.s_state c = Slideshow.DISPLAYING ->
  Slideshow.id up = Slideshow.UP -> Slideshow.id down = Slideshow.DOWN ->
  (Slideshow.s_currentImageIndex c < Slideshow.imageCount c)%N ->
  Forall (fun path => load path = true) (Slideshow.s_imageFiles c) ->
  Slideshow.s_currentImageIndex
    (fst (Slideshow.handleButton load t2 down
            (fst (Slideshow.handleButton load t1 up c))))
  = Slideshow.s_currentImageIndex c /\
  Slideshow.s_currentImageIndex
    (fst (Slideshow.handleButton load t2 up
            (fst (Slideshow.handleButton load t1 down c))))
  = Slideshow.s_currentImageIndex c.
Proof.
  intros Hst Hup Hdown Hi Hall.
  set (n := Slideshow.imageCount c) in *.
  assert (Hok : forall k, (k < n)%N ->
            load (nth (N.to_nat k) (Slideshow.s_imageFiles c) EmptyString)
            = true).
  { intros k Hk. rewrite Forall_forall in Hall. apply Hall, nth_In.
    unfold n, Slideshow.imageCount, size, size_wrap in Hk.
    pose proof (N.Div0.mod_le
                  (N.of_nat (List.length (Slideshow.s_imageFiles c)))
                  (2 ^ 32)%N).
    lia. }
  split.
  - set (c1 := fst (Slideshow.handleButton load t1 up c)).
    destruct (handleButton_state load t1 up c) as [Hs1 Hf1]. fold c1 in Hs1, Hf1.
    assert (Hn1 : Slideshow.imageCount c1 = n)
      by (unfold Slideshow.imageCount; rewrite Hf1; reflexivity).
    assert (Hi1 : Slideshow.s_currentImageIndex c1
                  = ((Slideshow.s_currentImageIndex c + n - 1) mod n)%N)
      by (apply up_lands; auto; apply Hok, N.mod_lt; lia).
    rewrite down_lands.
    + rewrite Hn1, Hi1. apply mod_prev_next. exact Hi.
    + congruence.
    + exact Hdown.
    + rewrite Hn1, Hi1. apply N.mod_lt. lia.
    + rewrite Hf1, Hn1. apply Hok, N.mod_lt. lia.
  - set (c1 := fst (Slideshow.handleButton load t1 down c)).
    destruct (handleButton_state load t1 down c) as [Hs1 Hf1].
    fold c1 in Hs1, Hf1.
    assert (Hn1 : Slideshow.imageCount c1 = n)
      by (unfold Slideshow.imageCount; rewrite Hf1; reflexivity).
    assert (Hi1 : Slideshow.s_currentImageIndex c1
                  = ((Slideshow.s_currentImageIndex c + 1) mod n)%N)
      by (apply down_lands; auto; apply Hok, N.mod_lt; lia).
    rewrite up_lands.
    + rewrite Hn1, Hi1. apply mod_next_prev. exact Hi.
    + congruence.
    + exact Hup.
    + rewrite Hn1, Hi1. apply N.mod_lt. lia.
    + rewrite Hf1, Hn1. apply Hok, N.mod_lt. lia.
Qed.

(** Three files and a loader that accepts them and nothing else, from the
    first image. *)
Lemma up_down_round_trip_witness :
  let c := {| Slideshow.s_state := Slideshow.DISPLAYING;
              Slideshow.s_imageFiles := ["a"; "b"; "c"]%string;
              Slideshow.s_currentImageIndex := 0%N;
              Slideshow.s_autoAdvance := false;
              Slideshow.s_lastActivityTick := 0;
              Slideshow.s_lastAutoAdvanceTick := 0 |} in
  let load path :=
    String.eqb path "a" || String.eqb path "b" || String.eqb path "c" in
  let press b := {| Slideshow.id := b; Slideshow.pressed := true |} in
  Slideshow.s_currentImageIndex
    (fst (Slideshow.handleButton load 2 (press Slideshow.DOWN)
            (fst (Slideshow.handleButton load 1 (press Slideshow.UP) c))))
  = 0%N /\
  Slideshow.s_currentImageIndex
    (fst (Slideshow.handleButton load 2 (press Slideshow.UP)
            (fst (Slideshow.handleButton load 1 (press Slideshow.DOWN) c))))
  = 0%N.
Proof.
  intros c load press.
  apply (up_down_round_trip load 1 2 (press Slideshow.UP)
           (press Slideshow.DOWN) c); try reflexivity.
  repeat constructor.
Defined.

Lemma task_idle_facts (load : string -> bool)
  (pdMS_TO_TICKS : Z -> Z) (ptrs : Slideshow.Pointers)
  (inputs : list (Slideshow.Ticks * option Slideshow.SlideshowButtonEvent))
  (c : Slideshow.Controller) :
  Slideshow.s_state c <> Slideshow.DISPLAYING ->
  match Slideshow.task load pdMS_TO_TICKS ptrs inputs c with
  | Slideshow.Running c' trace =>
      trace = [] /\
      c' = Slideshow.set_lastActivityTick c (Slideshow.s_lastActivityTick c')
      /\ (inputs = [] \/ Slideshow.s_buttonQueue ptrs = true)
  | Slideshow.DeepSleep c' trace =>
      trace = Slideshow.goToSleep /\
      c' = Slideshow.set_lastActivityTick c (Slideshow.s_lastActivityTick c')
      /\ Slideshow.s_buttonQueue ptrs = true
      /\ Slideshow.g_display ptrs = true
  | Slideshow.DivisionByZero => False
  | Slideshow.NullPointer =>
      inputs <> [] /\
      (Slideshow.s_buttonQueue ptrs = false
       \/ Slideshow.g_display ptrs = false)
  end.
Proof.
  revert c. induction inputs as [|[tk received] rest IH]; intros c Hst.
  - cbn. split; [reflexivity|].
    split; [symmetry; apply set_lastActivityTick_same|]. left. reflexivity.
  - cbn [Slideshow.task]. unfold Slideshow.task_iteration.
    destruct (Slideshow.s_buttonQueue ptrs) eqn:Hq; cbn [negb];
      [|split; [discriminate|left; reflexivity]].
    assert (Hp : exists t,
               Slideshow.processButton (Slideshow.loaderWith ptrs load) tk
                 received c
               = (Slideshow.set_lastActivityTick c t, [])).
    { unfold Slideshow.processButton.
      destruct received as [e|].
      - destruct (Slideshow.pressed e).
        + exists (Slideshow.t_activity tk).
          apply handleButton_idle. exact Hst.
        + exists (Slideshow.s_lastActivityTick c).
          rewrite set_lastActivityTick_same. reflexivity.
      - exists (Slideshow.s_lastActivityTick c).
        rewrite set_lastActivityTick_same. reflexivity. }
    destruct Hp as [t Hp]. rewrite Hp. cbn [fst snd].
    rewrite autoAdvance_idle by exact Hst. cbn [fst snd app].
    unfold Slideshow.derefsNull at 1 2. cbn [existsb].
    rewrite andb_false_r.
    destruct (Slideshow.sleepDue _ _ _).
    + unfold Slideshow.derefsNull.
      destruct (Slideshow.g_display ptrs) eqn:Hd; cbn [negb andb].
      * repeat split; reflexivity.
      * change (existsb Slideshow.usesDisplay Slideshow.goToSleep) with true.
        cbn iota. split; [discriminate|right; reflexivity].
    + specialize (IH (Slideshow.set_lastActivityTick c t) Hst).
      destruct (Slideshow.task load pdMS_TO_TICKS ptrs rest
                  (Slideshow.set_lastActivityTick c t))
        as [c2 tr2|c2 tr2| |]; [| |exact IH|].
      * destruct IH as (Htr & Hc & _). split; [exact Htr|].
        split; [|right; reflexivity].
        rewrite Hc at 1. apply set_lastActivityTick_twice.
      * destruct IH as (Htr & Hc & Hrest). split; [exact Htr|].
        split; [|exact Hrest].
        rewrite Hc at 1. apply set_lastActivityTick_twice.
      * destruct IH as (_ & Hnull). split; [discriminate|exact Hnull].
Qed.



(** One pass of the task loop, the queue and the display created, decides
    on sleep by the time since the last press alone: the last-activity tick after the pass is the tick of the
    press received in it, if any, and otherwise the old one (a release
    event, an auto-advance or a render do not count), and the device goes to
    sleep exactly when the inactivity delay has passed since then. *)
Theorem sleep_follows_last_press (load : string -> bool)
  (pdMS_TO_TICKS : Z -> Z) (tk : Slideshow.Ticks)
  (received : option Slideshow.SlideshowButtonEvent)
  (c : Slideshow.Controller) :
  (Slideshow.imageCount c <> 0)%N ->
  let last :=
    match received with
    | Some e => if Slideshow.pressed e then Slideshow.t_activity tk
                else Slideshow.s_lastActivityTick c
    | None => Slideshow.s_lastActivityTick c
    end in
  let idle := wrap32 (Slideshow.t_idle tk - last) in
  let timeout := pdMS_TO_TICKS (INACTIVITY_TIMEOUT_SEC * 1000) in
  match Slideshow.task_iteration load pdMS_TO_TICKS Slideshow.ready tk
          received c with
  | Slideshow.Running c' _ =>
      idle < timeout /\ Slideshow.s_lastActivityTick c' = last
  | Slideshow.DeepSleep c' trace =>
      timeout <= idle /\ Slideshow.s_lastActivityTick c' = last /\
      exists before, trace = before ++ Slideshow.goToSleep
  | Slideshow.DivisionByZero => False
  | Slideshow.NullPointer => False
  end.
Proof.
  intros Hn last idle timeout. rewrite task_iteration_ready. cbn zeta.
  pose proof (processButton_keeps load tk received c) as Hk1.
  assert (H1 : Slideshow.s_lastActivityTick
                 (fst (Slideshow.processButton load tk received c)) = last).
  { subst last. unfold Slideshow.processButton.
    destruct received as [e|]; [|reflexivity].
    destruct (Slideshow.pressed e); [|reflexivity].
    rewrite handleButton_lastActivity. reflexivity. }
  destruct (autoAdvance_keeps load pdMS_TO_TICKS (Slideshow.t_auto tk)
              (fst (Slideshow.processButton load tk received c)))
    as (r2 & Hr2 & _).
  { rewrite (keeps_count _ _ Hk1). exact Hn. }
  rewrite Hr2.
  pose proof (autoAdvance_lastActivity _ _ _ _ _ Hr2) as H2.
  rewrite H1 in H2.
  unfold Slideshow.sleepDue. rewrite H2. fold idle timeout.
  destruct (timeout <=? idle) eqn:E.
  - apply Z.leb_le in E. split; [exact E|]. split; [exact H2|].
    exists (snd (Slideshow.processButton load tk received c) ++ snd r2).
    rewrite <- app_assoc. reflexivity.
  - apply Z.leb_gt in E. split; [exact E | exact H2].
Qed.

(** Auto-advance on, two images, no press for 300 s at 100 ticks per
    second: the pass at tick 30000 advances once more and goes to sleep. *)
Lemma sleep_follows_last_press_witness :
  let c := {| Slideshow.s_state := Slideshow.DISPLAYING;
              Slideshow.s_imageFiles := ["a"; "b"]%string;
              Slideshow.s_currentImageIndex := 0%N;
              Slideshow.s_autoAdvance := true;
              Slideshow.s_lastActivityTick := 0;
              Slideshow.s_lastAutoAdvanceTick := 29000 |} in
  let tk := {| Slideshow.t_activity := 30000; Slideshow.t_button := 30000;
               Slideshow.t_auto := 30000; Slideshow.t_idle := 30000 |} in
  match Slideshow.task_iteration (fun _ => true) (ticksAt 100)
          Slideshow.ready tk None c with
  | Slideshow.Running c' _ =>
      wrap32 (30000 - 0) < ticksAt 100 (INACTIVITY_TIMEOUT_SEC * 1000)
      /\ Slideshow.s_lastActivityTick c' = 0
  | Slideshow.DeepSleep c' trace =>
      ticksAt 100 (INACTIVITY_TIMEOUT_SEC * 1000) <= wrap32 (30000 - 0)
      /\ Slideshow.s_lastActivityTick c' = 0
      /\ exists before, trace = before ++ Slideshow.goToSleep
  | Slideshow.DivisionByZero => False
  | Slideshow.NullPointer => False
  end.
Proof.
  intros c tk.
  apply (sleep_follows_last_press (fun _ => true) (ticksAt 100) tk None c).
  vm_compute. discriminate.
Defined.

(** The two delays are measured on the wrapping 32-bit tick counter: when
    [d] ticks (fewer than 2^32) have passed since the recorded tick, the
    elapsed time the loop computes is [d], also across an overflow of the
    counter, so sleep is due exactly when [d] reaches the inactivity delay
    and an auto-advance exactly when [d] reaches its delay. *)
Theorem delays_survive_tick_overflow (load : string -> bool)
  (pdMS_TO_TICKS : Z -> Z) (c : Slideshow.Controller) (d : Z) :
  0 <= d < 2 ^ 32 ->
  Slideshow.sleepDue pdMS_TO_TICKS
    (wrap32 (Slideshow.s_lastActivityTick c + d)) c
  = (pdMS_TO_TICKS (INACTIVITY_TIMEOUT_SEC * 1000) <=? d) /\
  (d < pdMS_TO_TICKS (AUTO_ADVANCE_DELAY_SEC * 1000) ->
   Slideshow.autoAdvance load pdMS_TO_TICKS
     (wrap32 (Slideshow.s_lastAutoAdvanceTick c + d)) c = Some (c, [])).
Proof.
  intros Hd.
  assert (Hw : forall last, wrap32 (wrap32 (last + d) - last) = d).
  { intros last. unfold wrap32, wrap.
    rewrite Zminus_mod_idemp_l.
    replace (last + d - last) with d by lia. apply Z.mod_small. exact Hd. }
  split.
  - unfold Slideshow.sleepDue. rewrite Hw. reflexivity.
  - intros Hearly. unfold Slideshow.autoAdvance. rewrite Hw.
    replace (_ <=? d) with false by (symmetry; apply Z.leb_gt; exact Hearly).
    destruct (Slideshow.State_eqb _ _ && _); reflexivity.
Qed.

(** Last press and last advance at tick 2^32 - 100; 500 ticks later the
    counter reads 400. *)
Lemma delays_survive_tick_overflow_witness :
  let c := {| Slideshow.s_state := Slideshow.DISPLAYING;
              Slideshow.s_imageFiles := ["a"; "b"]%string;
              Slideshow.s_currentImageIndex := 0%N;
              Slideshow.s_autoAdvance := true;
              Slideshow.s_lastActivityTick := 2 ^ 32 - 100;
              Slideshow.s_lastAutoAdvanceTick := 2 ^ 32 - 100 |} in
  Slideshow.sleepDue (ticksAt 100) (wrap32 (2 ^ 32 - 100 + 500)) c
  = (ticksAt 100 (INACTIVITY_TIMEOUT_SEC * 1000) <=? 500) /\
  (500 < ticksAt 100 (AUTO_ADVANCE_DELAY_SEC * 1000) ->
   Slideshow.autoAdvance (fun _ => true) (ticksAt 100)
     (wrap32 (2 ^ 32 - 100 + 500)) c = Some (c, [])).
Proof.
  intros c.
  apply (delays_survive_tick_overflow (fun _ => true) (ticksAt 100) c 500).
  vm_compute. split; [discriminate | reflexivity].
Defined.

(** ** Slideshow controller: start-up *)

Section StartUp.

Import Slideshow.

Variable load : string -> bool.

Lemma scan_size card directory :
  imageCount_of_scan card directory.
Proof.
  unfold imageCount_of_scan.
  destruct (scan_count_is_vector_size_facts card directory) as (Hc & Hle & _).
  unfold size, size_wrap. rewrite <- Hc.
  apply N.mod_small. unfold MAX_IMAGE_FILES in Hle.
  change (2 ^ 32)%N with 4294967296%N. lia.
Qed.

End StartUp.

Lemma init_boot_facts (load : string -> bool)
  (queueCreated buttonsReady sdInit : bool) (card : SDCard.Card) (t1 t2 : Z) :
  let r := Slideshow.init load queueCreated buttonsReady sdInit card t1 t2
             Slideshow.boot in
  let c := fst (fst r) in
  let trace := snd (fst r) in
  (snd r = true <-> Slideshow.s_state c = Slideshow.DISPLAYING) /\
  (snd r = true ->
   Slideshow.s_imageFiles c = fst (SDCard.scanForImages card IMAGE_DIRECTORY) /\
   (1 <= Slideshow.imageCount c <= 100)%N /\
   (Slideshow.s_currentImageIndex c < Slideshow.imageCount c)%N /\
   Slideshow.s_autoAdvance c = false /\
   Slideshow.s_lastActivityTick c = t1 /\
   Slideshow.s_lastAutoAdvanceTick c = t2) /\
  (snd r = false ->
   (Slideshow.s_state c = Slideshow.INIT /\ trace = [])
   \/ (Slideshow.s_state c = Slideshow.ERROR /\
       (forall path ok, ~ In (Slideshow.LoadImage path ok) trace) /\
       exists before,
         trace = before ++ Slideshow.drawErrorScreen
                   (if sdInit then "No images found" else "SD card error"))).
Proof.
  cbn zeta. unfold Slideshow.init.
  destruct queueCreated; cbn [negb].
  2: { split; [split; discriminate|]. split; [discriminate|].
       intros _. left. split; reflexivity. }
  destruct buttonsReady; cbn [negb].
  2: { split; [split; discriminate|]. split; [discriminate|].
       intros _. left. split; reflexivity. }
  destruct sdInit; cbn [negb].
  2: { cbn [fst snd]. split; [split; discriminate|]. split; [discriminate|].
       intros _. right. split; [reflexivity|]. split.
       - intros path ok Hin. cbn in Hin.
         repeat (destruct Hin as [Hin|Hin]; [discriminate|]). exact Hin.
       - eexists. reflexivity. }
  pose proof (scan_size card IMAGE_DIRECTORY) as Hsize.
  unfold imageCount_of_scan in Hsize.
  pose proof (scan_count_is_vector_size_facts card IMAGE_DIRECTORY)
    as (_ & Hle & _).
  destruct (SDCard.scanForImages card IMAGE_DIRECTORY) as [files count].
  cbn [fst snd] in *.
  destruct (count =? 0)%N eqn:Hz.
  - cbn [fst snd]. split; [split; discriminate|]. split; [discriminate|].
    intros _. right. split; [reflexivity|]. split.
    + intros path ok Hin. cbn in Hin.
      repeat (destruct Hin as [Hin|Hin]; [discriminate|]). exact Hin.
    + eexists. rewrite app_assoc. reflexivity.
  - apply N.eqb_neq in Hz. cbn [fst snd].
    match goal with
    | |- context [Slideshow.displayCurrentImage load ?x] => set (c3 := x)
    end.
    destruct (displayCurrentImage_frame load c3) as (j & Hj & Hr).
    rewrite Hj.
    assert (Hn : Slideshow.imageCount c3 = count) by exact Hsize.
    split; [split; reflexivity|]. split; [|discriminate].
    intros _. cbn [Slideshow.set_currentImageIndex Slideshow.s_imageFiles
                   Slideshow.s_currentImageIndex Slideshow.s_autoAdvance
                   Slideshow.s_lastActivityTick
                   Slideshow.s_lastAutoAdvanceTick].
    change (Slideshow.imageCount (Slideshow.set_currentImageIndex c3 j))
      with (Slideshow.imageCount c3).
    rewrite Hn. unfold MAX_IMAGE_FILES in Hle.
    repeat split; try lia.
    rewrite <- Hn. apply Hr. rewrite Hn. cbn. lia.
Qed.

(** [Slideshow::init] on the freshly booted controller. It returns [true]
    exactly with the state DISPLAYING, and then the list is the scan result,
    holds between 1 and 100 paths, the index is in range, auto-advance is off
    and both ticks are set. When it returns [false], either nothing was
    touched (queue or buttons failed: state INIT, nothing drawn), or the
    state is ERROR, no image load was tried and the last thing drawn is the
    error screen: "SD card error" if the card did not initialise, else
    "No images found". *)
Theorem init_from_boot (load : string -> bool)
  (queueCreated buttonsReady sdInit : bool) (card : SDCard.Card) (t1 t2 : Z) :
  let r := Slideshow.init load queueCreated buttonsReady sdInit card t1 t2
             Slideshow.boot in
  let c := fst (fst r) in
  let trace := snd (fst r) in
  (snd r = true <-> Slideshow.s_state c = Slideshow.DISPLAYING) /\
  (snd r = true ->
   Slideshow.s_imageFiles c = fst (SDCard.scanForImages card IMAGE_DIRECTORY) /\
   (1 <= Slideshow.imageCount c <= 100)%N /\
   (Slideshow.s_currentImageIndex c < Slideshow.imageCount c)%N /\
   Slideshow.s_autoAdvance c = false /\
   Slideshow.s_lastActivityTick c = t1 /\
   Slideshow.s_lastAutoAdvanceTick c = t2) /\
  (snd r = false ->
   (Slideshow.s_state c = Slideshow.INIT /\ trace = [])
   \/ (Slideshow.s_state c = Slideshow.ERROR /\
       (forall path ok, ~ In (Slideshow.LoadImage path ok) trace) /\
       exists before,
         trace = before ++ Slideshow.drawErrorScreen
                   (if sdInit then "No images found" else "SD card error"))).
Proof.
  exact (init_boot_facts load queueCreated buttonsReady sdInit card t1 t2).
Qed.

Lemma init_leaves_INIT (load : string -> bool) (sdInit : bool)
  (card : SDCard.Card) (t1 t2 : Z) :
  Slideshow.s_state
    (fst (fst (Slideshow.init load true true sdInit card t1 t2
                 Slideshow.boot)))
  <> Slideshow.INIT.
Proof.
  pose proof (init_boot_facts load true true sdInit card t1 t2) as H.
  cbn zeta in H. destruct H as (Hiff & _ & Hfail).
  destruct (snd (Slideshow.init load true true sdInit card t1 t2
                   Slideshow.boot)) eqn:Hret.
  - rewrite (proj1 Hiff eq_refl). discriminate.
  - destruct (Hfail eq_refl) as [(_ & Htrace)|(E & _)].
    + exfalso. revert Htrace. unfold Slideshow.init. cbn [negb].
      destruct sdInit; cbn [negb].
      * destruct (SDCard.scanForImages card IMAGE_DIRECTORY) as [files count].
        destruct (count =? 0)%N; cbn [fst snd]; discriminate.
      * cbn [fst snd]. discriminate.
    + rewrite E. discriminate.
Qed.

Lemma buttons_init_true (gpioConfig isrService addUp addSelect addDown : Z)
  (r : bool) :
  SlideshowButtons.init gpioConfig isrService addUp addSelect addDown
  = Some r -> r = true.
Proof.
  unfold SlideshowButtons.init.
  repeat (destruct (negb _); [discriminate|]).
  intros [= <-]. reflexivity.
Qed.

(** [Slideshow::init] on the freshly booted program, then the task loop,
    whatever it is fed. [SlideshowButtons::init] returns [true] whenever it
    returns, so the only early failure of [init] is the queue: then queue
    and display are null, the state is INIT, and a first pass of the loop
    is undefined. Otherwise queue and display are created, the loop never
    uses a null pointer and never takes a modulus by an empty list, the
    state stays the one [init] left, ERROR or DISPLAYING (SCANNING,
    AUTO_ADVANCE and SLEEPING are never seen), and in DISPLAYING the index
    stays inside a list of 1 to 100 paths. *)
Theorem states_after_boot (load : string -> bool) (pdMS_TO_TICKS : Z -> Z)
  (queueCreated sdInit : bool) (card : SDCard.Card) (t1 t2 : Z)
  (inputs : list (Slideshow.Ticks * option Slideshow.SlideshowButtonEvent)) :
  let c := fst (fst (Slideshow.init load queueCreated true sdInit card
                       t1 t2 Slideshow.boot)) in
  let ptrs := Slideshow.initPointers queueCreated true Slideshow.unset in
  (forall gpioConfig isrService addUp addSelect addDown buttonsReady,
     SlideshowButtons.init gpioConfig isrService addUp addSelect addDown
     = Some buttonsReady -> buttonsReady = true) /\
  match Slideshow.task load pdMS_TO_TICKS ptrs inputs c with
  | Slideshow.Running c' _ | Slideshow.DeepSleep c' _ =>
      (queueCreated = true \/ inputs = []) /\
      Slideshow.s_state c' = Slideshow.s_state c /\
      (queueCreated = true ->
       Slideshow.s_state c' = Slideshow.ERROR
       \/ Slideshow.s_state c' = Slideshow.DISPLAYING) /\
      (queueCreated = false -> Slideshow.s_state c' = Slideshow.INIT) /\
      (Slideshow.s_state c' = Slideshow.DISPLAYING ->
       (Slideshow.s_currentImageIndex c' < Slideshow.imageCount c')%N /\
       (1 <= Slideshow.imageCount c' <= 100)%N)
  | Slideshow.DivisionByZero => False
  | Slideshow.NullPointer =>
      queueCreated = false /\ inputs <> [] /\
      Slideshow.s_state c = Slideshow.INIT
  end.
Proof.
  intros c ptrs. split; [exact buttons_init_true|].
  destruct queueCreated.
  - change ptrs with Slideshow.ready.
    pose proof (init_boot_facts load true true sdInit card t1 t2) as Hinit.
    cbn zeta in Hinit. fold c in Hinit.
    destruct Hinit as (Hiff & Hok & Hfail).
    pose proof (init_leaves_INIT load sdInit card t1 t2) as HnotInit.
    fold c in HnotInit.
    destruct (snd (Slideshow.init load true true sdInit card t1 t2
                     Slideshow.boot)) eqn:Hret.
    + destruct (Hok eq_refl) as (_ & Hn & Hi & _).
      assert (Hst : Slideshow.s_state c = Slideshow.DISPLAYING)
        by (apply Hiff; reflexivity).
      pose proof (task_keeps load pdMS_TO_TICKS Slideshow.ready inputs c
                    ltac:(lia)) as H.
      destruct (Slideshow.task load pdMS_TO_TICKS Slideshow.ready inputs c)
        as [c' tr|c' tr| |];
        [| |exact H|destruct H; discriminate];
        (destruct H as (Hf & Hs & Hr);
         split; [left; reflexivity|];
         split; [exact Hs|];
         split; [intros _; right; congruence|];
         split; [discriminate|];
         intros _;
         assert (Hcount : Slideshow.imageCount c' = Slideshow.imageCount c)
           by (unfold Slideshow.imageCount; rewrite Hf; reflexivity);
         rewrite Hcount in *; split; [apply Hr, Hi | exact Hn]).
    + assert (Hst : Slideshow.s_state c = Slideshow.ERROR).
      { destruct (Hfail eq_refl) as [[E _]|[E _]]; [contradiction|exact E]. }
      assert (Hnd : Slideshow.s_state c <> Slideshow.DISPLAYING)
        by (rewrite Hst; discriminate).
      pose proof (task_idle_facts load pdMS_TO_TICKS Slideshow.ready inputs c
                    Hnd) as H.
      destruct (Slideshow.task load pdMS_TO_TICKS Slideshow.ready inputs c)
        as [c' tr|c' tr| |];
        [| |exact H|destruct H as (_ & [E|E]); discriminate];
        (destruct H as (_ & Hc & _);
         assert (Hs : Slideshow.s_state c' = Slideshow.s_state c)
           by (rewrite Hc; reflexivity);
         split; [left; reflexivity|];
         split; [exact Hs|];
         split; [intros _; left; congruence|];
         split; [discriminate|];
         intros E; rewrite Hs, Hst in E; discriminate).
  - assert (Hc : c = Slideshow.boot) by reflexivity.
    assert (Hnd : Slideshow.s_state c <> Slideshow.DISPLAYING)
      by (rewrite Hc; discriminate).
    pose proof (task_idle_facts load pdMS_TO_TICKS ptrs inputs c Hnd) as H.
    destruct (Slideshow.task load pdMS_TO_TICKS ptrs inputs c)
      as [c' tr|c' tr| |].
    + destruct H as (_ & Hc' & [Hin|Hq]); [|discriminate].
      assert (Hs : Slideshow.s_state c' = Slideshow.s_state c)
        by (rewrite Hc'; reflexivity).
      split; [right; exact Hin|]. split; [exact Hs|].
      split; [discriminate|].
      split; [intros _; rewrite Hs, Hc; reflexivity|].
      intros E. rewrite Hs, Hc in E. discriminate.
    + destruct H as (_ & _ & Hq & _). discriminate.
    + exact H.
    + destruct H as (Hin & _).
      split; [reflexivity|]. split; [exact Hin|]. rewrite Hc. reflexivity.
Qed.

(** ** Mounting the card *)

Lemma mount_init_facts (spiBusResult mountResult : Z) (s_mounted : bool) :
  let '(mounted', calls, ok) :=
    SDCardMount.init spiBusResult mountResult s_mounted in
  ok = SDCardMount.isMounted mounted' /\
  (ok = true <->
   s_mounted = true
   \/ ((spiBusResult = ESP_OK \/ spiBusResult = ESP_ERR_INVALID_STATE)
       /\ mountResult = ESP_OK)) /\
  (s_mounted = true <-> calls = []) /\
  ~ In SDCardMount.SpiBusFree calls.
Proof.
  unfold SDCardMount.init, SDCardMount.isMounted, ESP_OK,
    ESP_ERR_INVALID_STATE.
  destruct s_mounted.
  - repeat split; auto.
  - destruct (Z.eqb_spec spiBusResult 0) as [E1|E1];
      destruct (Z.eqb_spec spiBusResult 259) as [E2|E2];
      destruct (Z.eqb_spec mountResult 0) as [E3|E3]; cbn;
      (split; [reflexivity|]);
      (split; [split; [try discriminate; intros _; right; lia
                      |try reflexivity;
                       intros [?|[[?|?] ?]]; try discriminate; lia]|]);
      (split; [split; discriminate|]);
      intuition discriminate.
Qed.

Lemma mount_deinit_facts (spiBusResult mountResult : Z) (s_mounted : bool) :
  let after := fst (SDCardMount.deinit s_mounted) in
  SDCardMount.isMounted after = false /\
  (snd (SDCardMount.deinit s_mounted)
   = if s_mounted
     then [SDCardMount.SdcardUnmount; SDCardMount.SpiBusFree] else []) /\
  SDCardMount.deinit after = (false, []) /\
  (let '(mounted', _, ok) :=
     SDCardMount.init spiBusResult mountResult s_mounted in
   ok = true ->
   forall bus' mount',
     SDCardMount.init bus' mount' mounted' = (true, [], true)).
Proof.
  unfold SDCardMount.deinit, SDCardMount.isMounted.
  destruct s_mounted; cbn; repeat split; auto.
  unfold SDCardMount.init.
  destruct (_ && _); cbn; [discriminate|].
  destruct (negb _); cbn; [discriminate|].
  reflexivity.
Qed.

(** [SDCard::init] returns exactly the mount flag it leaves behind. It
    succeeds when the card was mounted already, or when the bus came up
    (or was up already, ESP_ERR_INVALID_STATE) and the mount returned
    ESP_OK, and in no other case; it touches the driver unless the card
    was mounted already, and never frees the bus, not even after a failed
    mount. [SDCard::deinit] always leaves the card unmounted; it unmounts
    and frees the bus exactly when the card was mounted, so a second
    [deinit] does nothing; and an [init] after a successful [init] does
    nothing either. *)
Theorem mount_init_deinit (spiBusResult mountResult : Z) (s_mounted : bool) :
  (let '(mounted', calls, ok) :=
     SDCardMount.init spiBusResult mountResult s_mounted in
   ok = SDCardMount.isMounted mounted' /\
   (ok = true <->
    s_mounted = true
    \/ ((spiBusResult = ESP_OK \/ spiBusResult = ESP_ERR_INVALID_STATE)
        /\ mountResult = ESP_OK)) /\
   (s_mounted = true <-> calls = []) /\
   ~ In SDCardMount.SpiBusFree calls) /\
  (let after := fst (SDCardMount.deinit s_mounted) in
   SDCardMount.isMounted after = false /\
   (snd (SDCardMount.deinit s_mounted)
    = if s_mounted
      then [SDCardMount.SdcardUnmount; SDCardMount.SpiBusFree] else []) /\
   SDCardMount.deinit after = (false, []) /\
   (let '(mounted', _, ok) :=
      SDCardMount.init spiBusResult mountResult s_mounted in
    ok = true ->
    forall bus' mount',
      SDCardMount.init bus' mount' mounted' = (true, [], true))).
Proof.
  split.
  - exact (mount_init_facts spiBusResult mountResult s_mounted).
  - exact (mount_deinit_facts spiBusResult mountResult s_mounted).
Qed.

(** ** The button queue *)

Section ButtonQueue.

Import Slideshow SlideshowButtons.

Lemma gpio_isr_handler_cases (arg : SlideshowButtonId)
  (queue : list SlideshowButtonEvent) :
  (List.length queue < QUEUE_LENGTH
   /\ gpio_isr_handler arg queue
      = queue ++ [{| id := arg; pressed := true |}])%nat
  \/ (QUEUE_LENGTH <= List.length queue
      /\ gpio_isr_handler arg queue = queue)%nat.
Proof.
  unfold gpio_isr_handler, xQueueSendFromISR.
  destruct (Nat.ltb_spec (List.length queue) QUEUE_LENGTH); cbn;
    [left|right]; split; auto.
Qed.

Lemma runQueue_invariant (P : SlideshowButtonEvent -> Prop)
  (ops : list QueueOp) :
  forall received queue,
    (List.length queue <= QUEUE_LENGTH)%nat ->
    Forall P (received ++ queue) ->
    (forall pin arg, In (FallingEdge pin) ops ->
                     registeredId pin = Some arg ->
                     P {| id := arg; pressed := true |}) ->
    let '(received', queue') := runQueue ops received queue in
    (List.length queue' <= QUEUE_LENGTH)%nat /\
    Forall P (received' ++ queue').
Proof.
  induction ops as [|op ops IH]; intros received queue Hlen Hall Hops; cbn.
  - split; auto.
  - assert (Hrest : forall pin arg, In (FallingEdge pin) ops ->
                      registeredId pin = Some arg ->
                      P {| id := arg; pressed := true |})
      by (intros pin arg Hin; apply Hops; right; exact Hin).
    destruct op as [pin|].
    + destruct (registeredId pin) as [arg|] eqn:Hreg; [|apply IH; assumption].
      destruct (gpio_isr_handler_cases arg queue) as [(Hlt & E)|(Hge & E)];
        rewrite E; apply IH; auto.
      * rewrite List.length_app; cbn. unfold QUEUE_LENGTH in *. lia.
      * rewrite app_assoc. apply Forall_app. split; auto.
        constructor; [|constructor].
        apply (Hops pin); [left; reflexivity | exact Hreg].
    + destruct queue as [|ev rest]; cbn; [apply IH; assumption|].
      apply IH; auto.
      * cbn in Hlen. lia.
      * rewrite <- app_assoc. exact Hall.
Qed.

End ButtonQueue.

(** Whatever falling edges and receives happen around the queue, starting
    from the empty queue: every event the task receives, and every event
    still queued, is a press ([pressed = true]) whose id is the one
    registered for a pin that saw an edge, so the release check of
    [handleButton] never fires on an event of this handler and an edge on
    a pin that is none of the three buttons queues nothing; and the queue
    never holds more than 10 events. *)
Theorem isr_sends_presses_only (ops : list SlideshowButtons.QueueOp) :
  let '(received, queue) := SlideshowButtons.runQueue ops [] [] in
  Forall (fun ev =>
            Slideshow.pressed ev = true /\
            exists pin, In (SlideshowButtons.FallingEdge pin) ops /\
                        (pin = 9 \/ pin = 10 \/ pin = 11) /\
                        SlideshowButtons.registeredId pin
                        = Some (Slideshow.id ev))
         (received ++ queue) /\
  (List.length queue <= 10)%nat.
Proof.
  pose proof (runQueue_invariant
                (fun ev =>
                   Slideshow.pressed ev = true /\
                   exists pin, In (SlideshowButtons.FallingEdge pin) ops /\
                               (pin = 9 \/ pin = 10 \/ pin = 11) /\
                               SlideshowButtons.registeredId pin
                               = Some (Slideshow.id ev))
                ops [] []) as H.
  destruct (SlideshowButtons.runQueue ops [] []) as (received, queue).
  destruct H as (Hlen & Hall).
  - cbn. unfold SlideshowButtons.QUEUE_LENGTH. lia.
  - constructor.
  - intros pin arg Hin Hreg. split; [reflexivity|].
    exists pin. split; [exact Hin|]. split; [|exact Hreg].
    unfold SlideshowButtons.registeredId, SlideshowButtons.BTN_UP_GPIO,
      SlideshowButtons.BTN_SELECT_GPIO, SlideshowButtons.BTN_DOWN_GPIO in Hreg.
    destruct (Z.eqb_spec pin 9); [lia|].
    destruct (Z.eqb_spec pin 10); [lia|].
    destruct (Z.eqb_spec pin 11); [lia|]. discriminate.
  - split; [exact Hall | exact Hlen].
Qed.

(** ** The SPI bus object *)

Section SPIFacts.

Import SPI.

Lemma begin_fields (bus : Z) (add : Z * option Z) (sck mosi miso cs : Z)
  (spi : SPIClass) :
  let spi' := fst (begin bus add sck mosi miso cs spi) in
  cs_pin_ spi' = cs /\ sck_pin_ spi' = sck /\ mosi_pin_ spi' = mosi /\
  miso_pin_ spi' = miso /\ spi_host_ spi' = spi_host_ spi /\
  current_settings_ spi' = current_settings_ spi.
Proof.
  unfold begin. destruct add as (ret2, written).
  destruct (negb (bus =? ESP_OK) && negb (bus =? ESP_ERR_INVALID_STATE));
    [cbn; tauto|].
  destruct (negb (cs =? GPIO_NUM_NC)); [|cbn; tauto].
  destruct (negb (ret2 =? ESP_OK)); cbn; tauto.
Qed.

Lemma usable_without_cs (spi : SPIClass) :
  cs_pin_ spi = GPIO_NUM_NC -> usable spi = None.
Proof.
  intros E. unfold usable. rewrite E, Z.eqb_refl, orb_true_r. reflexivity.
Qed.

Lemma write16_bytes (tx : list Z -> Z * list Z) (data : Z) (spi : SPIClass)
  (device : Z) :
  usable spi = Some device ->
  exists hi lo,
    write16 tx data spi = [DeviceTransmit device [hi; lo]] /\
    0 <= hi < 256 /\ 0 <= lo < 256 /\
    hi * 256 + lo = data mod 2 ^ 16.
Proof.
  intros Hu. unfold write16, writeBuffer, transferBuffer. rewrite Hu. cbn.
  exists (Z.land (Z.shiftr data 8) 255), (Z.land data 255).
  split; [reflexivity|].
  change 255 with (Z.ones 8). rewrite !Z.land_ones by lia.
  rewrite Z.shiftr_div_pow2 by lia.
  change (2 ^ 8) with 256. change (2 ^ 16) with 65536.
  Z.div_mod_to_equations. lia.
Qed.

Lemma write32_bytes (tx : list Z -> Z * list Z) (data : Z) (spi : SPIClass)
  (device : Z) :
  usable spi = Some device ->
  exists b3 b2 b1 b0,
    write32 tx data spi = [DeviceTransmit device [b3; b2; b1; b0]] /\
    0 <= b3 < 256 /\ 0 <= b2 < 256 /\ 0 <= b1 < 256 /\ 0 <= b0 < 256 /\
    ((b3 * 256 + b2) * 256 + b1) * 256 + b0 = data mod 2 ^ 32.
Proof.
  intros Hu. unfold write32, writeBuffer, transferBuffer. rewrite Hu. cbn.
  exists (Z.land (Z.shiftr data 24) 255), (Z.land (Z.shiftr data 16) 255),
    (Z.land (Z.shiftr data 8) 255), (Z.land data 255).
  split; [reflexivity|].
  change 255 with (Z.ones 8). rewrite !Z.land_ones by lia.
  rewrite !Z.shiftr_div_pow2 by lia.
  change (2 ^ 8) with 256. change (2 ^ 16) with 65536.
  change (2 ^ 24) with 16777216. change (2 ^ 32) with 4294967296.
  Z.div_mod_to_equations. lia.
Qed.

End SPIFacts.

(** [SPI.begin(sck, mosi, miso)], the call [Slideshow::init] makes, leaves
    the CS pin unset. Whatever the driver answers and whatever the object
    was before, the object then transmits nothing: [transfer] returns 0
    without a driver call, [write], [write16], [write32] and the buffer
    forms make no driver call, and [end()] neither removes a device nor
    frees the bus and leaves [isInitialized] as it was. A fresh object
    reports initialized exactly when the bus came up or was up already. *)
Theorem spi_begin_without_cs (bus : Z) (add : Z * option Z)
  (tx : list Z -> Z * list Z) (sck mosi miso data : Z) (buffer : list Z)
  (spi : SPI.SPIClass) :
  let spi' := fst (SPI.begin bus add sck mosi miso SPI.GPIO_NUM_NC spi) in
  SPI.transfer tx data spi' = (0, []) /\
  SPI.transferBuffer tx buffer spi' = (buffer, []) /\
  SPI.write tx data spi' = [] /\
  SPI.writeBuffer tx buffer spi' = [] /\
  SPI.write16 tx data spi' = [] /\
  SPI.write32 tx data spi' = [] /\
  SPI.end_ spi' = (spi', []) /\
  (SPI.isInitialized spi' = true <->
   SPI.isInitialized spi = true
   \/ bus = ESP_OK \/ bus = ESP_ERR_INVALID_STATE).
Proof.
  intros spi'.
  assert (Hu : SPI.usable spi' = None)
    by (apply usable_without_cs;
        apply (begin_fields bus add sck mosi miso SPI.GPIO_NUM_NC spi)).
  unfold SPI.write, SPI.write16, SPI.write32, SPI.writeBuffer,
    SPI.transferBuffer, SPI.transfer, SPI.end_.
  rewrite Hu. repeat (split; [reflexivity|]).
  subst spi'. unfold SPI.begin, SPI.isInitialized, ESP_OK,
    ESP_ERR_INVALID_STATE.
  destruct add as (ret2, written).
  change (SPI.GPIO_NUM_NC =? SPI.GPIO_NUM_NC) with true. cbn [negb].
  destruct (Z.eqb_spec bus 0); destruct (Z.eqb_spec bus 259); cbn;
    split; try tauto; try (intros _; reflexivity);
    intros [?|[?|?]]; try assumption; lia.
Qed.

(** On an object with a device, [write16] makes one transmission of two
    bytes and [write32] one of four, most significant byte first: read as
    a big-endian number the bytes are the argument modulo 2^16, resp.
    2^32. *)
Theorem spi_write16_write32_big_endian (tx : list Z -> Z * list Z)
  (data device : Z) (spi : SPI.SPIClass)
  (Husable : SPI.usable spi = Some device) :
  (exists hi lo,
     SPI.write16 tx data spi = [SPI.DeviceTransmit device [hi; lo]] /\
     0 <= hi < 256 /\ 0 <= lo < 256 /\
     hi * 256 + lo = data mod 2 ^ 16) /\
  (exists b3 b2 b1 b0,
     SPI.write32 tx data spi = [SPI.DeviceTransmit device [b3; b2; b1; b0]] /\
     0 <= b3 < 256 /\ 0 <= b2 < 256 /\ 0 <= b1 < 256 /\ 0 <= b0 < 256 /\
     ((b3 * 256 + b2) * 256 + b1) * 256 + b0 = data mod 2 ^ 32).
Proof.
  split; [apply write16_bytes | apply write32_bytes]; exact Husable.
Qed.

Lemma spi_write16_write32_big_endian_witness :
  let tx := fun _ : list Z => (ESP_OK, @nil Z) in
  let spi := fst (SPI.begin ESP_OK (ESP_OK, Some 7) 21 19 20 5 SPI.SPI0) in
  SPI.usable spi = Some 7 /\
  (exists hi lo,
     SPI.write16 tx 0x1234 spi = [SPI.DeviceTransmit 7 [hi; lo]] /\
     0 <= hi < 256 /\ 0 <= lo < 256 /\
     hi * 256 + lo = 0x1234 mod 2 ^ 16) /\
  (exists b3 b2 b1 b0,
     SPI.write32 tx 0x1234 spi = [SPI.DeviceTransmit 7 [b3; b2; b1; b0]] /\
     0 <= b3 < 256 /\ 0 <= b2 < 256 /\ 0 <= b1 < 256 /\ 0 <= b0 < 256 /\
     ((b3 * 256 + b2) * 256 + b1) * 256 + b0 = 0x1234 mod 2 ^ 32).
Proof.
  intros tx spi.
  assert (Hu : SPI.usable spi = Some 7) by reflexivity.
  split; [exact Hu|].
  exact (spi_write16_write32_big_endian tx 0x1234 7 spi Hu).
Defined.

(** [begin] with a CS pin, then [end()]: when the bus came up and the
    driver added the device (ESP_OK and a handle), the object is
    initialized and holds the handle; [end()] then removes that device,
    frees the bus of the object's host and leaves the object
    uninitialized, after which [transfer] and a second [end()] make no
    driver call. *)
Theorem spi_begin_end_round_trip (bus : Z) (written : option Z)
  (tx : list Z -> Z * list Z) (sck mosi miso cs handle data : Z)
  (spi : SPI.SPIClass)
  (Hbus : bus = ESP_OK \/ bus = ESP_ERR_INVALID_STATE)
  (Hcs : cs <> SPI.GPIO_NUM_NC)
  (Hhandle : written = Some handle /\ handle <> 0) :
  let spi1 := fst (SPI.begin bus (ESP_OK, written) sck mosi miso cs spi) in
  let spi2 := fst (SPI.end_ spi1) in
  SPI.isInitialized spi1 = true /\
  SPI.usable spi1 = Some handle /\
  snd (SPI.end_ spi1)
  = [SPI.BusRemoveDevice handle; SPI.BusFree (SPI.spi_host_ spi)] /\
  SPI.isInitialized spi2 = false /\
  SPI.transfer tx data spi2 = (0, []) /\
  SPI.end_ spi2 = (spi2, []).
Proof.
  destruct Hhandle as (-> & Hh).
  intros spi1 spi2.
  assert (E1 : spi1 =
    {| SPI.spi_device_ := Some handle; SPI.initialized_ := true;
       SPI.cs_pin_ := cs; SPI.sck_pin_ := sck; SPI.mosi_pin_ := mosi;
       SPI.miso_pin_ := miso;
       SPI.current_settings_ := SPI.current_settings_ spi;
       SPI.spi_host_ := SPI.spi_host_ spi |}).
  { subst spi1. unfold SPI.begin.
    replace (negb (bus =? ESP_OK) && negb (bus =? ESP_ERR_INVALID_STATE))
      with false
      by (unfold ESP_OK, ESP_ERR_INVALID_STATE in *;
          destruct (Z.eqb_spec bus 0); destruct (Z.eqb_spec bus 259);
          cbn; try reflexivity; lia).
    replace (cs =? SPI.GPIO_NUM_NC) with false
      by (symmetry; apply Z.eqb_neq; exact Hcs).
    cbn. replace (handle =? 0) with false
      by (symmetry; apply Z.eqb_neq; exact Hh).
    reflexivity. }
  assert (Hu : SPI.usable spi1 = Some handle).
  { rewrite E1. unfold SPI.usable. cbn.
    replace (cs =? SPI.GPIO_NUM_NC) with false
      by (symmetry; apply Z.eqb_neq; exact Hcs).
    reflexivity. }
  assert (E2 : SPI.end_ spi1 =
    ({| SPI.spi_device_ := Some handle; SPI.initialized_ := false;
        SPI.cs_pin_ := cs; SPI.sck_pin_ := sck; SPI.mosi_pin_ := mosi;
        SPI.miso_pin_ := miso;
        SPI.current_settings_ := SPI.current_settings_ spi;
        SPI.spi_host_ := SPI.spi_host_ spi |},
     [SPI.BusRemoveDevice handle; SPI.BusFree (SPI.spi_host_ spi)])).
  { unfold SPI.end_. rewrite Hu. rewrite E1. reflexivity. }
  subst spi2. rewrite E2. cbn [fst snd].
  split; [rewrite E1; reflexivity|].
  split; [exact Hu|].
  split; [reflexivity|].
  split; [reflexivity|].
  split; reflexivity.
Qed.

Lemma spi_begin_end_round_trip_witness :
  let tx := fun _ : list Z => (ESP_OK, @nil Z) in
  let spi1 :=
    fst (SPI.begin ESP_OK (ESP_OK, Some 7) 21 19 20 5 SPI.SPI0) in
  let spi2 := fst (SPI.end_ spi1) in
  (ESP_OK = ESP_OK \/ ESP_OK = ESP_ERR_INVALID_STATE) /\
  5 <> SPI.GPIO_NUM_NC /\
  (Some 7 = Some 7 /\ 7 <> 0) /\
  SPI.isInitialized spi1 = true /\
  SPI.usable spi1 = Some 7 /\
  snd (SPI.end_ spi1)
  = [SPI.BusRemoveDevice 7; SPI.BusFree (SPI.spi_host_ SPI.SPI0)] /\
  SPI.isInitialized spi2 = false /\
  SPI.transfer tx 0xA5 spi2 = (0, []) /\
  SPI.end_ spi2 = (spi2, []).
Proof.
  intros tx spi1 spi2.
  assert (Hbus : ESP_OK = ESP_OK \/ ESP_OK = ESP_ERR_INVALID_STATE)
    by (left; reflexivity).
  assert (Hcs : 5 <> SPI.GPIO_NUM_NC) by discriminate.
  assert (Hh : Some 7 = Some 7 /\ 7 <> 0) by (split; [reflexivity|lia]).
  split; [exact Hbus|]. split; [exact Hcs|]. split; [exact Hh|].
  exact (spi_begin_end_round_trip ESP_OK (Some 7) tx 21 19 20 5 7 0xA5
           SPI.SPI0 Hbus Hcs Hh).
Defined.

(** ** A device on the SPI bus *)

Lemma spidevice_begin_facts (bus : Z) (add0 add : Z * option Z)
  (tx : list Z -> Z * list Z)
  (sck mosi miso cs freq dataOrder dataMode data : Z) (buffer : list Z)
  (spi : SPI.SPIClass) :
  -128 <= cs < 64 ->
  let theSPI := fst (SPI.begin bus add0 sck mosi miso SPI.GPIO_NUM_NC spi) in
  let dev := SPIDevice.create cs freq dataOrder dataMode (Some theSPI) in
  exists dev' calls ok,
    SPIDevice.begin add theSPI dev = Some (dev', calls, ok) /\
    SPIDevice._begun dev' = ok /\
    (ok = true <->
     0 <= cs
     /\ (SPI.isInitialized spi = true
         \/ bus = ESP_OK \/ bus = ESP_ERR_INVALID_STATE)
     /\ fst add = ESP_OK) /\
    (cs < 0 -> calls = []) /\
    (0 <= cs ->
     exists rest,
       calls = SPIDevice.Gpio (Arduino.GpioConfig (2 ^ cs) true false false)
               :: SPIDevice.Gpio (Arduino.GpioSetLevel cs Arduino.HIGH)
               :: rest /\
       ((SPI.isInitialized theSPI = false /\ rest = [])
        \/ (SPI.isInitialized theSPI = true /\
            rest = [SPIDevice.Bus
                      (SPI.BusAddDevice (SPI.spi_host_ spi) cs freq dataMode
                         (if dataOrder =? SPI.LSBFIRST
                          then SPI.SPI_DEVICE_BIT_LSBFIRST else 0))]))) /\
    (ok = false ->
     SPIDevice.transfer tx data dev' = (0, []) /\
     SPIDevice.writeBuffer tx buffer dev' = (0%N, [])).
Proof.
  intros Hcs theSPI dev.
  assert (Hinit : SPI.isInitialized theSPI = true <->
                  SPI.isInitialized spi = true
                  \/ bus = ESP_OK \/ bus = ESP_ERR_INVALID_STATE).
  { subst theSPI. unfold SPI.begin, SPI.isInitialized, ESP_OK,
      ESP_ERR_INVALID_STATE.
    destruct add0 as (ret2, written).
    change (SPI.GPIO_NUM_NC =? SPI.GPIO_NUM_NC) with true. cbn [negb].
    destruct (Z.eqb_spec bus 0); destruct (Z.eqb_spec bus 259); cbn;
      split; try tauto; try (intros _; reflexivity);
      intros [?|[?|?]]; try assumption; lia. }
  assert (Hhost : SPI.spi_host_ theSPI = SPI.spi_host_ spi)
    by apply (begin_fields bus add0 sck mosi miso SPI.GPIO_NUM_NC spi).
  unfold SPIDevice.begin, SPIDevice.transfer, SPIDevice.writeBuffer.
  cbn [dev SPIDevice.create SPIDevice._cs SPIDevice._spi SPIDevice._freq
       SPIDevice._dataMode SPIDevice._dataOrder SPIDevice._begun
       SPIDevice.spi_device_ SPIDevice.spi_host_ SPIDevice._sck
       SPIDevice._mosi SPIDevice._miso].
  destruct (Z.ltb_spec cs 0) as [Hneg|Hpos].
  { eexists _, _, _. split; [reflexivity|]. cbn.
    split; [reflexivity|].
    split; [split; [discriminate|lia]|].
    split; [reflexivity|].
    split; [lia|]. intros _. split; reflexivity. }
  unfold Arduino.pinMode, Arduino.digitalWrite.
  replace (cs <? 0) with false by (symmetry; apply Z.ltb_ge; lia).
  replace (64 <=? cs) with false by (symmetry; apply Z.leb_gt; lia).
  rewrite Z.shiftl_1_l.
  change (Arduino.OUTPUT =? Arduino.OUTPUT) with true.
  change (Arduino.OUTPUT =? Arduino.INPUT_PULLUP) with false.
  change (Arduino.OUTPUT =? Arduino.INPUT_PULLDOWN) with false.
  cbn [negb map app].
  rewrite Hhost.
  destruct (SPI.isInitialized theSPI) eqn:Hi; cbn [negb].
  - destruct add as (ret, written). cbn [fst].
    unfold ESP_OK at 1 2.
    destruct (Z.eqb_spec ret 0) as [Hr|Hr]; cbn [negb].
    + eexists _, _, _. split; [reflexivity|]. cbn.
      split; [reflexivity|].
      split; [split; [intros _; split; [lia|]; split;
                      [apply Hinit; reflexivity | exact Hr]
                     |reflexivity]|].
      split; [lia|].
      split; [|discriminate].
      intros _. eexists. split; [reflexivity|]. right. split; reflexivity.
    + eexists _, _, _. split; [reflexivity|]. cbn.
      split; [reflexivity|].
      split; [split; [discriminate|intros (_ & _ & E); contradiction]|].
      split; [lia|].
      split; [|intros _; split; reflexivity].
      intros _. eexists. split; [reflexivity|]. right. split; reflexivity.
  - eexists _, _, _. split; [reflexivity|]. cbn.
    split; [reflexivity|].
    split; [split; [discriminate|]|].
    { intros (_ & H & _). apply Hinit in H. discriminate. }
    split; [lia|].
    split; [|intros _; split; reflexivity].
    intros _. eexists. split; [reflexivity|]. left. split; reflexivity.
Qed.

(** An [Adafruit_SPIDevice] on the bus object that [SPI.begin(sck, mosi,
    miso)] prepared, with a CS pin whose mask shift is defined. [begin]
    returns the [_begun] flag it leaves. It succeeds exactly when the CS
    pin is not negative, the bus object is initialized (it was, or the bus
    came up, or was up already) and the driver added the device. With a
    negative CS pin it makes no driver call; otherwise it first makes the
    CS pin an output and drives it high, and asks the driver for a device
    on the bus object's host only when that object is initialized. A
    device whose [begin] failed transmits nothing. *)
Theorem spidevice_begin_needs_bus (bus : Z) (add0 add : Z * option Z)
  (tx : list Z -> Z * list Z)
  (sck mosi miso cs freq dataOrder dataMode data : Z) (buffer : list Z)
  (spi : SPI.SPIClass)
  (Hcs : -128 <= cs < 64) :
  let theSPI := fst (SPI.begin bus add0 sck mosi miso SPI.GPIO_NUM_NC spi) in
  let dev := SPIDevice.create cs freq dataOrder dataMode (Some theSPI) in
  exists dev' calls ok,
    SPIDevice.begin add theSPI dev = Some (dev', calls, ok) /\
    SPIDevice._begun dev' = ok /\
    (ok = true <->
     0 <= cs
     /\ (SPI.isInitialized spi = true
         \/ bus = ESP_OK \/ bus = ESP_ERR_INVALID_STATE)
     /\ fst add = ESP_OK) /\
    (cs < 0 -> calls = []) /\
    (0 <= cs ->
     exists rest,
       calls = SPIDevice.Gpio (Arduino.GpioConfig (2 ^ cs) true false false)
               :: SPIDevice.Gpio (Arduino.GpioSetLevel cs Arduino.HIGH)
               :: rest /\
       ((SPI.isInitialized theSPI = false /\ rest = [])
        \/ (SPI.isInitialized theSPI = true /\
            rest = [SPIDevice.Bus
                      (SPI.BusAddDevice (SPI.spi_host_ spi) cs freq dataMode
                         (if dataOrder =? SPI.LSBFIRST
                          then SPI.SPI_DEVICE_BIT_LSBFIRST else 0))]))) /\
    (ok = false ->
     SPIDevice.transfer tx data dev' = (0, []) /\
     SPIDevice.writeBuffer tx buffer dev' = (0%N, [])).
Proof.
  exact (spidevice_begin_facts bus add0 add tx sck mosi miso cs freq dataOrder
           dataMode data buffer spi Hcs).
Qed.

Lemma spidevice_begin_needs_bus_witness :
  let tx := fun _ : list Z => (ESP_OK, @nil Z) in
  let theSPI :=
    fst (SPI.begin ESP_OK (ESP_OK, None) 21 19 20 SPI.GPIO_NUM_NC SPI.SPI0) in
  let dev := SPIDevice.create 5 4000000 SPI.MSBFIRST SPI.SPI_MODE0
               (Some theSPI) in
  -128 <= 5 < 64 /\
  exists dev' calls ok,
    SPIDevice.begin (ESP_OK, Some 7) theSPI dev = Some (dev', calls, ok) /\
    SPIDevice._begun dev' = ok /\
    (ok = true <->
     0 <= 5
     /\ (SPI.isInitialized SPI.SPI0 = true
         \/ ESP_OK = ESP_OK \/ ESP_OK = ESP_ERR_INVALID_STATE)
     /\ fst (ESP_OK, Some 7) = ESP_OK) /\
    (5 < 0 -> calls = []) /\
    (0 <= 5 ->
     exists rest,
       calls = SPIDevice.Gpio (Arduino.GpioConfig (2 ^ 5) true false false)
               :: SPIDevice.Gpio (Arduino.GpioSetLevel 5 Arduino.HIGH)
               :: rest /\
       ((SPI.isInitialized theSPI = false /\ rest = [])
        \/ (SPI.isInitialized theSPI = true /\
            rest = [SPIDevice.Bus
                      (SPI.BusAddDevice (SPI.spi_host_ SPI.SPI0) 5 4000000
                         SPI.SPI_MODE0
                         (if SPI.MSBFIRST =? SPI.LSBFIRST
                          then SPI.SPI_DEVICE_BIT_LSBFIRST else 0))]))) /\
    (ok = false ->
     SPIDevice.transfer tx 0xA5 dev' = (0, []) /\
     SPIDevice.writeBuffer tx [1; 2; 3] dev' = (0%N, [])).
Proof.
  intros tx theSPI dev.
  assert (Hcs : -128 <= 5 < 64) by lia.
  split; [exact Hcs|].
  exact (spidevice_begin_needs_bus ESP_OK (ESP_OK, None) (ESP_OK, Some 7) tx
           21 19 20 5 4000000 SPI.MSBFIRST SPI.SPI_MODE0 0xA5 [1; 2; 3]
           SPI.SPI0 Hcs).
Defined.

(** ** The I2C device *)

Section I2CFacts.

Import I2CDevice.

Lemma nth_error_store_at {A : Type} (i : nat) (v : A) (l : list A) :
  (i < List.length l)%nat -> nth_error (store_at i v l) i = Some v.
Proof.
  intros Hi. unfold store_at.
  rewrite nth_error_app2 by (rewrite List.length_firstn; lia).
  rewrite List.length_firstn.
  replace (i - Nat.min i (List.length l))%nat with 0%nat by lia.
  reflexivity.
Qed.

Lemma nth_error_store_at_other {A : Type} (i j : nat) (v : A) (l : list A) :
  (i < List.length l)%nat -> i <> j ->
  nth_error (store_at i v l) j = nth_error l j.
Proof.
  intros Hi Hij. unfold store_at.
  destruct (Nat.lt_ge_cases j i) as [Hj|Hj].
  - rewrite nth_error_app1 by (rewrite List.length_firstn; lia).
    apply nth_error_firstn_below. exact Hj.
  - rewrite nth_error_app2 by (rewrite List.length_firstn; lia).
    rewrite List.length_firstn.
    replace (Nat.min i (List.length l)) with i by lia.
    destruct (j - i)%nat as [|k] eqn:Hk; [lia|].
    cbn [nth_error]. rewrite nth_error_skipn. f_equal. lia.
Qed.

Lemma length_store_at {A : Type} (i : nat) (v : A) (l : list A) :
  (i < List.length l)%nat -> List.length (store_at i v l) = List.length l.
Proof.
  intros Hi. unfold store_at.
  rewrite List.length_app, List.length_firstn. cbn [List.length].
  rewrite List.length_skipn. lia.
Qed.

Lemma write_whole_buffers (malloc : Z -> bool) (transmit : list Z -> Z)
  (mem pmem : list Z) (dev : Adafruit_I2CDevice) :
  Z.of_nat (List.length pmem + List.length mem) < 2 ^ 32 ->
  write malloc transmit (Some mem) (Z.of_nat (List.length mem))
    (Some pmem) (Z.of_nat (List.length pmem)) dev
  = Some
      match initialized_ dev, device_handle_ dev, mem with
      | true, Some device, _ :: _ =>
          if negb (Z.of_nat (List.length pmem + List.length mem) <=? 64)
             && negb (Z.of_nat (List.length pmem) =? 0)
             && negb (malloc (Z.of_nat (List.length pmem + List.length mem)))
          then (false, [])
          else (transmit (pmem ++ mem) =? ESP_OK,
                [Transmit device (pmem ++ mem)])
      | _, _, _ => (false, [])
      end.
Proof.
  intros Hfit. unfold write, max_stack_size.
  destruct (initialized_ dev); [|reflexivity]. cbn [negb].
  destruct (device_handle_ dev) as [device|]; [|reflexivity].
  destruct mem as [|b mem]; [reflexivity|].
  set (m := b :: mem) in *.
  assert (Hm : 0 < Z.of_nat (List.length m)) by (subst m; cbn; lia).
  replace (Z.of_nat (List.length m) =? 0) with false
    by (symmetry; apply Z.eqb_neq; lia).
  rewrite Nat2Z.id, firstn_all.
  replace (Z.of_nat (List.length m) <? Z.of_nat (List.length m)) with false
    by (symmetry; apply Z.ltb_ge; lia).
  rewrite Nat2Z.id, firstn_all.
  rewrite !Z.leb_refl. cbn [andb].
  rewrite Nat2Z.inj_add in *.
  unfold wrap32, wrap. rewrite Z.mod_small by lia.
  destruct pmem as [|p pmem].
  - cbn [List.length Z.of_nat Z.ltb Z.compare]. cbn.
    rewrite andb_false_r. reflexivity.
  - set (q := p :: pmem) in *.
    assert (Hq : 0 < Z.of_nat (List.length q)) by (subst q; cbn; lia).
    replace (0 <? Z.of_nat (List.length q)) with true
      by (symmetry; apply Z.ltb_lt; lia).
    replace (Z.of_nat (List.length q) =? 0) with false
      by (symmetry; apply Z.eqb_neq; lia).
    cbn [negb andb]. rewrite andb_true_r.
    destruct (Z.leb_spec (Z.of_nat (List.length q) + Z.of_nat (List.length m))
                64); cbn [negb andb]; [reflexivity|].
    rewrite Z.leb_refl.
    destruct (malloc _); reflexivity.
Qed.

Lemma end_then_begin (newBus addDevice : Z * option Z) (probe : Z)
  (addr_detect : bool) (st : Statics) (dev : Adafruit_I2CDevice) :
  initialized_ dev = true ->
  let dev1 := fst (end_ dev) in
  device_handle_ dev1 = None /\
  begin newBus addDevice probe addr_detect st dev1
  = Some (dev1, st, [], true) /\
  (forall malloc transmit buffer len prefix_buffer prefix_len,
     write malloc transmit buffer len prefix_buffer prefix_len dev1
     = Some (false, [])) /\
  (forall receive buffer len,
     read receive buffer len dev1 = (false, buffer, [])).
Proof.
  intros Hinit dev1.
  assert (Hh : device_handle_ dev1 = None)
    by (subst dev1; unfold end_; destruct (device_handle_ dev) eqn:E;
        cbn; auto).
  assert (Hi : initialized_ dev1 = true)
    by (subst dev1; unfold end_; destruct (device_handle_ dev);
        cbn; exact Hinit).
  split; [exact Hh|].
  split; [unfold begin; rewrite Hi; reflexivity|].
  split.
  - intros. unfold write. rewrite Hi, Hh. reflexivity.
  - intros. unfold read. rewrite Hi, Hh. reflexivity.
Qed.

Lemma initBus_shared (newBus newBus2 : Z * option Z) (st st' : Statics)
  (dev1 dev1' dev2 : Adafruit_I2CDevice) (calls : list Call) (bus : Z) :
  bus_handle_ dev1 = None ->
  initBus newBus st dev1 = Some (dev1', st', calls, true) ->
  bus_handle_ dev1' = Some bus ->
  bus_handle_ dev2 = None ->
  i2c_port_ dev2 = i2c_port_ dev1 ->
  sda_pin_ dev2 <> GPIO_NUM_NC -> scl_pin_ dev2 <> GPIO_NUM_NC ->
  initBus newBus2 st' dev2 = Some (set_bus_handle (Some bus) dev2, st', [], true).
Proof.
  intros Hnone Hfirst Hbus Hnone2 Hport Hsda Hscl.
  unfold initBus in *. rewrite Hnone in Hfirst. rewrite Hnone2, Hport.
  destruct (MAX_I2C_PORTS <=? i2c_port_ dev1); [discriminate|].
  replace ((sda_pin_ dev2 =? GPIO_NUM_NC) || (scl_pin_ dev2 =? GPIO_NUM_NC))
    with false
    by (symmetry; apply orb_false_iff; split; apply Z.eqb_neq; assumption).
  destruct ((sda_pin_ dev1 =? GPIO_NUM_NC) || (scl_pin_ dev1 =? GPIO_NUM_NC));
    [discriminate|].
  destruct (i2c_port_ dev1 <? 0); [discriminate|].
  set (port := Z.to_nat (i2c_port_ dev1)) in *.
  destruct (nth_error (s_bus_initialized st) port) as [ini|] eqn:E1;
    [|discriminate].
  destruct (nth_error (s_global_i2c_bus st) port) as [glob|] eqn:E2;
    [|destruct ini; discriminate].
  assert (L1 : (port < List.length (s_bus_initialized st))%nat)
    by (apply nth_error_Some; congruence).
  assert (L2 : (port < List.length (s_global_i2c_bus st))%nat)
    by (apply nth_error_Some; congruence).
  assert (Hst : nth_error (s_bus_initialized st') port = Some true /\
                nth_error (s_global_i2c_bus st') port = Some (Some bus)).
  { destruct newBus as (ret, written).
    assert (Hnew :
      (if negb (ret =? ESP_OK)
       then
         Some (set_bus_handle (stored written None) dev1, st,
               [NewMasterBus (i2c_port_ dev1) (sda_pin_ dev1)
                  (scl_pin_ dev1)], false)
       else
         Some (set_bus_handle (stored written None) dev1,
               {| s_global_i2c_bus :=
                    store_at port
                      (bus_handle_
                         (set_bus_handle (stored written None) dev1))
                      (s_global_i2c_bus st);
                  s_bus_initialized :=
                    store_at port true (s_bus_initialized st);
                  s_bus_sda_pin :=
                    store_at port (sda_pin_ dev1) (s_bus_sda_pin st);
                  s_bus_scl_pin :=
                    store_at port (scl_pin_ dev1) (s_bus_scl_pin st);
                  s_default_sda := s_default_sda st;
                  s_default_scl := s_default_scl st;
                  s_default_freq := s_default_freq st;
                  s_default_port := s_default_port st |},
               [NewMasterBus (i2c_port_ dev1) (sda_pin_ dev1)
                  (scl_pin_ dev1)], true))
      = Some (dev1', st', calls, true) ->
      nth_error (s_bus_initialized st') port = Some true /\
      nth_error (s_global_i2c_bus st') port = Some (Some bus)).
    { destruct (negb (ret =? ESP_OK)); [discriminate|].
      intros [= <- <- _]. cbn in Hbus |- *.
      rewrite !nth_error_store_at by assumption.
      rewrite Hbus. split; reflexivity. }
    destruct ini; [destruct glob as [g|]|].
    - injection Hfirst as <- <- _. cbn in Hbus.
      injection Hbus as <-. split; assumption.
    - apply Hnew. exact Hfirst.
    - destruct glob; apply Hnew; exact Hfirst. }
  destruct Hst as (-> & ->). reflexivity.
Qed.

End I2CFacts.
(** [write] called with whole buffers (lengths below 2^32 in all). It
    returns false without a driver call when the device is not
    initialized, has no handle, or the data is empty. Otherwise it makes
    one transmission whose payload is the prefix followed by the data, and
    returns whether the driver answered ESP_OK; only when there is a
    prefix, prefix and data exceed 64 bytes and the allocation fails does
    it return false without transmitting. *)
Theorem i2c_write_sends_prefix_then_data (malloc : Z -> bool)
  (transmit : list Z -> Z) (mem pmem : list Z)
  (dev : I2CDevice.Adafruit_I2CDevice)
  (Hfit : Z.of_nat (List.length pmem + List.length mem) < 2 ^ 32) :
  I2CDevice.write malloc transmit (Some mem) (Z.of_nat (List.length mem))
    (Some pmem) (Z.of_nat (List.length pmem)) dev
  = Some
      match I2CDevice.initialized_ dev, I2CDevice.device_handle_ dev, mem with
      | true, Some device, _ :: _ =>
          if negb (Z.of_nat (List.length pmem + List.length mem) <=? 64)
             && negb (Z.of_nat (List.length pmem) =? 0)
             && negb (malloc (Z.of_nat (List.length pmem + List.length mem)))
          then (false, [])
          else (transmit (pmem ++ mem) =? ESP_OK,
                [I2CDevice.Transmit device (pmem ++ mem)])
      | _, _, _ => (false, [])
      end.
Proof.
  exact (write_whole_buffers malloc transmit mem pmem dev Hfit).
Qed.

Lemma i2c_write_sends_prefix_then_data_witness :
  let malloc := fun _ : Z => true in
  let transmit := fun _ : list Z => ESP_OK in
  let dev :=
    {| I2CDevice.addr_ := 0x3C; I2CDevice.bus_handle_ := Some 100;
       I2CDevice.device_handle_ := Some 200;
       I2CDevice.initialized_ := true; I2CDevice.sda_pin_ := 6;
       I2CDevice.scl_pin_ := 7; I2CDevice.i2c_freq_ := 100000;
       I2CDevice.i2c_port_ := 0 |} in
  Z.of_nat (List.length [0x40] + List.length [1; 2; 3]) < 2 ^ 32 /\
  I2CDevice.write malloc transmit (Some [1; 2; 3]) 3 (Some [0x40]) 1 dev
  = Some (true, [I2CDevice.Transmit 200 [0x40; 1; 2; 3]]).
Proof.
  intros malloc transmit dev.
  assert (Hfit : Z.of_nat (List.length [0x40] + List.length [1; 2; 3])
                 < 2 ^ 32) by (vm_compute; reflexivity).
  split; [exact Hfit|].
  exact (i2c_write_sends_prefix_then_data malloc transmit [1; 2; 3] [0x40]
           dev Hfit).
Defined.

(** [end()] removes the device but leaves [initialized_] set. So on a
    device that was initialized, after [end()] a [begin()] returns true
    without asking the driver for anything, the handle stays null, and
    every [write] and [read] returns false without a driver call. *)
Theorem i2c_end_then_begin_is_stale (newBus addDevice : Z * option Z)
  (probe : Z) (addr_detect : bool) (st : I2CDevice.Statics)
  (dev : I2CDevice.Adafruit_I2CDevice)
  (Hinit : I2CDevice.initialized_ dev = true) :
  let dev1 := fst (I2CDevice.end_ dev) in
  I2CDevice.device_handle_ dev1 = None /\
  I2CDevice.begin newBus addDevice probe addr_detect st dev1
  = Some (dev1, st, [], true) /\
  (forall malloc transmit buffer len prefix_buffer prefix_len,
     I2CDevice.write malloc transmit buffer len prefix_buffer prefix_len dev1
     = Some (false, [])) /\
  (forall receive buffer len,
     I2CDevice.read receive buffer len dev1 = (false, buffer, [])).
Proof.
  exact (end_then_begin newBus addDevice probe addr_detect st dev Hinit).
Qed.

Lemma i2c_end_then_begin_is_stale_witness :
  let dev0 := fst (I2CDevice.create 6 7 0x3C None I2CDevice.statics0) in
  let st0 := snd (I2CDevice.create 6 7 0x3C None I2CDevice.statics0) in
  match I2CDevice.begin (ESP_OK, Some 100) (ESP_OK, Some 200) ESP_OK true
          st0 dev0 with
  | Some (dev, st, _, _) =>
      I2CDevice.initialized_ dev = true /\
      let dev1 := fst (I2CDevice.end_ dev) in
      I2CDevice.device_handle_ dev1 = None /\
      I2CDevice.begin (ESP_OK, Some 101) (ESP_OK, Some 201) ESP_OK true st
        dev1
      = Some (dev1, st, [], true) /\
      (forall malloc transmit buffer len prefix_buffer prefix_len,
         I2CDevice.write malloc transmit buffer len prefix_buffer prefix_len
           dev1
         = Some (false, [])) /\
      (forall receive buffer len,
         I2CDevice.read receive buffer len dev1 = (false, buffer, []))
  | None => False
  end.
Proof.
  intros dev0 st0.
  destruct (I2CDevice.begin (ESP_OK, Some 100) (ESP_OK, Some 200) ESP_OK true
              st0 dev0) as [[[[dev st] calls] ok]|] eqn:E;
    [|vm_compute in E; discriminate].
  assert (Hinit : I2CDevice.initialized_ dev = true)
    by (vm_compute in E; injection E as <- _ _ _; reflexivity).
  split; [exact Hinit|].
  exact (i2c_end_then_begin_is_stale (ESP_OK, Some 101) (ESP_OK, Some 201)
           ESP_OK true st dev Hinit).
Defined.

(** The bus of a port is shared through the file-scope arrays: once
    [initBus] has succeeded for a device that came without a bus handle
    and left it with a non-null one, [initBus] for any other device on
    the same port that comes without a handle and with both pins set
    makes no driver call and gives that device the same bus handle, even
    when its pins differ from those the bus was created with. *)
Theorem i2c_bus_shared_per_port (newBus newBus2 : Z * option Z)
  (st st' : I2CDevice.Statics)
  (dev1 dev1' dev2 : I2CDevice.Adafruit_I2CDevice)
  (calls : list I2CDevice.Call) (bus : Z)
  (Hnone : I2CDevice.bus_handle_ dev1 = None)
  (Hfirst : I2CDevice.initBus newBus st dev1 = Some (dev1', st', calls, true))
  (Hbus : I2CDevice.bus_handle_ dev1' = Some bus)
  (Hnone2 : I2CDevice.bus_handle_ dev2 = None)
  (Hport : I2CDevice.i2c_port_ dev2 = I2CDevice.i2c_port_ dev1)
  (Hsda : I2CDevice.sda_pin_ dev2 <> I2CDevice.GPIO_NUM_NC)
  (Hscl : I2CDevice.scl_pin_ dev2 <> I2CDevice.GPIO_NUM_NC) :
  I2CDevice.initBus newBus2 st' dev2
  = Some (I2CDevice.set_bus_handle (Some bus) dev2, st', [], true).
Proof.
  exact (initBus_shared newBus newBus2 st st' dev1 dev1' dev2 calls bus
           Hnone Hfirst Hbus Hnone2 Hport Hsda Hscl).
Qed.

Lemma i2c_bus_shared_per_port_witness :
  let dev1 := fst (I2CDevice.create 6 7 0x3C None I2CDevice.statics0) in
  let st := snd (I2CDevice.create 6 7 0x3C None I2CDevice.statics0) in
  let dev2 :=
    {| I2CDevice.addr_ := 0x3D; I2CDevice.bus_handle_ := None;
       I2CDevice.device_handle_ := None; I2CDevice.initialized_ := false;
       I2CDevice.sda_pin_ := 4; I2CDevice.scl_pin_ := 5;
       I2CDevice.i2c_freq_ := 400000; I2CDevice.i2c_port_ := 0 |} in
  match I2CDevice.initBus (ESP_OK, Some 100) st dev1 with
  | Some (dev1', st', calls, true) =>
      calls = [I2CDevice.NewMasterBus 0 6 7] /\
      I2CDevice.initBus (ESP_OK, Some 101) st' dev2
      = Some (I2CDevice.set_bus_handle (Some 100) dev2, st', [], true)
  | _ => False
  end.
Proof.
  intros dev1 st dev2.
  destruct (I2CDevice.initBus (ESP_OK, Some 100) st dev1)
    as [[[[dev1' st'] calls] ok]|] eqn:E; [|vm_compute in E; discriminate].
  destruct ok; [|vm_compute in E; discriminate].
  assert (Hcalls : calls = [I2CDevice.NewMasterBus 0 6 7])
    by (vm_compute in E; injection E as _ _ <-; reflexivity).
  split; [exact Hcalls|].
  assert (Hnone : I2CDevice.bus_handle_ dev1 = None) by reflexivity.
  assert (Hbus : I2CDevice.bus_handle_ dev1' = Some 100)
    by (vm_compute in E; injection E as <- _ _; reflexivity).
  assert (Hnone2 : I2CDevice.bus_handle_ dev2 = None) by reflexivity.
  assert (Hport : I2CDevice.i2c_port_ dev2 = I2CDevice.i2c_port_ dev1)
    by reflexivity.
  assert (Hsda : I2CDevice.sda_pin_ dev2 <> I2CDevice.GPIO_NUM_NC)
    by discriminate.
  assert (Hscl : I2CDevice.scl_pin_ dev2 <> I2CDevice.GPIO_NUM_NC)
    by discriminate.
  exact (i2c_bus_shared_per_port (ESP_OK, Some 100) (ESP_OK, Some 101) st st'
           dev1 dev1' dev2 calls 100 Hnone E Hbus Hnone2 Hport Hsda Hscl).
Defined.

(** ** The SH1106 frame buffer *)

Section PanelFacts.

Import SH1106.

Lemma to_int16_congr (a : Z) : exists k, to_int16 a = a + 65536 * k.
Proof.
  unfold to_int16, to_signed, wrap. change (2 ^ 16) with 65536.
  change (2 ^ (16 - 1)) with 32768.
  destruct (a mod 65536 <? 32768).
  - exists (- (a / 65536)). Z.div_mod_to_equations. lia.
  - exists (- (a / 65536) - 1). Z.div_mod_to_equations. lia.
Qed.

Lemma to_int16_int16 (a : Z) : int16 (to_int16 a).
Proof.
  unfold int16, to_int16, to_signed, wrap. change (2 ^ 16) with 65536.
  change (2 ^ (16 - 1)) with 32768.
  destruct (Z.ltb_spec (a mod 65536) 32768); Z.div_mod_to_equations; lia.
Qed.

Lemma to_int16_flip_inj (c x x' : Z) :
  int16 x -> int16 x' -> to_int16 (c - x) = to_int16 (c - x') -> x = x'.
Proof.
  unfold int16. intros Hx Hx' E.
  destruct (to_int16_congr (c - x)) as (k & Hk).
  destruct (to_int16_congr (c - x')) as (k' & Hk'). lia.
Qed.

Lemma rotated_inj (d : Adafruit_SH1106) (x y x' y' : Z) :
  int16 x -> int16 y -> int16 x' -> int16 y' ->
  rotated d x y = rotated d x' y' -> x = x' /\ y = y'.
Proof.
  intros Hx Hy Hx' Hy'. unfold rotated.
  destruct (rotation d =? 1).
  { intros [= E1 E2]. split; [|exact E1].
    apply (to_int16_flip_inj (HEIGHT d - 1)); assumption. }
  destruct (rotation d =? 2).
  { intros [= E1 E2]. split.
    - apply (to_int16_flip_inj (WIDTH d - 1)); assumption.
    - apply (to_int16_flip_inj (HEIGHT d - 1)); assumption. }
  destruct (rotation d =? 3).
  { intros [= E1 E2]. split; [exact E2|].
    apply (to_int16_flip_inj (WIDTH d - 1)); assumption. }
  intros [= E1 E2]. split; assumption.
Qed.

Lemma outside_false (d : Adafruit_SH1106) (x y : Z) :
  outside d x y = false <-> 0 <= x < WIDTH d /\ 0 <= y < HEIGHT d.
Proof.
  unfold outside. rewrite !orb_false_iff.
  rewrite !Z.ltb_ge, !Z.leb_gt. lia.
Qed.

(** Where an in-bounds physical pixel lives. *)
Lemma locate_in_bounds (d : Adafruit_SH1106) (buf : list Z) (x y : Z) :
  panelReady d buf -> 0 <= x < WIDTH d -> 0 <= y < HEIGHT d ->
  pageOf y = y / 8 /\ bitOf y = y mod 8 /\
  indexOf d x y = y / 8 * WIDTH d + x /\
  0 <= y / 8 * WIDTH d + x < Z.of_nat (List.length buf).
Proof.
  intros (HW & HH & H8 & Hsz & _ & Hlen & _) Hx Hy.
  assert (Hp : pageOf y = y / 8).
  { unfold pageOf, wrap8, wrap. rewrite Z.quot_div_nonneg by lia.
    change (2 ^ 8) with 256. apply Z.mod_small.
    Z.div_mod_to_equations. lia. }
  assert (Hb : bitOf y = y mod 8).
  { unfold bitOf, wrap8, wrap. rewrite Z.rem_mod_nonneg by lia.
    change (2 ^ 8) with 256. apply Z.mod_small.
    Z.div_mod_to_equations. lia. }
  assert (Hrange : 0 <= y / 8 * WIDTH d + x < WIDTH d * HEIGHT d / 8).
  { assert (E : WIDTH d * HEIGHT d / 8 = HEIGHT d / 8 * WIDTH d).
    { assert (E8 : HEIGHT d = 8 * (HEIGHT d / 8))
        by (Z.div_mod_to_equations; lia).
      rewrite E8 at 1.
      replace (WIDTH d * (8 * (HEIGHT d / 8)))
        with (HEIGHT d / 8 * WIDTH d * 8) by ring.
      apply Z.div_mul. lia. }
    rewrite E.
    assert (Hpg : 0 <= y / 8 < HEIGHT d / 8)
      by (Z.div_mod_to_equations; lia).
    nia. }
  split; [exact Hp|]. split; [exact Hb|].
  split; [|lia].
  unfold indexOf. rewrite Hp. unfold wrap. change (2 ^ 16) with 65536.
  apply Z.mod_small.
  assert (WIDTH d * HEIGHT d / 8 <= 65536)
    by (Z.div_mod_to_equations; lia).
  lia.
Qed.

Lemma locate_inj (d : Adafruit_SH1106) (x y x' y' : Z) :
  0 <= x < WIDTH d -> 0 <= x' < WIDTH d -> 0 <= y -> 0 <= y' ->
  y / 8 * WIDTH d + x = y' / 8 * WIDTH d + x' -> y mod 8 = y' mod 8 ->
  x = x' /\ y = y'.
Proof.
  intros Hx Hx' Hy Hy' E Eb.
  assert (Hp : y / 8 = y' / 8) by nia.
  split; [nia|]. Z.div_mod_to_equations. lia.
Qed.

Lemma read_bit (b bit : Z) :
  0 <= bit -> negb (Z.land (Z.shiftr b bit) 1 =? 0) = Z.testbit b bit.
Proof.
  intros Hbit. change 1 with (Z.ones 1) at 1.
  rewrite Z.land_ones by lia. rewrite Z.shiftr_div_pow2 by lia.
  change (2 ^ 1) with 2.
  pose proof (Z.testbit_spec' b bit Hbit) as E.
  destruct (Z.testbit b bit); cbn [Z.b2z] in E; rewrite <- E; reflexivity.
Qed.

Lemma set_bit (b bit k : Z) :
  0 <= bit < 8 -> 0 <= k < 8 ->
  Z.testbit (wrap8 (Z.lor b (Z.shiftl 1 bit))) k
  = Z.testbit b k || (bit =? k).
Proof.
  intros Hbit Hk. unfold wrap8, wrap.
  rewrite Z.mod_pow2_bits_low by lia.
  rewrite Z.lor_spec, Z.shiftl_1_l, Z.pow2_bits_eqb by lia. reflexivity.
Qed.

Lemma clear_bit (b bit k : Z) :
  0 <= bit < 8 -> 0 <= k < 8 ->
  Z.testbit (wrap8 (Z.land b (Z.lnot (Z.shiftl 1 bit)))) k
  = Z.testbit b k && negb (bit =? k).
Proof.
  intros Hbit Hk. unfold wrap8, wrap.
  rewrite Z.mod_pow2_bits_low by lia.
  rewrite Z.land_spec, Z.lnot_spec, Z.shiftl_1_l, Z.pow2_bits_eqb by lia.
  reflexivity.
Qed.

Lemma wrap8_byte (z : Z) : 0 <= wrap8 z < 256.
Proof.
  unfold wrap8, wrap. change (2 ^ 8) with 256. apply Z.mod_pos_bound. lia.
Qed.

Lemma Forall_store_at {A : Type} (P : A -> Prop) (i : nat) (v : A)
  (l : list A) :
  Forall P l -> P v -> Forall P (store_at i v l).
Proof.
  intros Hl Hv. unfold store_at.
  apply Forall_app. split.
  - apply Forall_forall. intros a Ha.
    rewrite Forall_forall in Hl. apply Hl.
    rewrite <- (firstn_skipn i l). apply in_or_app. left. exact Ha.
  - constructor; [exact Hv|].
    apply Forall_forall. intros a Ha.
    rewrite Forall_forall in Hl. apply Hl.
    rewrite <- (firstn_skipn (S i) l). apply in_or_app. right. exact Ha.
Qed.

Lemma draw_then_get (d : Adafruit_SH1106) (buf : list Z) (x y color : Z) :
  panelReady d buf -> int16 x -> int16 y ->
  exists d' buf',
    drawPixel x y color d = Some d' /\
    panelReady d' buf' /\
    WIDTH d' = WIDTH d /\ HEIGHT d' = HEIGHT d /\
    rotation d' = rotation d /\ i2c_dev d' = i2c_dev d /\
    getPixel x y d'
    = Some (let '(px, py) := rotated d x y in
            negb (outside d px py) && negb (color =? 0)) /\
    (forall x' y', int16 x' -> int16 y' -> (x', y') <> (x, y) ->
                   getPixel x' y' d' = getPixel x' y' d) /\
    (forall x' y', int16 x' -> int16 y' ->
                   exists pixel, getPixel x' y' d = Some pixel).
Proof.
  intros Hready Hx Hy.
  pose proof Hready as (HW & HH & H8 & Hsz & Hbuf & Hlen & Hbytes).
  assert (Hget : forall x' y',
             exists pixel, getPixel x' y' d = Some pixel).
  { intros x' y'. unfold getPixel. rewrite Hbuf.
    destruct (rotated d x' y') as (qx, qy).
    destruct (outside d qx qy) eqn:Ho; [eexists; reflexivity|].
    apply outside_false in Ho. destruct Ho as (Hqx & Hqy).
    destruct (locate_in_bounds d buf qx qy Hready Hqx Hqy)
      as (_ & _ & Hi & Hr).
    rewrite Hi.
    destruct (nth_error buf (Z.to_nat (qy / 8 * WIDTH d + qx))) eqn:E;
      [eexists; reflexivity|].
    apply nth_error_None in E. lia. }
  unfold drawPixel. rewrite Hbuf.
  destruct (rotated d x y) as (px, py) eqn:Hrot.
  destruct (outside d px py) eqn:Hout.
  { exists d, buf. split; [reflexivity|]. split; [exact Hready|].
    repeat (split; [reflexivity|]).
    split; [|split; [reflexivity|intros; apply Hget]].
    unfold getPixel. rewrite Hbuf, Hrot, Hout. reflexivity. }
  pose proof Hout as Hin. apply outside_false in Hin.
  destruct Hin as (Hpx & Hpy).
  destruct (locate_in_bounds d buf px py Hready Hpx Hpy)
    as (Hp & Hb & Hi & Hr).
  rewrite Hi, Hb.
  set (index := Z.to_nat (py / 8 * WIDTH d + px)).
  set (bit := py mod 8).
  assert (Hbit : 0 <= bit < 8) by (subst bit; apply Z.mod_pos_bound; lia).
  assert (Hidx : (index < List.length buf)%nat) by (subst index; lia).
  destruct (nth_error buf index) as [b|] eqn:Hnth;
    [|apply nth_error_None in Hnth; lia].
  set (b' := if negb (color =? 0) then wrap8 (Z.lor b (Z.shiftl 1 bit))
             else wrap8 (Z.land b (Z.lnot (Z.shiftl 1 bit)))).
  set (buf' := store_at index b' buf).
  assert (Hb' : 0 <= b' < 256)
    by (subst b'; destruct (negb (color =? 0)); apply wrap8_byte).
  assert (Hready' : panelReady (set_buffer (Some buf') d) buf').
  { unfold panelReady. cbn [WIDTH HEIGHT buffer set_buffer].
    repeat (split; [assumption || lia|]).
    split; [reflexivity|].
    split; [subst buf'; rewrite length_store_at by exact Hidx; exact Hlen|].
    subst buf'. apply Forall_store_at; assumption. }
  exists (set_buffer (Some buf') d), buf'.
  split; [reflexivity|]. split; [exact Hready'|].
  repeat (split; [reflexivity|]).
  split; [|split; [|intros; apply Hget]].
  - unfold getPixel. cbn [buffer set_buffer].
    replace (rotated (set_buffer (Some buf') d) x y) with (px, py)
      by (rewrite <- Hrot; reflexivity).
    replace (outside (set_buffer (Some buf') d) px py) with false
      by (rewrite <- Hout; reflexivity).
    replace (indexOf (set_buffer (Some buf') d) px py)
      with (py / 8 * WIDTH d + px) by (rewrite <- Hi; reflexivity).
    rewrite Hb. fold index. fold bit.
    subst buf'. rewrite nth_error_store_at by exact Hidx.
    rewrite read_bit by lia. cbn [negb andb]. f_equal.
    subst b'. destruct (color =? 0); cbn [negb].
    + rewrite clear_bit by lia. rewrite Z.eqb_refl. cbn.
      apply andb_false_r.
    + rewrite set_bit by lia. rewrite Z.eqb_refl. apply orb_true_r.
  - intros x' y' Hx' Hy' Hne.
    unfold getPixel. cbn [buffer set_buffer]. rewrite Hbuf.
    replace (rotated (set_buffer (Some buf') d) x' y')
      with (rotated d x' y') by reflexivity.
    destruct (rotated d x' y') as (qx, qy) eqn:Hrot'.
    replace (outside (set_buffer (Some buf') d) qx qy)
      with (outside d qx qy) by reflexivity.
    destruct (outside d qx qy) eqn:Hout'; [reflexivity|].
    apply outside_false in Hout'. destruct Hout' as (Hqx & Hqy).
    destruct (locate_in_bounds d buf qx qy Hready Hqx Hqy)
      as (_ & Hb2 & Hi2 & Hr2).
    replace (indexOf (set_buffer (Some buf') d) qx qy)
      with (indexOf d qx qy) by reflexivity.
    rewrite Hi2, Hb2.
    destruct (Nat.eq_dec index (Z.to_nat (qy / 8 * WIDTH d + qx)))
      as [Esame|Ediff].
    + rewrite <- Esame. subst buf'.
      rewrite nth_error_store_at by exact Hidx. rewrite Hnth.
      assert (Hbit2 : 0 <= qy mod 8 < 8) by (apply Z.mod_pos_bound; lia).
      rewrite !read_bit by lia. f_equal.
      assert (Hbne : bit <> qy mod 8).
      { intros Eb. apply Hne.
        assert (Eidx : py / 8 * WIDTH d + px = qy / 8 * WIDTH d + qx)
          by (subst index; lia).
        destruct (locate_inj d px py qx qy) as (E1 & E2);
          try lia; try assumption.
        assert (Er : rotated d x' y' = rotated d x y)
          by (rewrite Hrot, Hrot', E1, E2; reflexivity).
        apply rotated_inj in Er; try assumption.
        destruct Er as (-> & ->). reflexivity. }
      subst b'. destruct (negb (color =? 0)).
      * rewrite set_bit by lia.
        replace (bit =? qy mod 8) with false
          by (symmetry; apply Z.eqb_neq; exact Hbne).
        apply orb_false_r.
      * rewrite clear_bit by lia.
        replace (bit =? qy mod 8) with false
          by (symmetry; apply Z.eqb_neq; exact Hbne).
        apply andb_true_r.
    + subst buf'.
      rewrite nth_error_store_at_other by assumption. reflexivity.
Qed.

End PanelFacts.

(** On a panel whose buffer [begin] allocated and whose geometry the index
    arithmetic can address, for any coordinates and any rotation:
    [drawPixel] stays inside the buffer and keeps the panel in that shape;
    [getPixel] at the same coordinates then returns whether the color was
    non-zero, or false when the rotated coordinates are off the panel (the
    call changed nothing then); [getPixel] at any other coordinates
    returns what it returned before; and [getPixel] never reads outside
    the buffer. *)
Theorem sh1106_draw_then_get (d : SH1106.Adafruit_SH1106) (buf : list Z)
  (x y color : Z)
  (Hready : panelReady d buf) (Hx : int16 x) (Hy : int16 y) :
  exists d' buf',
    SH1106.drawPixel x y color d = Some d' /\
    panelReady d' buf' /\
    SH1106.WIDTH d' = SH1106.WIDTH d /\
    SH1106.HEIGHT d' = SH1106.HEIGHT d /\
    SH1106.rotation d' = SH1106.rotation d /\
    SH1106.i2c_dev d' = SH1106.i2c_dev d /\
    SH1106.getPixel x y d'
    = Some (let '(px, py) := SH1106.rotated d x y in
            negb (SH1106.outside d px py) && negb (color =? 0)) /\
    (forall x' y', int16 x' -> int16 y' -> (x', y') <> (x, y) ->
                   SH1106.getPixel x' y' d' = SH1106.getPixel x' y' d) /\
    (forall x' y', int16 x' -> int16 y' ->
                   exists pixel, SH1106.getPixel x' y' d = Some pixel).
Proof.
  exact (draw_then_get d buf x y color Hready Hx Hy).
Qed.

Lemma sh1106_draw_then_get_witness :
  let buf := repeat 0 1024 in
  let d :=
    {| SH1106.WIDTH := 128; SH1106.HEIGHT := 64; SH1106.rotation := 1;
       SH1106.i2c_dev := None; SH1106.buffer := Some buf;
       SH1106.rstpin := -1; SH1106.i2caddr := 0x3C |} in
  panelReady d buf /\ int16 10 /\ int16 20 /\
  exists d' buf',
    SH1106.drawPixel 10 20 1 d = Some d' /\
    panelReady d' buf' /\
    SH1106.WIDTH d' = SH1106.WIDTH d /\
    SH1106.HEIGHT d' = SH1106.HEIGHT d /\
    SH1106.rotation d' = SH1106.rotation d /\
    SH1106.i2c_dev d' = SH1106.i2c_dev d /\
    SH1106.getPixel 10 20 d'
    = Some (let '(px, py) := SH1106.rotated d 10 20 in
            negb (SH1106.outside d px py) && negb (1 =? 0)) /\
    (forall x' y', int16 x' -> int16 y' -> (x', y') <> (10, 20) ->
                   SH1106.getPixel x' y' d' = SH1106.getPixel x' y' d) /\
    (forall x' y', int16 x' -> int16 y' ->
                   exists pixel, SH1106.getPixel x' y' d = Some pixel).
Proof.
  intros buf d.
  assert (Hready : panelReady d buf).
  { unfold panelReady. cbn [SH1106.WIDTH SH1106.HEIGHT SH1106.buffer d].
    split; [lia|]. split; [lia|]. split; [reflexivity|]. split; [lia|].
    split; [reflexivity|]. split; [reflexivity|].
    apply Forall_forall. intros b Hb. apply repeat_spec in Hb. lia. }
  assert (Hx : int16 10) by (unfold int16; lia).
  assert (Hy : int16 20) by (unfold int16; lia).
  split; [exact Hready|]. split; [exact Hx|]. split; [exact Hy|].
  exact (sh1106_draw_then_get d buf 10 20 1 Hready Hx Hy).
Defined.

(** ** The SH1106 refresh *)

Section RefreshFacts.

Import SH1106.

Variable malloc : nat -> Z -> bool.
Variable i2c_master_transmit : nat -> list Z -> Z.
Variable d : Adafruit_SH1106.
Variable buf : list Z.
Variable dev : I2CDevice.Adafruit_I2CDevice.
Variable device : Z.

Hypothesis Hwidth : 0 < WIDTH d <= 32767.
Hypothesis Hdev : i2c_dev d = Some dev.
Hypothesis Hinit : I2CDevice.initialized_ dev = true.
Hypothesis Hhandle : I2CDevice.device_handle_ dev = Some device.
Hypothesis Hmalloc : forall t n, malloc t n = true.

Lemma sh1106_command_sends (t : nat) (c : Z) :
  sh1106_command malloc i2c_master_transmit t c d
  = Some [I2CDevice.Transmit device [0x00; wrap8 c]].
Proof.
  unfold sh1106_command, I2CDevice.write. rewrite Hdev, Hinit, Hhandle.
  reflexivity.
Qed.

Lemma displayPage_spec (t : nat) (page : Z) :
  0 <= page < 8 ->
  displayPage malloc i2c_master_transmit t page d buf dev
  = if (page + 1) * WIDTH d <=? Z.of_nat (List.length buf)
    then Some (pageCalls device (WIDTH d) buf page)
    else None.
Proof.
  intros Hpage. unfold displayPage. rewrite !sh1106_command_sends.
  assert (Hoff : 0 <= page * WIDTH d) by nia.
  replace (page * WIDTH d <? 0) with false
    by (symmetry; apply Z.ltb_ge; exact Hoff).
  cbn [orb].
  destruct (Z.ltb_spec (Z.of_nat (List.length buf)) (page * WIDTH d))
    as [Hshort|Hlong].
  { replace ((page + 1) * WIDTH d <=? Z.of_nat (List.length buf)) with false
      by (symmetry; apply Z.leb_gt; lia).
    reflexivity. }
  unfold I2CDevice.write, I2CDevice.max_stack_size.
  rewrite Hinit, Hhandle. cbn [negb].
  assert (Hw : wrap32 (WIDTH d) = WIDTH d)
    by (unfold wrap32, wrap; apply Z.mod_small;
        change (2 ^ 32) with 4294967296; lia).
  rewrite Hw.
  replace (WIDTH d =? 0) with false by (symmetry; apply Z.eqb_neq; lia).
  change (0 <? 1) with true. cbn iota.
  rewrite List.length_skipn.
  assert (Ht : wrap32 (1 + WIDTH d) = 1 + WIDTH d)
    by (unfold wrap32, wrap; apply Z.mod_small;
        change (2 ^ 32) with 4294967296; lia).
  rewrite Ht. rewrite Hmalloc. cbn [negb].
  change (1 <=? Z.of_nat (List.length [64])) with true. cbn [andb].
  replace (Z.of_nat (List.length buf - Z.to_nat (page * WIDTH d)))
    with (Z.of_nat (List.length buf) - page * WIDTH d) by lia.
  replace (WIDTH d <=? Z.of_nat (List.length buf) - page * WIDTH d)
    with ((page + 1) * WIDTH d <=? Z.of_nat (List.length buf))
    by (destruct (Z.leb_spec ((page + 1) * WIDTH d)
                    (Z.of_nat (List.length buf)));
        symmetry; [apply Z.leb_le|apply Z.leb_gt]; lia).
  destruct ((page + 1) * WIDTH d <=? Z.of_nat (List.length buf));
    cbn [andb].
  - unfold pageCalls.
    assert (E : wrap8 (176 + page) = 176 + page)
      by (unfold wrap8, wrap; apply Z.mod_small;
          change (2 ^ 8) with 256; lia).
    rewrite E, ?Z.leb_refl.
    destruct (1 + WIDTH d <=? 64); reflexivity.
  - rewrite ?Z.leb_refl. destruct (1 + WIDTH d <=? 64); reflexivity.
Qed.

Lemma slice_then_rest (a w : nat) (l : list Z) :
  firstn w (skipn a l) ++ skipn (w + a) l = skipn a l.
Proof.
  rewrite <- skipn_skipn. apply firstn_skipn.
Qed.

Lemma display_whole :
  buffer d = Some buf ->
  Z.of_nat (List.length buf) = 8 * WIDTH d ->
  display malloc i2c_master_transmit d
  = Some (flat_map (pageCalls device (WIDTH d) buf) [0; 1; 2; 3; 4; 5; 6; 7])
  /\ dataBytes
       (flat_map (pageCalls device (WIDTH d) buf) [0; 1; 2; 3; 4; 5; 6; 7])
     = buf.
Proof.
  intros Hbuf Hlen. split.
  - unfold display. rewrite Hbuf, Hdev. cbn [displayPages].
    rewrite !displayPage_spec by lia.
    repeat (match goal with
            | |- context [?a <=? ?b] =>
                replace (a <=? b) with true
                  by (symmetry; apply Z.leb_le; lia)
            end).
    reflexivity.
  - cbn [flat_map pageCalls dataBytes app]. change (64 =? 64) with true.
    cbn iota. rewrite !app_nil_r.
    set (w := Z.to_nat (WIDTH d)).
    replace (Z.to_nat (0 * WIDTH d)) with 0%nat by lia.
    replace (Z.to_nat (1 * WIDTH d)) with (w + 0)%nat by lia.
    replace (Z.to_nat (2 * WIDTH d)) with (w + (w + 0))%nat by lia.
    replace (Z.to_nat (3 * WIDTH d)) with (w + (w + (w + 0)))%nat by lia.
    replace (Z.to_nat (4 * WIDTH d))
      with (w + (w + (w + (w + 0))))%nat by lia.
    replace (Z.to_nat (5 * WIDTH d))
      with (w + (w + (w + (w + (w + 0)))))%nat by lia.
    replace (Z.to_nat (6 * WIDTH d))
      with (w + (w + (w + (w + (w + (w + 0))))))%nat by lia.
    replace (Z.to_nat (7 * WIDTH d))
      with (w + (w + (w + (w + (w + (w + (w + 0)))))))%nat by lia.
    rewrite (firstn_all2 (n := w)
               (skipn (w + (w + (w + (w + (w + (w + (w + 0))))))) buf))
      by (rewrite List.length_skipn; lia).
    rewrite !slice_then_rest. reflexivity.
Qed.

Lemma display_short :
  buffer d = Some buf ->
  Z.of_nat (List.length buf) < 8 * WIDTH d ->
  display malloc i2c_master_transmit d = None.
Proof.
  intros Hbuf Hlen. unfold display. rewrite Hbuf, Hdev. cbn [displayPages].
  rewrite !displayPage_spec by lia.
  replace ((0 + 1 + 1 + 1 + 1 + 1 + 1 + 1 + 1) * WIDTH d
           <=? Z.of_nat (List.length buf)) with false
    by (symmetry; apply Z.leb_gt; lia).
  repeat (match goal with
          | |- context [if ?c then _ else _] => destruct c
          end; cbn [option_map]; try reflexivity).
Qed.

End RefreshFacts.

(** [display()] on a panel with a buffer and an I2C device that is
    initialized and has a handle, allocations succeeding. When the buffer
    holds 8 pages of WIDTH bytes (a panel 64 rows high), it sends, for
    pages 0 to 7 in order, the page address 0xB0 + page, the column
    commands 0x00 and 0x10, and the page's WIDTH bytes after the prefix
    0x40; the data bytes sent, in order, are the buffer. When the buffer
    is shorter than 8 pages (any panel lower than 64 rows), the loop over
    8 pages reads past the end of the buffer. *)
Theorem sh1106_display_sends_eight_pages (malloc : nat -> Z -> bool)
  (i2c_master_transmit : nat -> list Z -> Z)
  (d : SH1106.Adafruit_SH1106) (buf : list Z)
  (dev : I2CDevice.Adafruit_I2CDevice) (device : Z)
  (Hwidth : 0 < SH1106.WIDTH d <= 32767)
  (Hbuf : SH1106.buffer d = Some buf)
  (Hdev : SH1106.i2c_dev d = Some dev)
  (Hinit : I2CDevice.initialized_ dev = true)
  (Hhandle : I2CDevice.device_handle_ dev = Some device)
  (Hmalloc : forall t n, malloc t n = true) :
  (Z.of_nat (List.length buf) = 8 * SH1106.WIDTH d ->
   SH1106.display malloc i2c_master_transmit d
   = Some (flat_map (pageCalls device (SH1106.WIDTH d) buf)
             [0; 1; 2; 3; 4; 5; 6; 7])
   /\ dataBytes
        (flat_map (pageCalls device (SH1106.WIDTH d) buf)
           [0; 1; 2; 3; 4; 5; 6; 7])
      = buf) /\
  (Z.of_nat (List.length buf) < 8 * SH1106.WIDTH d ->
   SH1106.display malloc i2c_master_transmit d = None).
Proof.
  split; intros Hlen.
  - exact (display_whole malloc i2c_master_transmit d buf dev device Hwidth
             Hdev Hinit Hhandle Hmalloc Hbuf Hlen).
  - exact (display_short malloc i2c_master_transmit d buf dev device Hwidth
             Hdev Hinit Hhandle Hmalloc Hbuf Hlen).
Qed.

Lemma sh1106_display_sends_eight_pages_witness :
  let malloc := fun (_ : nat) (_ : Z) => true in
  let transmit := fun (_ : nat) (_ : list Z) => ESP_OK in
  let buf := repeat 0 1024 in
  let dev :=
    {| I2CDevice.addr_ := 0x3C; I2CDevice.bus_handle_ := Some 100;
       I2CDevice.device_handle_ := Some 200;
       I2CDevice.initialized_ := true; I2CDevice.sda_pin_ := 6;
       I2CDevice.scl_pin_ := 7; I2CDevice.i2c_freq_ := 100000;
       I2CDevice.i2c_port_ := 0 |} in
  let d :=
    {| SH1106.WIDTH := 128; SH1106.HEIGHT := 64; SH1106.rotation := 0;
       SH1106.i2c_dev := Some dev; SH1106.buffer := Some buf;
       SH1106.rstpin := -1; SH1106.i2caddr := 0x3C |} in
  0 < SH1106.WIDTH d <= 32767 /\
  SH1106.buffer d = Some buf /\
  SH1106.i2c_dev d = Some dev /\
  I2CDevice.initialized_ dev = true /\
  I2CDevice.device_handle_ dev = Some 200 /\
  (forall t n, malloc t n = true) /\
  Z.of_nat (List.length buf) = 8 * SH1106.WIDTH d /\
  (Z.of_nat (List.length buf) = 8 * SH1106.WIDTH d ->
   SH1106.display malloc transmit d
   = Some (flat_map (pageCalls 200 (SH1106.WIDTH d) buf)
             [0; 1; 2; 3; 4; 5; 6; 7])
   /\ dataBytes
        (flat_map (pageCalls 200 (SH1106.WIDTH d) buf)
           [0; 1; 2; 3; 4; 5; 6; 7])
      = buf) /\
  (Z.of_nat (List.length buf) < 8 * SH1106.WIDTH d ->
   SH1106.display malloc transmit d = None).
Proof.
  intros malloc transmit buf dev d.
  assert (Hwidth : 0 < SH1106.WIDTH d <= 32767) by (cbn; lia).
  assert (Hbuf : SH1106.buffer d = Some buf) by reflexivity.
  assert (Hdev : SH1106.i2c_dev d = Some dev) by reflexivity.
  assert (Hinit : I2CDevice.initialized_ dev = true) by reflexivity.
  assert (Hhandle : I2CDevice.device_handle_ dev = Some 200) by reflexivity.
  assert (Hmalloc : forall t n, malloc t n = true) by reflexivity.
  assert (Hlen : Z.of_nat (List.length buf) = 8 * SH1106.WIDTH d)
    by reflexivity.
  repeat (split; [assumption|]).
  exact (sh1106_display_sends_eight_pages malloc transmit d buf dev 200
           Hwidth Hbuf Hdev Hinit Hhandle Hmalloc).
Defined.

(** ** Printing in base 2 *)

Section BinaryFacts.

Import Print.

Lemma store_middle (pre post : list Z) (old c : Z) :
  store (Z.of_nat (List.length pre)) c (pre ++ old :: post)
  = Some (pre ++ c :: post).
Proof.
  unfold store.
  replace (Z.of_nat (List.length pre) <? 0) with false
    by (symmetry; apply Z.ltb_ge; lia).
  replace (Z.of_nat (List.length (pre ++ old :: post))
           <=? Z.of_nat (List.length pre)) with false
    by (symmetry; apply Z.leb_gt; rewrite List.length_app; cbn; lia).
  cbn [orb]. rewrite Nat2Z.id. unfold store_at.
  rewrite firstn_app, firstn_all, Nat.sub_diag. cbn [firstn].
  rewrite app_nil_r.
  replace (S (List.length pre)) with (List.length pre + 1)%nat by lia.
  rewrite skipn_app, skipn_all2 by lia.
  replace (List.length pre + 1 - List.length pre)%nat with 1%nat by lia.
  reflexivity.
Qed.

Lemma load_middle (pre post : list Z) (c : Z) :
  load (Z.of_nat (List.length pre)) (pre ++ c :: post) = Some c.
Proof.
  unfold load.
  replace (Z.of_nat (List.length pre) <? 0) with false
    by (symmetry; apply Z.ltb_ge; lia).
  rewrite Nat2Z.id, nth_error_app2 by lia.
  rewrite Nat.sub_diag. reflexivity.
Qed.

Lemma digitsLoop_unfold (uval : N) (p : Z) (buf : list Z) :
  digitsLoop uval p buf
  = if (uval =? 0)%N then Some (p, buf)
    else match store p (if (N.land uval 1 =? 0)%N then zero else one) buf with
         | None => None
         | Some buf' => digitsLoop (N.shiftr uval 1) (p + 1) buf'
         end.
Proof.
  funelim (digitsLoop uval p buf);
    repeat match goal with
           | H : _ = true |- _ => rewrite H
           | H : _ = false |- _ => rewrite H
           | H : store _ _ _ = _ |- _ => rewrite H
           end; reflexivity.
Qed.

Lemma reverseLoop_unfold (start end_ : Z) (buf : list Z) :
  reverseLoop start end_ buf
  = if start <? end_ then
      match load start buf, load end_ buf with
      | Some tmp, Some last =>
          match store start last buf with
          | Some buf1 =>
              match store end_ tmp buf1 with
              | Some buf2 => reverseLoop (start + 1) (end_ - 1) buf2
              | None => None
              end
          | None => None
          end
      | _, _ => None
      end
    else Some buf.
Proof.
  funelim (reverseLoop start end_ buf);
    repeat match goal with
           | H : _ = true |- _ => rewrite H
           | H : _ = false |- _ => rewrite H
           | H : store _ _ _ = _ |- _ => rewrite H
           | H : load _ _ = _ |- _ => rewrite H
           end; try reflexivity.
  destruct (load start buf); reflexivity.
Qed.

Lemma digitsLoop_writes (q : positive) :
  forall pre junk post,
    List.length junk = List.length (lsbDigits q) ->
    digitsLoop (Npos q) (Z.of_nat (List.length pre)) (pre ++ junk ++ post)
    = Some (Z.of_nat (List.length pre + List.length (lsbDigits q)),
            pre ++ lsbDigits q ++ post).
Proof.
  induction q as [q IH|q IH|]; intros pre junk post Hlen;
    rewrite digitsLoop_unfold; change (N.pos _ =? 0)%N with false;
    cbn iota; destruct junk as [|j junk]; try discriminate;
    cbn [lsbDigits List.length] in *.
  - change (N.land (N.pos q~1) 1) with 1%N. change (1 =? 0)%N with false.
    cbn iota. cbn [app]. rewrite store_middle.
    change (N.shiftr (N.pos q~1) 1) with (N.pos q).
    replace (pre ++ one :: junk ++ post) with ((pre ++ [one]) ++ junk ++ post)
      by (rewrite <- app_assoc; reflexivity).
    replace (Z.of_nat (List.length pre) + 1)
      with (Z.of_nat (List.length (pre ++ [one])))
      by (rewrite List.length_app; cbn; lia).
    rewrite IH by lia. rewrite List.length_app. cbn [List.length].
    f_equal. f_equal; [lia|]. rewrite <- app_assoc. reflexivity.
  - change (N.land (N.pos q~0) 1) with 0%N. change (0 =? 0)%N with true.
    cbn iota. cbn [app]. rewrite store_middle.
    change (N.shiftr (N.pos q~0) 1) with (N.pos q).
    replace (pre ++ zero :: junk ++ post)
      with ((pre ++ [zero]) ++ junk ++ post)
      by (rewrite <- app_assoc; reflexivity).
    replace (Z.of_nat (List.length pre) + 1)
      with (Z.of_nat (List.length (pre ++ [zero])))
      by (rewrite List.length_app; cbn; lia).
    rewrite IH by lia. rewrite List.length_app. cbn [List.length].
    f_equal. f_equal; [lia|]. rewrite <- app_assoc. reflexivity.
  - change (N.land 1 1) with 1%N. change (1 =? 0)%N with false.
    cbn iota. destruct junk; [|discriminate]. cbn [app].
    rewrite store_middle.
    change (N.shiftr 1 1) with 0%N.
    rewrite digitsLoop_unfold. change (0 =? 0)%N with true. cbn iota.
    f_equal. f_equal. lia.
Qed.

Lemma digitsLoop_overrun (q : positive) :
  forall pre junk,
    (List.length junk < List.length (lsbDigits q))%nat ->
    digitsLoop (Npos q) (Z.of_nat (List.length pre)) (pre ++ junk) = None.
Proof.
  induction q as [q IH|q IH|]; intros pre junk Hlen;
    rewrite digitsLoop_unfold; change (N.pos _ =? 0)%N with false;
    cbn iota; cbn [lsbDigits List.length] in *.
  - destruct junk as [|j junk].
    + unfold store. rewrite app_nil_r, Z.leb_refl, orb_true_r. reflexivity.
    + rewrite store_middle.
      change (N.shiftr (N.pos q~1) 1) with (N.pos q).
      match goal with
      | |- context [pre ++ ?c :: junk] =>
          replace (pre ++ c :: junk) with ((pre ++ [c]) ++ junk)
            by (rewrite <- app_assoc; reflexivity);
          replace (Z.of_nat (List.length pre) + 1)
            with (Z.of_nat (List.length (pre ++ [c])))
            by (rewrite List.length_app; cbn; lia)
      end.
      apply IH. cbn in Hlen. lia.
  - destruct junk as [|j junk].
    + unfold store. rewrite app_nil_r, Z.leb_refl, orb_true_r. reflexivity.
    + rewrite store_middle.
      change (N.shiftr (N.pos q~0) 1) with (N.pos q).
      match goal with
      | |- context [pre ++ ?c :: junk] =>
          replace (pre ++ c :: junk) with ((pre ++ [c]) ++ junk)
            by (rewrite <- app_assoc; reflexivity);
          replace (Z.of_nat (List.length pre) + 1)
            with (Z.of_nat (List.length (pre ++ [c])))
            by (rewrite List.length_app; cbn; lia)
      end.
      apply IH. cbn in Hlen. lia.
  - destruct junk as [|j junk]; [|cbn in Hlen; lia].
    unfold store. rewrite app_nil_r, Z.leb_refl, orb_true_r. reflexivity.
Qed.

Lemma reverseLoop_reverses (n : nat) :
  forall pre mid post,
    (List.length mid <= n)%nat ->
    reverseLoop (Z.of_nat (List.length pre))
      (Z.of_nat (List.length pre) + Z.of_nat (List.length mid) - 1)
      (pre ++ mid ++ post)
    = Some (pre ++ rev mid ++ post).
Proof.
  induction n as [|n IH]; intros pre mid post Hn.
  - destruct mid; [|cbn in Hn; lia].
    rewrite reverseLoop_unfold. cbn [List.length].
    replace (Z.of_nat (List.length pre)
             <? Z.of_nat (List.length pre) + Z.of_nat 0 - 1) with false
      by (symmetry; apply Z.ltb_ge; lia).
    reflexivity.
  - destruct mid as [|a mid].
    { rewrite reverseLoop_unfold. cbn [List.length].
      replace (Z.of_nat (List.length pre)
               <? Z.of_nat (List.length pre) + Z.of_nat 0 - 1) with false
        by (symmetry; apply Z.ltb_ge; lia).
      reflexivity. }
    destruct (rev mid) as [|b rmid] eqn:Hrev.
    { assert (mid = []) by (apply (f_equal (@rev Z)) in Hrev;
                            rewrite rev_involutive in Hrev; exact Hrev).
      subst mid. rewrite reverseLoop_unfold. cbn [List.length].
      replace (Z.of_nat (List.length pre)
               <? Z.of_nat (List.length pre) + Z.of_nat 1 - 1) with false
        by (symmetry; apply Z.ltb_ge; lia).
      reflexivity. }
    assert (Hmid : mid = rev rmid ++ [b]).
    { apply (f_equal (@rev Z)) in Hrev. rewrite rev_involutive in Hrev.
      exact Hrev. }
    subst mid. clear Hrev.
    set (mid' := rev rmid) in *.
    assert (Hlen' : (List.length mid' <= n)%nat).
    { cbn in Hn. rewrite List.length_app in Hn. cbn in Hn. lia. }
    rewrite reverseLoop_unfold.
    replace (Z.of_nat (List.length pre)
             <? Z.of_nat (List.length pre)
                + Z.of_nat (List.length (a :: mid' ++ [b])) - 1) with true
      by (symmetry; apply Z.ltb_lt; cbn [List.length];
          rewrite List.length_app; cbn; lia).
    replace (Z.of_nat (List.length pre)
             + Z.of_nat (List.length (a :: mid' ++ [b])) - 1)
      with (Z.of_nat (List.length (pre ++ a :: mid')))
      by (cbn [List.length]; rewrite !List.length_app; cbn; lia).
    replace (pre ++ (a :: mid' ++ [b]) ++ post)
      with (pre ++ a :: (mid' ++ b :: post))
      by (cbn; rewrite <- app_assoc; reflexivity).
    rewrite load_middle.
    replace (pre ++ a :: mid' ++ b :: post)
      with ((pre ++ a :: mid') ++ b :: post)
      by (rewrite <- app_assoc; reflexivity).
    rewrite load_middle.
    replace ((pre ++ a :: mid') ++ b :: post)
      with (pre ++ a :: mid' ++ b :: post)
      by (rewrite <- app_assoc; reflexivity).
    rewrite store_middle.
    replace (pre ++ b :: mid' ++ b :: post)
      with ((pre ++ b :: mid') ++ b :: post)
      by (rewrite <- app_assoc; reflexivity).
    replace (Z.of_nat (List.length (pre ++ a :: mid')))
      with (Z.of_nat (List.length (pre ++ b :: mid')))
      by (rewrite !List.length_app; reflexivity).
    rewrite store_middle.
    replace ((pre ++ b :: mid') ++ a :: post)
      with ((pre ++ [b]) ++ mid' ++ a :: post)
      by (rewrite <- !app_assoc; reflexivity).
    replace (Z.of_nat (List.length pre) + 1)
      with (Z.of_nat (List.length (pre ++ [b])))
      by (rewrite List.length_app; cbn; lia).
    replace (Z.of_nat (List.length (pre ++ b :: mid')) - 1)
      with (Z.of_nat (List.length (pre ++ [b]))
            + Z.of_nat (List.length mid') - 1)
      by (rewrite !List.length_app; cbn; lia).
    rewrite IH by exact Hlen'.
    f_equal. cbn [rev]. rewrite rev_app_distr. cbn [rev app].
    rewrite <- !app_assoc. reflexivity.
Qed.

Lemma c_str_terminated (chars rest : list Z) :
  Forall (fun c => c <> 0) chars ->
  c_str (chars ++ 0 :: rest) = Some chars.
Proof.
  induction 1 as [|c chars Hc _ IH]; [reflexivity|].
  cbn. replace (c =? 0) with false by (symmetry; apply Z.eqb_neq; exact Hc).
  rewrite IH. reflexivity.
Qed.

Lemma lsbDigits_digits (q : positive) :
  Forall (fun c => c = zero \/ c = one) (lsbDigits q).
Proof.
  induction q; cbn; constructor; auto.
Qed.

Lemma binaryValue_app (front : list Z) (c : Z) :
  binaryValue (front ++ [c]) = 2 * binaryValue front + (c - zero).
Proof.
  unfold binaryValue. rewrite fold_left_app. reflexivity.
Qed.

Lemma binaryValue_rev_lsb (q : positive) :
  binaryValue (rev (lsbDigits q)) = Zpos q.
Proof.
  induction q as [q IH|q IH|]; cbn [lsbDigits rev].
  - rewrite binaryValue_app, IH. unfold one, zero. lia.
  - rewrite binaryValue_app, IH. unfold zero. lia.
  - reflexivity.
Qed.

Lemma lsbDigits_last (q : positive) :
  exists front, lsbDigits q = front ++ [one].
Proof.
  induction q as [q (front & IH)|q (front & IH)|]; cbn [lsbDigits].
  - exists (one :: front). rewrite IH. reflexivity.
  - exists (zero :: front). rewrite IH. reflexivity.
  - exists []. reflexivity.
Qed.

Lemma lsbDigits_length (q : positive) :
  2 ^ Z.of_nat (List.length (lsbDigits q)) <= 2 * Zpos q
  /\ (0 < List.length (lsbDigits q))%nat.
Proof.
  induction q as [q (IH & Hpos)|q (IH & Hpos)|]; cbn [lsbDigits List.length].
  - rewrite Nat2Z.inj_succ, Z.pow_succ_r by lia. lia.
  - rewrite Nat2Z.inj_succ, Z.pow_succ_r by lia. lia.
  - cbn. lia.
Qed.

Lemma lsbDigits_short (q : positive) (bits : nat) :
  Zpos q < 2 ^ Z.of_nat bits -> (List.length (lsbDigits q) <= bits)%nat.
Proof.
  intros Hq. destruct (lsbDigits_length q) as (H & _).
  destruct (Nat.le_gt_cases (List.length (lsbDigits q)) bits) as [|Hgt];
    [assumption|].
  assert (2 ^ Z.of_nat (S bits) <= 2 ^ Z.of_nat (List.length (lsbDigits q)))
    by (apply Z.pow_le_mono_r; lia).
  rewrite Nat2Z.inj_succ, Z.pow_succ_r in * by lia. lia.
Qed.

Lemma lsbDigits_long (q : positive) (bits : nat) :
  2 ^ Z.of_nat bits <= Zpos q -> (bits < List.length (lsbDigits q))%nat.
Proof.
  revert bits. induction q as [q IH|q IH|]; intros bits Hq;
    cbn [lsbDigits List.length].
  - destruct bits; [lia|]. apply -> Nat.succ_lt_mono. apply IH.
    rewrite Nat2Z.inj_succ, Z.pow_succ_r in Hq by lia. lia.
  - destruct bits; [lia|]. apply -> Nat.succ_lt_mono. apply IH.
    rewrite Nat2Z.inj_succ, Z.pow_succ_r in Hq by lia. lia.
  - destruct bits; [lia|].
    rewrite Nat2Z.inj_succ, Z.pow_succ_r in Hq by lia.
    assert (0 < 2 ^ Z.of_nat bits) by (apply Z.pow_pos_nonneg; lia). lia.
Qed.

End BinaryFacts.

Section BinaryPrint.

Import Print.

Lemma list_split3 (l : list Z) (a m : nat) :
  (a + m < List.length l)%nat ->
  exists pre mid last post,
    l = pre ++ mid ++ last :: post
    /\ List.length pre = a /\ List.length mid = m.
Proof.
  intros Hlen.
  destruct (skipn m (skipn a l)) as [|last post] eqn:Hrest.
  { apply (f_equal (@List.length Z)) in Hrest.
    rewrite !List.length_skipn in Hrest. cbn in Hrest. lia. }
  exists (firstn a l), (firstn m (skipn a l)), last, post.
  split; [|split].
  - rewrite <- Hrest, firstn_skipn, firstn_skipn. reflexivity.
  - rewrite List.length_firstn. lia.
  - rewrite List.length_firstn, List.length_skipn. lia.
Qed.

Lemma binaryDigits_room (q : positive) (pre mid post : list Z) (last : Z) :
  List.length mid = List.length (lsbDigits q) ->
  binaryDigits (Npos q) (Z.of_nat (List.length pre))
    (pre ++ mid ++ last :: post)
  = Some (Z.of_nat (List.length (pre ++ rev (lsbDigits q))),
          (pre ++ rev (lsbDigits q)) ++ 0 :: post).
Proof.
  intros Hmid. unfold binaryDigits. change (N.pos q =? 0)%N with false.
  cbn iota.
  rewrite (digitsLoop_writes q pre mid (last :: post) Hmid).
  replace (pre ++ lsbDigits q ++ last :: post)
    with ((pre ++ lsbDigits q) ++ last :: post)
    by (rewrite <- app_assoc; reflexivity).
  replace (Z.of_nat (List.length pre + List.length (lsbDigits q)))
    with (Z.of_nat (List.length (pre ++ lsbDigits q)))
    by (rewrite List.length_app; reflexivity).
  rewrite store_middle.
  replace ((pre ++ lsbDigits q) ++ 0 :: post)
    with (pre ++ lsbDigits q ++ 0 :: post)
    by (rewrite <- app_assoc; reflexivity).
  replace (Z.of_nat (List.length (pre ++ lsbDigits q)) - 1)
    with (Z.of_nat (List.length pre)
          + Z.of_nat (List.length (lsbDigits q)) - 1)
    by (rewrite List.length_app; lia).
  rewrite (reverseLoop_reverses (List.length (lsbDigits q))) by lia.
  f_equal. f_equal.
  - rewrite !List.length_app, List.length_rev. reflexivity.
  - rewrite <- app_assoc. reflexivity.
Qed.

(** The digits block, the closing zero and the read of the string, for a
    value of at most [bits] bits behind a prefix without zero bytes. *)
Lemma digits_then_string (uval : N) (pre rest : list Z) (bits : nat) :
  Z.of_N uval < 2 ^ Z.of_nat bits -> (0 < bits < List.length rest)%nat ->
  Forall (fun c => c <> 0) pre ->
  exists digits p' buf' buf'',
    binaryDigits uval (Z.of_nat (List.length pre)) (pre ++ rest)
    = Some (p', buf')
    /\ store p' 0 buf' = Some buf''
    /\ c_str buf'' = Some (pre ++ digits)
    /\ Forall (fun c => c = zero \/ c = one) digits
    /\ binaryValue digits = Z.of_N uval
    /\ (digits = [zero] \/ hd 0 digits = one)
    /\ (List.length digits <= bits)%nat.
Proof.
  intros Hfit Hroom Hpre.
  destruct uval as [|q].
  - destruct rest as [|r0 [|r1 rest]]; try (cbn in Hroom; lia).
    exists [zero], (Z.of_nat (List.length pre) + 1),
      (pre ++ zero :: r1 :: rest), (pre ++ zero :: 0 :: rest).
    split; [|split; [|split; [|split; [|split; [|split]]]]].
    + unfold binaryDigits. change (0 =? 0)%N with true. cbn iota.
      rewrite store_middle. reflexivity.
    + replace (pre ++ zero :: r1 :: rest)
        with ((pre ++ [zero]) ++ r1 :: rest)
        by (rewrite <- app_assoc; reflexivity).
      replace (Z.of_nat (List.length pre) + 1)
        with (Z.of_nat (List.length (pre ++ [zero])))
        by (rewrite List.length_app; cbn; lia).
      rewrite store_middle. rewrite <- app_assoc. reflexivity.
    + replace (pre ++ zero :: 0 :: rest)
        with ((pre ++ [zero]) ++ 0 :: rest)
        by (rewrite <- app_assoc; reflexivity).
      apply c_str_terminated. apply Forall_app. split; [exact Hpre|].
      constructor; [discriminate|constructor].
    + constructor; [left; reflexivity|constructor].
    + reflexivity.
    + left. reflexivity.
    + cbn. lia.
  - assert (Hshort : (List.length (lsbDigits q) <= bits)%nat)
      by (apply lsbDigits_short; exact Hfit).
    destruct (list_split3 rest 0 (List.length (lsbDigits q)))
      as (nil_ & mid & last & post & Hrest & Hnil & Hmid); [lia|].
    destruct nil_; [|discriminate]. cbn [app] in Hrest. subst rest.
    exists (rev (lsbDigits q)),
      (Z.of_nat (List.length (pre ++ rev (lsbDigits q)))),
      ((pre ++ rev (lsbDigits q)) ++ 0 :: post),
      ((pre ++ rev (lsbDigits q)) ++ 0 :: post).
    split; [|split; [|split; [|split; [|split; [|split]]]]].
    + apply binaryDigits_room. exact Hmid.
    + apply store_middle.
    + apply c_str_terminated. apply Forall_app. split; [exact Hpre|].
      apply Forall_rev.
      eapply Forall_impl; [|apply lsbDigits_digits].
      intros c [->| ->]; discriminate.
    + apply Forall_rev, lsbDigits_digits.
    + apply binaryValue_rev_lsb.
    + right. destruct (lsbDigits_last q) as (front & ->).
      rewrite rev_app_distr. reflexivity.
    + rewrite List.length_rev. exact Hshort.
Qed.

Lemma binaryDigits_overrun (q : positive) (buf : list Z) :
  (List.length buf <= List.length (lsbDigits q))%nat ->
  match binaryDigits (Npos q) 0 buf with
  | Some (p', buf') => store p' 0 buf' = None
  | None => True
  end.
Proof.
  intros Hlen. unfold binaryDigits. change (N.pos q =? 0)%N with false.
  cbn iota.
  destruct (Nat.eq_dec (List.length buf) (List.length (lsbDigits q)))
    as [Heq|Hne].
  - pose proof (digitsLoop_writes q [] buf [] Heq) as E.
    cbn [List.length app Z.of_nat] in E. rewrite app_nil_r in E.
    change (Z.of_nat 0) with 0 in E. rewrite E.
    rewrite app_nil_r.
    assert (Hs : store (Z.of_nat (0 + List.length (lsbDigits q))) 0
                   (lsbDigits q) = None).
    { unfold store. cbn [Nat.add]. rewrite Z.leb_refl, orb_true_r.
      reflexivity. }
    rewrite Hs. exact I.
  - pose proof (digitsLoop_overrun q [] buf) as E.
    cbn [List.length app] in E. change (Z.of_nat 0) with 0 in E.
    rewrite E by lia. exact I.
Qed.

Lemma print_base2_facts (S : Type) (write : Z -> S -> S * Z)
  (snprintf : string -> Z -> list Z -> list Z) (buf : list Z) (s : S) :
  List.length buf = sizeof_buf ->
  (forall val, - 2 ^ 31 < val < 2 ^ 31 ->
     exists digits,
       printInt S write snprintf val 2 buf s
       = Some (writeLoop S write
                 ((if val <? 0 then [minus] else []) ++ digits) 0 s)
       /\ Forall (fun c => c = zero \/ c = one) digits
       /\ binaryValue digits = Z.abs val
       /\ (digits = [zero] \/ hd 0 digits = one)
       /\ (List.length digits <= 31)%nat) /\
  printInt S write snprintf (- 2 ^ 31) 2 buf s = None /\
  (forall val, (val < 2 ^ 32)%N ->
     exists digits,
       printUnsigned S write snprintf val 2 buf s
       = Some (writeLoop S write digits 0 s)
       /\ Forall (fun c => c = zero \/ c = one) digits
       /\ binaryValue digits = Z.of_N val
       /\ (digits = [zero] \/ hd 0 digits = one)
       /\ (List.length digits <= 32)%nat) /\
  (forall val, (2 ^ 32 <= val)%N ->
     printUnsigned S write snprintf val 2 buf s = None).
Proof.
  unfold sizeof_buf. intros Hbuf.
  split; [|split; [|split]].
  - intros val Hval. unfold printInt. cbn [Z.eqb Pos.eqb].
    unfold binaryInt.
    replace ((val <? 0) && (2 ^ 31 <=? - val)) with false
      by (symmetry; apply andb_false_iff; right; apply Z.leb_gt; lia).
    destruct (Z.ltb_spec val 0) as [Hneg|Hpos].
    + destruct buf as [|b0 rest]; [discriminate|].
      change (store 0 minus (b0 :: rest)) with (Some (minus :: rest)).
      assert (Hw : wrap32 (- val) = - val)
        by (unfold wrap32, wrap; apply Z.mod_small; lia).
      rewrite Hw.
      destruct (digits_then_string (Z.to_N (- val)) [minus] rest 31)
        as (digits & p' & buf' & buf'' & E1 & E2 & E3 & H1 & H2 & H3 & H4).
      * rewrite Z2N.id by lia. change (Z.of_nat 31) with 31. lia.
      * cbn in Hbuf. lia.
      * constructor; [discriminate|constructor].
      * exists digits. cbn [List.length app] in E1.
        change (Z.of_nat 1) with 1 in E1. rewrite E1, E2.
        unfold print. rewrite E3.
        split; [reflexivity|]. split; [exact H1|].
        split; [rewrite H2, Z2N.id by lia; lia|].
        split; assumption.
    + assert (Hw : wrap32 val = val)
        by (unfold wrap32, wrap; apply Z.mod_small; lia).
      rewrite Hw.
      destruct (digits_then_string (Z.to_N val) [] buf 31)
        as (digits & p' & buf' & buf'' & E1 & E2 & E3 & H1 & H2 & H3 & H4).
      * rewrite Z2N.id by lia. change (Z.of_nat 31) with 31. lia.
      * lia.
      * constructor.
      * exists digits. cbn [List.length app] in E1.
        change (Z.of_nat 0) with 0 in E1. rewrite E1, E2.
        unfold print. rewrite E3.
        split; [reflexivity|]. split; [exact H1|].
        split; [rewrite H2, Z2N.id by lia; lia|].
        split; assumption.
  - reflexivity.
  - intros val Hval. unfold printUnsigned. cbn [Z.eqb Pos.eqb].
    unfold binaryUnsigned.
    destruct (digits_then_string val [] buf 32)
      as (digits & p' & buf' & buf'' & E1 & E2 & E3 & H1 & H2 & H3 & H4).
    + change (Z.of_nat 32) with 32. lia.
    + lia.
    + constructor.
    + exists digits. cbn [List.length app] in E1.
      change (Z.of_nat 0) with 0 in E1. rewrite E1, E2.
      unfold print. rewrite E3. repeat split; assumption.
  - intros val Hval. unfold printUnsigned. cbn [Z.eqb Pos.eqb].
    unfold binaryUnsigned.
    destruct val as [|q]; [lia|].
    pose proof (binaryDigits_overrun q buf) as H.
    assert (Hlong : (32 < List.length (lsbDigits q))%nat)
      by (apply lsbDigits_long; change (Z.of_nat 32) with 32; lia).
    destruct (binaryDigits (N.pos q) 0 buf) as [[p' buf']|];
      [|reflexivity].
    rewrite H by lia. reflexivity.
Qed.

End BinaryPrint.

(** [print(val, 2)] with the 33-byte array, whatever the array held
    before and whatever the sink. For an [int] other than INT_MIN it
    writes a minus sign when the value is negative and then the binary
    digits of its absolute value, most significant first and without a
    leading zero ("0" for zero), at most 31 of them; for INT_MIN the
    negation overflows. For an [unsigned long] below 2^32 it writes the
    binary digits of the value, at most 32; a wider value would overrun
    the array. *)
Theorem print_base2_digits (S : Type) (write : Z -> S -> S * Z)
  (snprintf : string -> Z -> list Z -> list Z) (buf : list Z) (s : S)
  (Hbuf : List.length buf = Print.sizeof_buf) :
  (forall val, - 2 ^ 31 < val < 2 ^ 31 ->
     exists digits,
       Print.printInt S write snprintf val 2 buf s
       = Some (Print.writeLoop S write
                 ((if val <? 0 then [Print.minus] else []) ++ digits) 0 s)
       /\ Forall (fun c => c = Print.zero \/ c = Print.one) digits
       /\ binaryValue digits = Z.abs val
       /\ (digits = [Print.zero] \/ hd 0 digits = Print.one)
       /\ (List.length digits <= 31)%nat) /\
  Print.printInt S write snprintf (- 2 ^ 31) 2 buf s = None /\
  (forall val, (val < 2 ^ 32)%N ->
     exists digits,
       Print.printUnsigned S write snprintf val 2 buf s
       = Some (Print.writeLoop S write digits 0 s)
       /\ Forall (fun c => c = Print.zero \/ c = Print.one) digits
       /\ binaryValue digits = Z.of_N val
       /\ (digits = [Print.zero] \/ hd 0 digits = Print.one)
       /\ (List.length digits <= 32)%nat) /\
  (forall val, (2 ^ 32 <= val)%N ->
     Print.printUnsigned S write snprintf val 2 buf s = None).
Proof.
  exact (print_base2_facts S write snprintf buf s Hbuf).
Qed.

Lemma print_base2_digits_witness :
  let buf := repeat 0xAA 33 in
  let snprintf := fun (_ : string) (_ : Z) (b : list Z) => b in
  List.length buf = Print.sizeof_buf /\
  Print.printInt (list Z) recorder snprintf (-6) 2 buf []
  = Some ([45; 49; 49; 48], 4) /\
  Print.printUnsigned (list Z) recorder snprintf 5 2 buf []
  = Some ([49; 48; 49], 3) /\
  (forall val, - 2 ^ 31 < val < 2 ^ 31 ->
     exists digits,
       Print.printInt (list Z) recorder snprintf val 2 buf []
       = Some (Print.writeLoop (list Z) recorder
                 ((if val <? 0 then [Print.minus] else []) ++ digits) 0 [])
       /\ Forall (fun c => c = Print.zero \/ c = Print.one) digits
       /\ binaryValue digits = Z.abs val
       /\ (digits = [Print.zero] \/ hd 0 digits = Print.one)
       /\ (List.length digits <= 31)%nat) /\
  Print.printInt (list Z) recorder snprintf (- 2 ^ 31) 2 buf [] = None /\
  (forall val, (val < 2 ^ 32)%N ->
     exists digits,
       Print.printUnsigned (list Z) recorder snprintf val 2 buf []
       = Some (Print.writeLoop (list Z) recorder digits 0 [])
       /\ Forall (fun c => c = Print.zero \/ c = Print.one) digits
       /\ binaryValue digits = Z.of_N val
       /\ (digits = [Print.zero] \/ hd 0 digits = Print.one)
       /\ (List.length digits <= 32)%nat) /\
  (forall val, (2 ^ 32 <= val)%N ->
     Print.printUnsigned (list Z) recorder snprintf val 2 buf [] = None).
Proof.
  intros buf snprintf.
  assert (Hbuf : List.length buf = Print.sizeof_buf) by reflexivity.
  split; [exact Hbuf|].
  split; [vm_compute; reflexivity|].
  split; [vm_compute; reflexivity|].
  exact (print_base2_digits (list Z) recorder snprintf buf [] Hbuf).
Defined.

(** ** The SH1106 start-up *)

Section StartUpFacts.

Import SH1106.





End StartUpFacts.


